(** * chat_analyzer: the transcript parser and the analytics engine

    A shallow embedding of [processWhatsAppFile] (src/components/FileUpload.tsx)
    and of the [analysis] closure (src/components/ChatAnalysis.tsx), followed by
    the theorems that relate them to the written specification.

    Conventions of the embedding.
    - A JavaScript string is the list of its UTF-16 code units ([jsstring]).
    - A JavaScript number is an exact rational, NaN or a signed infinity
      ([number]); the binary64 rounding of [/] and [*] is not modelled.
    - A plain object used as a dictionary is an insertion-ordered association
      list keyed by property name ([obj]).
    - [undefined] is [None]; a thrown exception is the [Throw] completion.
    - The host is taken to run in the UTC time zone, and [new Date(string)]
      follows the legacy (non ISO) date parser of V8 on the strings the line
      pattern can capture.
    - [toLowerCase] and [toUpperCase] are functions of the host, defined over
      all of Unicode: the closure takes them as parameters, and so it does
      the array that the host's [sort] hands back.  [analysis] is the closure
      run with the Basic Latin case mappings and a stable sort; on text
      without cased letters outside Basic Latin, and on messages whose dates
      are all valid, these are what every host computes. *)

From Stdlib Require Import ZArith NArith QArith Qround Qreduction Qabs.
From Stdlib Require Import Bool List Lia.
From Stdlib Require Import Ascii String.
Import ListNotations.

Set Implicit Arguments.

#[local] Open Scope Z_scope.

(* ================================================================== *)
(** * Strings *)

Module JsString.

(** One UTF-16 code unit. *)
Definition char16 := N.
Definition jsstring := list char16.

(** An ASCII literal as a JavaScript string. *)
Definition str (s : string) : jsstring :=
  List.map N_of_ascii (list_ascii_of_string s).

Fixpoint eqb (a b : jsstring) : bool :=
  match a, b with
  | [], [] => true
  | x :: a', y :: b' => N.eqb x y && eqb a' b'
  | _, _ => false
  end.

(** WhiteSpace and LineTerminator of ECMAScript: what [trim] strips and what
    [\s] matches. *)
Definition isWhiteSpace (c : char16) : bool :=
  ((9 <=? c) && (c <=? 13) || (c =? 32) || (c =? 160) || (c =? 5760)
   || (8192 <=? c) && (c <=? 8202) || (c =? 8232) || (c =? 8233)
   || (c =? 8239) || (c =? 8287) || (c =? 12288) || (c =? 65279))%N.

(** LineTerminator: what [.] refuses. *)
Definition isLineTerminator (c : char16) : bool :=
  ((c =? 10) || (c =? 13) || (c =? 8232) || (c =? 8233))%N.

Definition isDigit (c : char16) : bool := ((48 <=? c) && (c <=? 57))%N.

Fixpoint trimStart (s : jsstring) : jsstring :=
  match s with
  | c :: s' => if isWhiteSpace c then trimStart s' else s
  | [] => []
  end.

Definition trimEnd (s : jsstring) : jsstring := rev (trimStart (rev s)).

(** [String.prototype.trim]. *)
Definition trim (s : jsstring) : jsstring := trimEnd (trimStart s).

(** [s.split(sep)] for a one code unit separator: always at least one piece. *)
Fixpoint split (sep : char16) (s : jsstring) : list jsstring :=
  match s with
  | [] => [[]]
  | c :: s' =>
      if N.eqb c sep then [] :: split sep s'
      else match split sep s' with
           | p :: ps => (c :: p) :: ps
           | [] => [[c]]
           end
  end.

(** [s.split(/\s+/)]: the pieces between maximal runs of white space; [cur]
    holds the piece being read, reversed, and [inWs] tells whether the last
    unit read belonged to a separator. *)
Fixpoint splitWs_go (cur : jsstring) (inWs : bool) (s : jsstring)
  : list jsstring :=
  match s with
  | [] => [rev cur]
  | c :: s' =>
      if isWhiteSpace c then
        if inWs then splitWs_go cur true s'
        else rev cur :: splitWs_go [] true s'
      else splitWs_go (c :: cur) false s'
  end.

Definition splitWs (s : jsstring) : list jsstring := splitWs_go [] false s.

Fixpoint isPrefixOf (p s : jsstring) : bool :=
  match p, s with
  | [], _ => true
  | x :: p', y :: s' => N.eqb x y && isPrefixOf p' s'
  | _ :: _, [] => false
  end.

(** [s.includes(p)]. *)
Fixpoint includes (s p : jsstring) : bool :=
  isPrefixOf p s ||
  match s with
  | [] => false
  | _ :: s' => includes s' p
  end.

(** The Basic Latin part of [toLowerCase] and [toUpperCase]: code units
    outside A-Z (resp. a-z) are left as they are.  The host's functions also
    map the cased letters beyond Basic Latin; the definitions and theorems
    that depend on those take the host's functions as parameters. *)
Definition lowerUnit (c : char16) : char16 :=
  if ((65 <=? c) && (c <=? 90))%N then (c + 32)%N else c.
Definition upperUnit (c : char16) : char16 :=
  if ((97 <=? c) && (c <=? 122))%N then (c - 32)%N else c.
Definition toLowerCase (s : jsstring) : jsstring := List.map lowerUnit s.
Definition toUpperCase (s : jsstring) : jsstring := List.map upperUnit s.

(** The code points of a string, as a [u]-flagged regular expression walks
    them: a high surrogate followed by a low one is one code point. *)
Fixpoint codePoints (s : jsstring) : list N :=
  match s with
  | [] => []
  | h :: s' =>
      match s' with
      | l :: s'' =>
          if ((55296 <=? h) && (h <=? 56319)
              && (56320 <=? l) && (l <=? 57343))%N
          then (65536 + (h - 55296) * 1024 + (l - 56320))%N :: codePoints s''
          else h :: codePoints s'
      | [] => [h]
      end
  end.

End JsString.

Import JsString.

(* ================================================================== *)
(** * Regular expressions: the backtracking matcher of [String.prototype.match]

    Only the constructs of the parser's line pattern are embedded: a greedy
    bounded repetition of a character class, sequencing, the greedy optional
    group, capturing groups and the end anchor.  The pattern starts with [^]
    and carries no flag, so a match is attempted at index 0 only. *)

Module Regex.

Inductive regex : Type :=
| Empty
| Class (p : char16 -> bool) (lo : nat) (hi : option nat)
| Seq (a b : regex)
| Opt (a : regex)
| Group (i : nat) (a : regex)
| EndAnchor.

Definition captures := list (nat * jsstring).

Fixpoint capture (i : nat) (c : captures) : option jsstring :=
  match c with
  | [] => None
  | (j, v) :: c' => if Nat.eqb i j then Some v else capture i c'
  end.

Definition roomLeft (hi : option nat) : bool :=
  match hi with Some O => false | _ => true end.

(** [p{lo,hi}], greedy: take one more unit when allowed and let the rest of
    the pattern try; fall back to stopping here once [lo] units are in. *)
Fixpoint greedy (R : Type) (p : char16 -> bool) (lo : nat) (hi : option nat)
    (s : jsstring) (k : jsstring -> option R) : option R :=
  let stop := match lo with O => k s | S _ => None end in
  match s with
  | c :: s' =>
      if p c && roomLeft hi then
        match greedy p (Nat.pred lo) (option_map Nat.pred hi) s' k with
        | Some r => Some r
        | None => stop
        end
      else stop
  | [] => stop
  end.

Fixpoint run (r : regex) (s : jsstring) (c : captures)
    (k : jsstring -> captures -> option captures) : option captures :=
  match r with
  | Empty => k s c
  | Class p lo hi => greedy p lo hi s (fun s' => k s' c)
  | Seq a b => run a s c (fun s' c' => run b s' c' k)
  | Opt a =>
      match run a s c k with
      | Some r => Some r
      | None => k s c
      end
  | Group i a =>
      run a s c (fun s' c' =>
        k s' ((i, firstn (List.length s - List.length s') s) :: c'))
  | EndAnchor => match s with [] => k s c | _ :: _ => None end
  end.

(** [s.match(r)] for an anchored pattern without flags. *)
Definition exec (r : regex) (s : jsstring) : option captures :=
  run r s [] (fun _ c => Some c).

Definition seqs (l : list regex) : regex := fold_right Seq Empty l.
Definition lit (c : char16) : regex := Class (N.eqb c) 1 (Some 1%nat).
Definition maybe (c : char16) : regex := Class (N.eqb c) 0 (Some 1%nat).
Definition spaces : regex := Class isWhiteSpace 0 None.
Definition digits (lo hi : nat) : regex := Class isDigit lo (Some hi).

End Regex.

(* ================================================================== *)
(** * Dates: the time value and the host's legacy date parser *)

Module JsDate.

(** A [Date] object: its time value in milliseconds since the epoch, or the
    invalid date (time value NaN). *)
Inductive Date : Type :=
| ValidDate (t : Z)
| InvalidDate.

Definition msPerSecond : Z := 1000.
Definition msPerMinute : Z := 60000.
Definition msPerHour : Z := 3600000.
Definition msPerDay : Z := 86400000.

Definition isLeapYear (y : Z) : bool :=
  (y mod 4 =? 0) && (negb (y mod 100 =? 0) || (y mod 400 =? 0)).

(** DayFromYear of ECMAScript: the day number of 1 January of year [y]. *)
Definition DayFromYear (y : Z) : Z :=
  365 * (y - 1970) + (y - 1969) / 4 - (y - 1901) / 100 + (y - 1601) / 400.

(** Days before the first of month [m] (0 = January) in a common year. *)
Definition daysBeforeMonth (m : Z) : Z :=
  nth (Z.to_nat m) [0; 31; 59; 90; 120; 151; 181; 212; 243; 273; 304; 334] 0.

(** MakeDay for a month already in 0..11. *)
Definition MakeDay (year month date : Z) : Z :=
  DayFromYear year + daysBeforeMonth month
  + (if isLeapYear year && (2 <=? month) then 1 else 0)
  + date - 1.

Definition MakeTime (hour minute second ms : Z) : Z :=
  hour * msPerHour + minute * msPerMinute + second * msPerSecond + ms.

Definition MakeDate (day time : Z) : Z := day * msPerDay + time.

(** Tokens of the legacy parser, on the alphabet the line pattern lets
    through: digits, [/], [:], white space and the units of a word. *)
Inductive token : Type :=
| TNumber (n : Z)
| TSymbol (c : char16)
| TWhiteSpace
| TWord (w : jsstring).

(** A unit that is read as part of a word: at or above "A" and not
    WhiteSpace.  The separators U+2028 and U+2029 are LineTerminators, not
    WhiteSpace, so the scanner takes them for word units. *)
Definition isWordUnit (c : char16) : bool :=
  (65 <=? c)%N && negb (isWhiteSpace c && negb (isLineTerminator c)).

Fixpoint readNumber (acc : Z) (s : jsstring) : Z * jsstring :=
  match s with
  | c :: s' =>
      if isDigit c then readNumber (acc * 10 + Z.of_N (c - 48)) s'
      else (acc, s)
  | [] => (acc, [])
  end.

Fixpoint readWord (acc : jsstring) (s : jsstring) : jsstring * jsstring :=
  match s with
  | c :: s' =>
      if isWordUnit c then readWord (lowerUnit c :: acc) s'
      else (rev acc, s)
  | [] => (rev acc, [])
  end.

Fixpoint scan (fuel : nat) (s : jsstring) : list token :=
  match fuel with
  | O => []
  | S fuel' =>
      match s with
      | [] => []
      | c :: s' =>
          if isDigit c then
            let (n, rest) := readNumber 0 s in TNumber n :: scan fuel' rest
          else if isWordUnit c then
            let (w, rest) := readWord [] s in TWord w :: scan fuel' rest
          else if isWhiteSpace c then TWhiteSpace :: scan fuel' s'
          else TSymbol c :: scan fuel' s'
      end
  end.

Definition tokens (s : jsstring) : list token := scan (List.length s) s.

(** The composers of the legacy parser: the numbers read for the day (at most
    three), those read for the time (at most four, [timeDone] once the last
    one is in) and the am/pm offset. *)
Record composers : Type := mkComposers {
  dayComp : list Z;
  timeComp : list Z;
  timeDone : bool;
  hourOffset : option Z
}.

Definition between (lo hi x : Z) : bool := (lo <=? x) && (x <=? hi).

Definition timeExpects (st : composers) (n : Z) : bool :=
  negb (timeDone st) &&
  match List.length (timeComp st) with
  | 1%nat => between 0 59 n
  | 2%nat => between 0 59 n
  | 3%nat => between 0 999 n
  | _ => false
  end.

Definition timeAdd (st : composers) (n : Z) : option composers :=
  if negb (timeDone st) && (List.length (timeComp st) <? 4)%nat
  then Some (mkComposers (dayComp st) (timeComp st ++ [n])
                         (timeDone st) (hourOffset st))
  else None.

Definition dayAdd (st : composers) (n : Z) : option composers :=
  if (List.length (dayComp st) <? 3)%nat
  then Some (mkComposers (dayComp st ++ [n]) (timeComp st)
                         (timeDone st) (hourOffset st))
  else None.

Definition endsTime (rest : list token) : bool :=
  match rest with
  | [] => true
  | TWhiteSpace :: _ => true
  | _ => false
  end.

(** The token loop.  A number followed by [:] feeds the time (followed by
    [::], it is an hour with 0 minutes); a number the time is waiting for
    closes it and must be followed by white space or the end; any other
    number feeds the day; [am] and [pm] set the hour offset; [/] and white
    space are passed over.  Any other word is refused: the words the line
    pattern can capture come after a number, where the parser rejects a
    word it does not know, and they are "am", "pm" or start with U+2028 or
    U+2029, so that none is a month or a zone.  What the line pattern cannot
    capture (a sign, a dot, a parenthesis) is answered [None]. *)
Fixpoint legacy (ts : list token) (st : composers) : option composers :=
  match ts with
  | [] => Some st
  | TNumber n :: rest =>
      match rest with
      | TSymbol 58%N :: TSymbol 58%N :: rest' =>
          match timeComp st, timeAdd st n with
          | [], Some st' =>
              match timeAdd st' 0 with
              | Some st'' => legacy rest' st''
              | None => None
              end
          | _, _ => None
          end
      | TSymbol 58%N :: rest' =>
          match timeAdd st n with
          | Some st' => legacy rest' st'
          | None => None
          end
      | _ =>
          if timeExpects st n then
            if endsTime rest then
              legacy rest (mkComposers (dayComp st) (timeComp st ++ [n])
                                       true (hourOffset st))
            else None
          else
            match dayAdd st n with
            | Some st' => legacy rest st'
            | None => None
            end
      end
  | TWord w :: rest =>
      let isTime := negb (Nat.eqb (List.length (timeComp st)) 0) in
      if JsString.eqb w (str "am") && isTime then
        legacy rest (mkComposers (dayComp st) (timeComp st)
                                 (timeDone st) (Some 0))
      else if JsString.eqb w (str "pm") && isTime then
        legacy rest (mkComposers (dayComp st) (timeComp st)
                                 (timeDone st) (Some 12))
      else None
  | TSymbol 47%N :: rest => legacy rest st
  | TSymbol 58%N :: rest => legacy rest st
  | TSymbol _ :: _ => None
  | TWhiteSpace :: rest => legacy rest st
  end.

(** The day composer: without a month name, three numbers read
    month, day, year, unless the first cannot be a day of the month, in which
    case they read year, month, day.  A year below 50 is in the 2000s, a year
    in 50..99 in the 1900s. *)
Definition writeDay (d : list Z) : option Z :=
  match d with
  | [] => None
  | c0 :: d' =>
      let c1 := nth 0 d' 1 in
      let c2 := nth 1 d' 1 in
      let three := Nat.eqb (List.length d) 3 in
      let '(year, month, day) :=
        if three && negb (between 1 31 c0) then (c0, c1, c2)
        else (if three then c2 else 0, c0, c1) in
      let year :=
        if between 0 49 year then year + 2000
        else if between 50 99 year then year + 1900 else year in
      if between 1 12 month && between 1 31 day
      then Some (MakeDay year (month - 1) day)
      else None
  end.

(** The time composer: missing slots are 0; with am/pm the hour must be in
    0..12 and is taken modulo 12 before the offset is added; hour 24 is let
    through when nothing follows it. *)
Definition writeTime (t : list Z) (off : option Z) : option Z :=
  let h0 := nth 0 t 0 in
  let m := nth 1 t 0 in
  let s := nth 2 t 0 in
  let ms := nth 3 t 0 in
  let hour :=
    match off with
    | Some o => if between 0 12 h0 then Some (h0 mod 12 + o) else None
    | None => Some h0
    end in
  match hour with
  | None => None
  | Some h =>
      if between 0 23 h && between 0 59 m && between 0 59 s && between 0 999 ms
         || (h =? 24) && (m =? 0) && (s =? 0) && (ms =? 0)
      then Some (MakeTime h m s ms)
      else None
  end.

(** [Date.parse] on a non ISO string; without a zone the fields are local
    time, which is UTC here. *)
Definition parseLegacy (s : jsstring) : Date :=
  match legacy (tokens s) (mkComposers [] [] false None) with
  | None => InvalidDate
  | Some st =>
      match writeDay (dayComp st), writeTime (timeComp st) (hourOffset st) with
      | Some d, Some t => ValidDate (MakeDate d t)
      | _, _ => InvalidDate
      end
  end.

(** [new Date(string)]. *)
Definition newDate (s : jsstring) : Date := parseLegacy s.

End JsDate.

Import JsDate.

(* ================================================================== *)
(** * Completions *)

(** What the code throws: [new Error(message)], or the TypeError the engine
    raises on a property access on [undefined]. *)
Inductive exception : Type :=
| Error (message : jsstring)
| TypeError.

Inductive completion (A : Type) : Type :=
| Return (a : A)
| Throw (e : exception).

Arguments Return {A} a.
Arguments Throw {A} e.

(* ================================================================== *)
(** * The transcript parser (FileUpload.tsx, [processWhatsAppFile]) *)

Module Parser.

Import Regex.

(** The object pushed for a matched line. *)
Record ParsedMessage : Type := mkParsed {
  date : jsstring;
  time : jsstring;
  contact : jsstring;
  message : jsstring;
  timestamp : Date
}.

Definition isAaPp (c : char16) : bool :=
  ((c =? 65) || (c =? 97) || (c =? 80) || (c =? 112))%N.
Definition isMm (c : char16) : bool := ((c =? 77) || (c =? 109))%N.
Definition notColon (c : char16) : bool := negb (c =? 58)%N.
Definition dot (c : char16) : bool := negb (isLineTerminator c).

(** [\d{1,2}\/\d{1,2}\/\d{2,4}] *)
Definition datePattern : regex :=
  seqs [digits 1 2; lit 47%N; digits 1 2; lit 47%N; digits 2 4].

(** [\d{1,2}:\d{2}(?::\d{2})?(?:\s*[AaPp][Mm])?] *)
Definition timePattern : regex :=
  seqs [digits 1 2; lit 58%N; digits 2 2;
        Opt (seqs [lit 58%N; digits 2 2]);
        Opt (seqs [spaces; Class isAaPp 1 (Some 1%nat);
                   Class isMm 1 (Some 1%nat)])].

(** [/^\[?(date),?\s*(time)\]?\s*-?\s*([^:]+):\s*(.+)$/] *)
Definition linePattern : regex :=
  seqs [maybe 91%N; Group 1 datePattern; maybe 44%N; spaces;
        Group 2 timePattern; maybe 93%N; spaces; maybe 45%N; spaces;
        Group 3 (Class notColon 1 None); lit 58%N; spaces;
        Group 4 (Class dot 1 None); EndAnchor].

(** [line.match(...)], destructured as [[, date, time, contact, message]]. *)
Definition matchLine (line : jsstring)
  : option (jsstring * jsstring * jsstring * jsstring) :=
  match exec linePattern line with
  | None => None
  | Some c =>
      match capture 1 c, capture 2 c, capture 3 c, capture 4 c with
      | Some d, Some t, Some n, Some m => Some (d, t, n, m)
      | _, _, _, _ => None
      end
  end.

(** A non empty string is truthy. *)
Definition truthy (s : jsstring) : bool :=
  match s with [] => false | _ :: _ => true end.

(** [content.split('\n').filter(line => line.trim())] *)
Definition lines (content : jsstring) : list jsstring :=
  List.filter (fun line => truthy (trim line)) (split 10%N content).

(** The body of the [forEach] callback, on the array built so far. *)
Definition pushLine (messages : list ParsedMessage) (line : jsstring)
  : list ParsedMessage :=
  match matchLine line with
  | Some (d, t, n, m) =>
      messages ++ [mkParsed d t (trim n) (trim m)
                            (newDate (d ++ 32%N :: t))]
  | None => messages
  end.

Definition noMessages : exception :=
  Error (str "No valid WhatsApp messages found").

(** The [try] block of [reader.onload], up to the hand-over of [messages]. *)
Definition processWhatsAppFile (content : jsstring)
  : completion (list ParsedMessage) :=
  let messages := fold_left pushLine (lines content) [] in
  if Nat.eqb (List.length messages) 0 then Throw noMessages
  else Return messages.

End Parser.

(* ================================================================== *)
(** * Numbers *)

Module Number.

(** A Number value.  Finite values are kept in lowest terms, so equal numbers
    are equal terms. *)
Inductive number : Type :=
| Fin (q : Q)
| PInf
| NInf
| NaN.

Definition ofZ (z : Z) : number := Fin (inject_Z z).
Definition ofNat (n : nat) : number := ofZ (Z.of_nat n).

Definition Qltb (x y : Q) : bool := negb (Qle_bool y x).
Definition Qzero (x : Q) : bool := Qeq_bool x 0.

Definition neg (a : number) : number :=
  match a with
  | Fin x => Fin (Qred (- x))
  | PInf => NInf
  | NInf => PInf
  | NaN => NaN
  end.

(** [a + b] *)
Definition add (a b : number) : number :=
  match a, b with
  | NaN, _ | _, NaN => NaN
  | Fin x, Fin y => Fin (Qred (x + y))
  | PInf, NInf | NInf, PInf => NaN
  | PInf, _ | _, PInf => PInf
  | NInf, _ | _, NInf => NInf
  end.

(** [a - b] *)
Definition sub (a b : number) : number :=
  match a, b with
  | Fin x, Fin y => Fin (Qred (x - y))
  | _, _ => add a (neg b)
  end.

Definition signOf (a : number) : option bool :=
  match a with
  | Fin x => if Qzero x then None else Some (Qltb x 0)
  | PInf => Some false
  | NInf => Some true
  | NaN => None
  end.

Definition inf (negative : bool) : number := if negative then NInf else PInf.

(** [a * b] *)
Definition mul (a b : number) : number :=
  match a, b with
  | NaN, _ | _, NaN => NaN
  | Fin x, Fin y => Fin (Qred (x * y))
  | _, _ =>
      match signOf a, signOf b with
      | Some sa, Some sb => inf (xorb sa sb)
      | _, _ => NaN
      end
  end.

(** [a / b]; the sign of a zero is not tracked. *)
Definition div (a b : number) : number :=
  match a, b with
  | NaN, _ | _, NaN => NaN
  | Fin x, Fin y =>
      if Qzero y then
        match signOf a with
        | Some sa => inf sa
        | None => NaN
        end
      else Fin (Qred (x / y))
  | Fin _, _ => Fin 0
  | _, Fin _ =>
      match signOf a, signOf b with
      | Some sa, Some sb => inf (xorb sa sb)
      | Some sa, None => inf sa
      | _, _ => NaN
      end
  | _, _ => NaN
  end.

(** [a < b] and [a > b]: false as soon as NaN is involved. *)
Definition lt (a b : number) : bool :=
  match a, b with
  | NaN, _ | _, NaN => false
  | Fin x, Fin y => Qltb x y
  | NInf, NInf | PInf, _ | _, NInf => false
  | NInf, _ | _, PInf => true
  end.

Definition gt (a b : number) : bool := lt b a.

(** [a >= b] *)
Definition ge (a b : number) : bool :=
  match a, b with
  | NaN, _ | _, NaN => false
  | _, _ => negb (lt a b)
  end.

(** [a === b] on numbers. *)
Definition eq (a b : number) : bool :=
  match a, b with
  | Fin x, Fin y => Qeq_bool x y
  | PInf, PInf | NInf, NInf => true
  | _, _ => false
  end.

(** [Math.round]: the nearest integer, halves going up. *)
Definition Math_round (a : number) : number :=
  match a with
  | Fin x => ofZ (Qfloor (x + (1 # 2)))
  | _ => a
  end.

Definition Math_abs (a : number) : number :=
  match a with
  | Fin x => Fin (Qred (Qabs x))
  | PInf | NInf => PInf
  | NaN => NaN
  end.

Definition Math_min (a b : number) : number :=
  match a, b with
  | NaN, _ | _, NaN => NaN
  | _, _ => if lt b a then b else a
  end.

Definition Math_max2 (a b : number) : number :=
  match a, b with
  | NaN, _ | _, NaN => NaN
  | _, _ => if lt a b then b else a
  end.

(** [Math.max(...xs)]: minus infinity for no argument. *)
Definition Math_max (xs : list number) : number := fold_left Math_max2 xs NInf.

(** [x || 0] and the truthiness of a number. *)
Definition truthy (a : number) : bool :=
  match a with
  | Fin x => negb (Qzero x)
  | PInf | NInf => true
  | NaN => false
  end.

(** [arr.reduce((a, b) => a + b, 0)] *)
Definition sum (xs : list number) : number := fold_left add xs (ofZ 0).

(** [arr.length] and [s.length] as numbers. *)
Definition length (A : Type) (l : list A) : number := ofNat (List.length l).

End Number.

Import Number.

(** The accessors of [Date] used by the analysis, in the UTC zone. *)
Module DateGet.

Definition getTime (d : Date) : number :=
  match d with ValidDate t => ofZ t | InvalidDate => NaN end.

Definition hourOf (t : Z) : Z := (t / msPerHour) mod 24.
Definition dayOf (t : Z) : Z := t / msPerDay.
Definition weekDayOf (t : Z) : Z := (dayOf t + 4) mod 7.

Definition getHours (d : Date) : number :=
  match d with ValidDate t => ofZ (hourOf t) | InvalidDate => NaN end.

Definition getDay (d : Date) : number :=
  match d with ValidDate t => ofZ (weekDayOf t) | InvalidDate => NaN end.

(** The civil date (year, month 0..11, day of month) of a day number. *)
Definition civil (day : Z) : Z * Z * Z :=
  let z := day + 719468 in
  let era := z / 146097 in
  let doe := z - era * 146097 in
  let yoe := (doe - doe / 1460 + doe / 36524 - doe / 146096) / 365 in
  let doy := doe - (365 * yoe + yoe / 4 - yoe / 100) in
  let mp := (5 * doy + 2) / 153 in
  let d := doy - (153 * mp + 2) / 5 + 1 in
  let m := if mp <? 10 then mp + 3 else mp - 9 in
  let y := yoe + era * 400 + (if m <=? 2 then 1 else 0) in
  (y, m - 1, d).

Fixpoint digitsOf (fuel : nat) (n : Z) (acc : jsstring) : jsstring :=
  match fuel with
  | O => acc
  | S fuel' =>
      let acc' := (48 + Z.to_N (n mod 10))%N :: acc in
      if n <? 10 then acc' else digitsOf fuel' (n / 10) acc'
  end.

(** The decimal digits of a natural number. *)
Definition decimal (n : Z) : jsstring :=
  digitsOf (S (Z.to_nat (Z.log2 n))) n [].

Definition padStart (width : nat) (s : jsstring) : jsstring :=
  repeat 48%N (width - List.length s) ++ s.

Definition dayNames : list jsstring :=
  List.map str ["Sun"; "Mon"; "Tue"; "Wed"; "Thu"; "Fri"; "Sat"]%string.
Definition monthNames : list jsstring :=
  List.map str ["Jan"; "Feb"; "Mar"; "Apr"; "May"; "Jun";
                "Jul"; "Aug"; "Sep"; "Oct"; "Nov"; "Dec"]%string.

(** [toDateString]: "Tue Jan 02 2024", or "Invalid Date". *)
Definition toDateString (d : Date) : jsstring :=
  match d with
  | InvalidDate => str "Invalid Date"
  | ValidDate t =>
      let '(y, m, dd) := civil (dayOf t) in
      nth (Z.to_nat (weekDayOf t)) dayNames []
      ++ 32%N :: nth (Z.to_nat m) monthNames []
      ++ 32%N :: padStart 2 (decimal dd)
      ++ 32%N :: (if y <? 0 then [45%N] else [])
      ++ padStart (if y <? 0 then 6 else 4) (decimal (Z.abs y))
  end.

End DateGet.

Import DateGet.

(* ================================================================== *)
(** * Plain objects used as dictionaries, and arrays *)

Module Obj.

(** Own properties in creation order.  (The order of integer-like keys is
    never observed by the code embedded here.) *)
Definition obj (V : Type) : Type := list (jsstring * V).

Fixpoint get (V : Type) (k : jsstring) (o : obj V) : option V :=
  match o with
  | [] => None
  | (k', v) :: o' => if JsString.eqb k k' then Some v else get k o'
  end.

Fixpoint update (V : Type) (k : jsstring) (v : V) (o : obj V) : obj V :=
  match o with
  | [] => []
  | (k', v') :: o' =>
      if JsString.eqb k k' then (k', v) :: o' else (k', v') :: update k v o'
  end.

(** [o[k] = v]: overwrite in place, or create the property at the end. *)
Definition set (V : Type) (k : jsstring) (v : V) (o : obj V) : obj V :=
  match get k o with
  | Some _ => update k v o
  | None => o ++ [(k, v)]
  end.

(** The literal [{ [k1]: v1, [k2]: v2 }]. *)
Definition literal2 (V : Type) (k1 : jsstring) (v1 : V) (k2 : jsstring) (v2 : V)
  : obj V := set k2 v2 (set k1 v1 []).

(** [o[k]++] on a dictionary of counters.  A missing own property reads as
    [undefined] (or as a member of [Object.prototype]), which [++] turns
    into NaN; the write then creates the property, except for [__proto__],
    whose setter drops a primitive. *)
Definition increment (k : jsstring) (o : obj number) : obj number :=
  match get k o with
  | Some v => set k (add v (ofZ 1)) o
  | None => if JsString.eqb k (str "__proto__") then o else set k NaN o
  end.

End Obj.

Module JsArray.

(** [Array.prototype.sort] with a comparator, as a stable insertion sort: an
    element moves right past those it compares greater than (a NaN answer
    counts as 0).  With a consistent comparator this is the order every
    engine produces.  With an inconsistent one (a comparator that answers
    NaN for some pairs only, as a difference of time values does next to an
    invalid date) the order is the engine's own choice among the
    permutations of the array, and may differ from this one. *)
Fixpoint insert (A : Type) (cmp : A -> A -> number) (x : A) (l : list A)
  : list A :=
  match l with
  | [] => [x]
  | y :: l' => if gt (cmp x y) (ofZ 0) then y :: insert cmp x l' else x :: l
  end.

Definition sort (A : Type) (cmp : A -> A -> number) (l : list A) : list A :=
  fold_right (insert cmp) [] l.

(** The pairs [(a[i-1], a[i])] for [i] from 1, as the [for] loops read them. *)
Definition adjacent (A : Type) (l : list A) : list (A * A) := combine l (tl l).

(** [arr[i]++] on an array of numbers: an index that is not one of the
    elements (NaN) leaves them as they are. *)
Definition bump (i : number) (arr : list number) : list number :=
  match i with
  | Fin q =>
      if Qeq_bool q (inject_Z (Qfloor q)) && (0 <=? Qfloor q) then
        let n := Z.to_nat (Qfloor q) in
        match nth_error arr n with
        | Some v => firstn n arr ++ add v (ofZ 1) :: skipn (S n) arr
        | None => arr
        end
      else arr
  | _ => arr
  end.

(** [arr.indexOf(x)]: the first index holding [x], or -1. *)
Fixpoint indexOf_from (i : Z) (x : number) (arr : list number) : Z :=
  match arr with
  | [] => -1
  | y :: arr' => if Number.eq y x then i else indexOf_from (i + 1) x arr'
  end.

Definition indexOf (x : number) (arr : list number) : Z := indexOf_from 0 x arr.

End JsArray.

(* ================================================================== *)
(** * The analytics engine (ChatAnalysis.tsx, the [analysis] closure)

    The record below holds every field of the returned object except
    [topWords] and [consistencyScore]: these two are embedded apart, further
    down (the first leans on the prototype chain of plain objects, the second
    on [Math.sqrt]). *)

Module Result.

Inductive severity : Type := high | medium | low.

Record RedFlag : Type := mkRedFlag {
  category : jsstring;
  message : jsstring;
  severityOf : severity
}.

Record CommunicationStyle : Type := mkStyle {
  questions : number;
  exclamations : number;
  caps : number
}.

Record ActivityPattern : Type := mkPattern {
  lateNight : Obj.obj number;
  earlyMorning : Obj.obj number;
  weekend : Obj.obj number;
  weekday : Obj.obj number
}.

Record t : Type := mk {
  contacts : option jsstring * option jsstring;
  messageCounts : Obj.obj number;
  interestLevels : Obj.obj number;
  topEmojis : Obj.obj (list (jsstring * number));
  redFlags : list RedFlag;
  compatibilityScore : number;
  conversationDays : number;
  totalMessages : number;
  avgMessageLength : Obj.obj number;
  peakActivity : number * option jsstring;
  avgResponseTime : Obj.obj number;
  conversationStarters : Obj.obj number;
  activityPattern : ActivityPattern;
  sentimentScores : Obj.obj number;
  doubleTextAnalysis : Obj.obj number;
  communicationStyles : Obj.obj CommunicationStyle;
  conversationGaps : number * number;
  energyLevels : Obj.obj number
}.

End Result.

Module Analysis.

Import Obj JsArray.

(** [interface Message] *)
Record Message : Type := mkMessage {
  contact : jsstring;
  message : jsstring;
  timestamp : Date
}.

(** The parser's objects, seen through [interface Message]. *)
Definition ofParsed (p : Parser.ParsedMessage) : Message :=
  mkMessage (Parser.contact p) (Parser.message p) (Parser.timestamp p).

(** A contact name or [undefined]. *)
Definition value : Type := option jsstring.

(** [s === v] for a string [s]. *)
Definition strictEq (s : jsstring) (v : value) : bool :=
  match v with Some c => JsString.eqb s c | None => false end.

(** The property key of a computed member [[v]]. *)
Definition key (v : value) : jsstring :=
  match v with Some c => c | None => str "undefined" end.

(** [bind] of completions. *)
Definition bind (A B : Type) (c : completion A) (f : A -> completion B)
  : completion B :=
  match c with Return a => f a | Throw e => Throw e end.

Fixpoint foldM (A S : Type) (f : S -> A -> completion S) (l : list A) (s : S)
  : completion S :=
  match l with
  | [] => Return s
  | x :: l' => bind (f s x) (foldM f l')
  end.

(** [[...new Set(l)]]: the distinct values in order of first occurrence. *)
Definition addOnce (seen : list jsstring) (c : jsstring) : list jsstring :=
  if existsb (JsString.eqb c) seen then seen else seen ++ [c].
Definition distinct (l : list jsstring) : list jsstring :=
  fold_left addOnce l [].

(** The emoji pattern, [u]-flagged: one code point of the listed ranges. *)
Definition isEmoji (cp : N) : bool :=
  ((128512 <=? cp) && (cp <=? 128591) || (127744 <=? cp) && (cp <=? 128511)
   || (128640 <=? cp) && (cp <=? 128767) || (127456 <=? cp) && (cp <=? 127487)
   || (9728 <=? cp) && (cp <=? 9983) || (9984 <=? cp) && (cp <=? 10175))%N.

Definition fromCodePoint (cp : N) : jsstring :=
  if (cp <? 65536)%N then [cp]
  else [(55296 + (cp - 65536) / 1024)%N; (56320 + (cp - 65536) mod 1024)%N].

(** [s.match(emojiRegex) || []] *)
Definition emojiMatches (s : jsstring) : list jsstring :=
  List.map fromCodePoint (List.filter isEmoji (codePoints s)).

Definition redFlagKeywords : list (jsstring * list jsstring) :=
  [(str "ex", List.map str ["ex"; "former"; "past relationship"]%string);
   (str "money",
    List.map str ["broke"; "money"; "cash"; "poor"; "rich"]%string);
   (str "blocking",
    List.map str ["block"; "blocked"; "ignore"; "ignored"]%string);
   (str "toxic", List.map str ["hate"; "stupid"; "idiot"; "annoying"]%string)].

Definition positiveWords : list jsstring :=
  List.map str ["love"; "great"; "amazing"; "awesome"; "happy"; "good"; "nice";
                "wonderful"; "perfect"; "beautiful"; "yes"; "thanks"; "thank";
                "best"; "excited"; "fun"]%string.
Definition negativeWords : list jsstring :=
  List.map str ["hate"; "bad"; "terrible"; "awful"; "sad"; "angry"; "no";
                "sorry"; "worst"; "annoying"; "boring"; "stupid"; "frustrated";
                "tired"]%string.

Definition weekDays : list jsstring :=
  List.map str ["Sunday"; "Monday"; "Tuesday"; "Wednesday"; "Thursday";
                "Friday"; "Saturday"]%string.

(** [(current.timestamp.getTime() - previous.timestamp.getTime()) / unit] *)
Definition elapsed (previous current : Message) (unit : Z) : number :=
  div (sub (getTime (timestamp current)) (getTime (timestamp previous)))
      (ofZ unit).

Section Closure.

(** The host's [String.prototype.toLowerCase] and [toUpperCase]. *)
Variable toLowerCase : jsstring -> jsstring.
Variable toUpperCase : jsstring -> jsstring.

(** The [messages] prop, and the array [sortedMessages] names once
    [[...messages].sort(...)] has run. *)
Variable messages : list Message.
Variable sortedMessages : list Message.

(** [m.message === m.message.toUpperCase() && m.message.length > 3] *)
Definition allCaps (m : Message) : bool :=
  JsString.eqb (message m) (toUpperCase (message m))
  && gt (Number.length (message m)) (ofZ 3).

Definition contacts : list jsstring := distinct (List.map contact messages).
Definition contact1 : value := nth_error contacts 0.
Definition contact2 : value := nth_error contacts 1.

Definition contact1Messages : list Message :=
  List.filter (fun m => strictEq (contact m) contact1) messages.
Definition contact2Messages : list Message :=
  List.filter (fun m => strictEq (contact m) contact2) messages.

(** [cm.reduce((sum, m) => sum + m.message.length, 0) / cm.length] *)
Definition avgLength (cm : list Message) : number :=
  div (fold_left (fun sum m => add sum (Number.length (message m))) cm (ofZ 0))
      (Number.length cm).
Definition contact1AvgLength : number := avgLength contact1Messages.
Definition contact2AvgLength : number := avgLength contact2Messages.

Definition totalMessages : number := Number.length messages.

Definition interestOf (cm : list Message) : number :=
  Math_round (mul (div (Number.length cm) totalMessages) (ofZ 100)).
Definition contact1Interest : number := interestOf contact1Messages.
Definition contact2Interest : number := interestOf contact2Messages.

(** Red flags: the two nested [forEach] over the keyword table, pushing onto
    [redFlags]. *)
Definition keywordCount (keyword : jsstring) : nat :=
  List.length
    (List.filter (fun m => includes (toLowerCase (message m)) keyword)
                 messages).

Definition severityFor (count : nat) : Result.severity :=
  if (10 <? count)%nat then Result.high
  else if (5 <? count)%nat then Result.medium else Result.low.

(** The template [`Mentioned "${keyword}" ${count} times`]. *)
Definition flagText (keyword : jsstring) (count : nat) : jsstring :=
  str "Mentioned " ++ 34%N :: keyword ++ 34%N :: 32%N
  :: decimal (Z.of_nat count) ++ str " times".

Definition pushKeyword (category : jsstring) (flags : list Result.RedFlag)
    (keyword : jsstring) : list Result.RedFlag :=
  let count := keywordCount keyword in
  if (0 <? count)%nat
  then flags ++ [Result.mkRedFlag category (flagText keyword count)
                                  (severityFor count)]
  else flags.

Definition pushCategory (flags : list Result.RedFlag)
    (entry : jsstring * list jsstring) : list Result.RedFlag :=
  fold_left (pushKeyword (fst entry)) (snd entry) flags.

Definition redFlags : list Result.RedFlag :=
  fold_left pushCategory redFlagKeywords [].

Definition mutualInterest : number :=
  Math_min contact1Interest contact2Interest.
Definition compatibilityScore : number :=
  Math_round
    (div (add mutualInterest
              (sub (ofZ 100)
                   (Math_abs (sub contact1Interest contact2Interest))))
         (ofZ 2)).

Definition conversationDays : number :=
  Number.length
    (distinct (List.map (fun m => toDateString (timestamp m)) messages)).

(** [getTopEmojis] *)
Definition countOne (o : obj number) (k : jsstring) : obj number :=
  let old := match get k o with
             | Some v => if Number.truthy v then v else ofZ 0
             | None => ofZ 0
             end in
  set k (add old (ofZ 1)) o.

Definition getTopEmojis (cm : list Message) : list (jsstring * number) :=
  let emojis := flat_map (fun m => emojiMatches (message m)) cm in
  let emojiCount := fold_left countOne emojis [] in
  firstn 5 (sort (fun a b => sub (snd b) (snd a)) emojiCount).

(** Peak activity. *)
Definition hourlyActivity : list number :=
  fold_left (fun arr m => bump (getHours (timestamp m)) arr) messages
            (repeat (ofZ 0) 24).
Definition weeklyActivity : list number :=
  fold_left (fun arr m => bump (getDay (timestamp m)) arr) messages
            (repeat (ofZ 0) 7).
Definition peakHour : number :=
  ofZ (indexOf (Math_max hourlyActivity) hourlyActivity).
Definition peakDay : option jsstring :=
  let i := indexOf (Math_max weeklyActivity) weeklyActivity in
  if i <? 0 then None else nth_error weekDays (Z.to_nat i).

(** Response times: the gaps under 24 hours between neighbours of different
    contacts, filed under the later one. *)
Definition responseStep (responseTimes : obj (list number))
    (pc : Message * Message) : completion (obj (list number)) :=
  let (previous, current) := pc in
  if negb (JsString.eqb (contact current) (contact previous)) then
    let timeDiff := elapsed previous current (1000 * 60) in
    if lt timeDiff (ofZ 1440) then
      match get (contact current) responseTimes with
      | Some arr =>
          Return (set (contact current) (arr ++ [timeDiff]) responseTimes)
      | None => Throw TypeError
      end
    else Return responseTimes
  else Return responseTimes.

Definition responseTimes : completion (obj (list number)) :=
  foldM responseStep (adjacent sortedMessages)
        (literal2 (key contact1) [] (key contact2) []).

Definition meanOrZero (arr : list number) : number :=
  if gt (Number.length arr) (ofZ 0)
  then Math_round (div (sum arr) (Number.length arr))
  else ofZ 0.

Definition avgOf (rt : obj (list number)) (c : value) : completion number :=
  match get (key c) rt with
  | Some arr => Return (meanOrZero arr)
  | None => Throw TypeError
  end.

Definition avgResponseTime : completion (obj number) :=
  bind responseTimes (fun rt =>
  bind (avgOf rt contact1) (fun a1 =>
  bind (avgOf rt contact2) (fun a2 =>
  Return (literal2 (key contact1) a1 (key contact2) a2)))).

(** Conversation starters: the counters and [lastMessageTime], threaded
    through the [forEach]. *)
Definition starterStep (st : obj number * number) (m : Message)
  : obj number * number :=
  let (counters, lastMessageTime) := st in
  let timeDiff :=
    div (sub (getTime (timestamp m)) lastMessageTime) (ofZ (1000 * 60 * 60)) in
  (if gt timeDiff (ofZ 4) then increment (contact m) counters else counters,
   getTime (timestamp m)).

Definition zeroCounters : obj number :=
  literal2 (key contact1) (ofZ 0) (key contact2) (ofZ 0).

Definition conversationStarters : obj number :=
  fst (fold_left starterStep sortedMessages (zeroCounters, ofZ 0)).

(** Night owls and early birds. *)
Definition nightStep (st : obj number * obj number) (m : Message)
  : obj number * obj number :=
  let (late, early) := st in
  let hour := getHours (timestamp m) in
  (if ge hour (ofZ 22) || lt hour (ofZ 6) then increment (contact m) late
   else late,
   if ge hour (ofZ 6) && lt hour (ofZ 10) then increment (contact m) early
   else early).

Definition lateNightMessages : obj number :=
  fst (fold_left nightStep messages (zeroCounters, zeroCounters)).
Definition earlyMorningMessages : obj number :=
  snd (fold_left nightStep messages (zeroCounters, zeroCounters)).

(** [getSentimentScore] *)
Definition hits (lexicon words : list jsstring) : number :=
  Number.length
    (List.filter (fun word => existsb (fun w => includes word w) lexicon)
                 words).

Definition sentimentStep (st : number * number) (m : Message)
  : number * number :=
  let (positiveCount, negativeCount) := st in
  let words := splitWs (toLowerCase (message m)) in
  (add positiveCount (hits positiveWords words),
   add negativeCount (hits negativeWords words)).

Definition getSentimentScore (cm : list Message) : number :=
  let (positiveCount, negativeCount) :=
    fold_left sentimentStep cm (ofZ 0, ofZ 0) in
  let total := add positiveCount negativeCount in
  if gt total (ofZ 0)
  then Math_round (mul (div positiveCount total) (ofZ 100))
  else ofZ 50.

Definition sentimentScores : obj number :=
  literal2 (key contact1) (getSentimentScore contact1Messages)
           (key contact2) (getSentimentScore contact2Messages).

(** Double texting. *)
Definition doubleStep (counters : obj number) (pc : Message * Message)
  : obj number :=
  let (previous, current) := pc in
  let timeDiff := elapsed previous current (1000 * 60) in
  if JsString.eqb (contact current) (contact previous) && lt timeDiff (ofZ 5)
  then increment (contact current) counters
  else counters.

Definition doubleTextAnalysis : obj number :=
  fold_left doubleStep (adjacent sortedMessages) zeroCounters.

(** [getCommunicationStyle] *)
Definition percentOf (part : list Message) (cm : list Message) : number :=
  Math_round (mul (div (Number.length part) (Number.length cm)) (ofZ 100)).

Definition getCommunicationStyle (cm : list Message)
  : Result.CommunicationStyle :=
  let questions := List.filter (fun m => includes (message m) [63%N]) cm in
  let exclamations := List.filter (fun m => includes (message m) [33%N]) cm in
  let caps := List.filter allCaps cm in
  Result.mkStyle (percentOf questions cm) (percentOf exclamations cm)
                 (percentOf caps cm).

Definition communicationStyles : obj Result.CommunicationStyle :=
  literal2 (key contact1) (getCommunicationStyle contact1Messages)
           (key contact2) (getCommunicationStyle contact2Messages).

(** Weekend against weekday. *)
Definition weekStep (st : obj number * obj number) (m : Message)
  : obj number * obj number :=
  let (weekendMessages, weekdayMessages) := st in
  let day := getDay (timestamp m) in
  if Number.eq day (ofZ 0) || Number.eq day (ofZ 6)
  then (increment (contact m) weekendMessages, weekdayMessages)
  else (weekendMessages, increment (contact m) weekdayMessages).

Definition weekSplit : obj number * obj number :=
  fold_left weekStep messages (zeroCounters, zeroCounters).
Definition weekendMessages : obj number := fst weekSplit.
Definition weekdayMessages : obj number := snd weekSplit.

(** Conversation gaps. *)
Definition gapStep (gaps : list number) (pc : Message * Message)
  : list number :=
  let (previous, current) := pc in
  let timeDiff := elapsed previous current (1000 * 60 * 60 * 24) in
  if gt timeDiff (ofZ 1) then gaps ++ [Math_round timeDiff] else gaps.

Definition conversationGaps : list number :=
  fold_left gapStep (adjacent sortedMessages) [].
Definition longestGap : number :=
  if gt (Number.length conversationGaps) (ofZ 0)
  then Math_max conversationGaps else ofZ 0.
Definition averageGap : number :=
  if gt (Number.length conversationGaps) (ofZ 0)
  then Math_round (div (sum conversationGaps) (Number.length conversationGaps))
  else ofZ 0.

(** [getEnergyLevel] *)
Definition energyStep (energyScore : number) (m : Message) : number :=
  let exclamations :=
    Number.length (List.filter (N.eqb 33) (message m)) in
  let caps := if allCaps m then ofZ 1 else ofZ 0 in
  let emojis := Number.length (emojiMatches (message m)) in
  add energyScore
      (add (add (mul exclamations (ofZ 2)) (mul caps (ofZ 3)))
           (mul emojis (ofZ 1))).

Definition getEnergyLevel (cm : list Message) : number :=
  let energyScore := fold_left energyStep cm (ofZ 0) in
  let totalMessages := Number.length cm in
  if gt totalMessages (ofZ 0)
  then Math_round (mul (div energyScore totalMessages) (ofZ 10))
  else ofZ 0.

Definition energyLevels : obj number :=
  literal2 (key contact1) (getEnergyLevel contact1Messages)
           (key contact2) (getEnergyLevel contact2Messages).

(** The closure after its guard, up to the returned object.  The only step
    that can throw is the response time loop. *)
Definition body : completion (option Result.t) :=
  bind avgResponseTime (fun avgResponseTime =>
  Return (Some (Result.mk
    (contact1, contact2)
    (literal2 (key contact1) (Number.length contact1Messages)
              (key contact2) (Number.length contact2Messages))
    (literal2 (key contact1) contact1Interest (key contact2) contact2Interest)
    (literal2 (key contact1) (getTopEmojis contact1Messages)
              (key contact2) (getTopEmojis contact2Messages))
    redFlags
    compatibilityScore
    conversationDays
    totalMessages
    (literal2 (key contact1) (Math_round contact1AvgLength)
              (key contact2) (Math_round contact2AvgLength))
    (peakHour, peakDay)
    avgResponseTime
    conversationStarters
    (Result.mkPattern lateNightMessages earlyMorningMessages
                      weekendMessages weekdayMessages)
    sentimentScores
    doubleTextAnalysis
    communicationStyles
    (longestGap, averageGap)
    energyLevels))).

End Closure.

(** The comparator of the sort:
    [a.timestamp.getTime() - b.timestamp.getTime()]. *)
Definition byTime (a b : Message) : number :=
  sub (getTime (timestamp a)) (getTime (timestamp b)).

(** [[...messages].sort(...)], for a stable sort. *)
Definition sorted (messages : list Message) : list Message :=
  sort byTime messages.

(** The [useMemo] callback: [null] on an empty array.  The closure is run
    with the Basic Latin case mappings of [JsString] and the stable sort. *)
Definition analysis (messages : list Message) : completion (option Result.t) :=
  match messages with
  | [] => Return None
  | _ :: _ =>
      body JsString.toLowerCase JsString.toUpperCase messages (sorted messages)
  end.

(** ** The arrays behind the closure

    [messages] is an array the caller owns; [[...messages]] allocates a second
    array and [sort] reorders that one in place.  The arrays of messages live
    in a heap, addressed by position, so that a run can be followed by
    another run on the heap it leaves. *)
Definition heap : Type := list (list Message).

Definition load (h : heap) (a : nat) : option (list Message) := nth_error h a.

Definition alloc (h : heap) (arr : list Message) : nat * heap :=
  (List.length h, h ++ [arr]).

Definition store (h : heap) (a : nat) (arr : list Message) : heap :=
  match nth_error h a with
  | Some _ => firstn a h ++ arr :: skipn (S a) h
  | None => h
  end.

(** [arr.sort(...)], on the array at address [a]. *)
Definition sortInPlace (h : heap) (a : nat) : heap :=
  match load h a with
  | Some arr => store h a (sort byTime arr)
  | None => h
  end.

(** One run of the [useMemo] callback on the array at [messagesAt]. *)
Definition analysisOn (messagesAt : nat) (h : heap)
  : completion (option Result.t) * heap :=
  match load h messagesAt with
  | None => (Throw TypeError, h)
  | Some [] => (Return None, h)
  | Some ((_ :: _) as messages) =>
      let (sortedAt, h1) := alloc h messages in
      let h2 := sortInPlace h1 sortedAt in
      match load h2 sortedAt with
      | Some sortedMessages =>
          (body JsString.toLowerCase JsString.toUpperCase
                messages sortedMessages, h2)
      | None => (Throw TypeError, h2)
      end
  end.

End Analysis.

(* ================================================================== *)
(** * The core as a whole: raw text, parser, analytics engine *)

(** What the page does with an uploaded text (pages/Index.tsx): the array the
    parser hands over becomes the [messages] prop of [ChatAnalysis]. *)
Definition core (content : jsstring) : completion (option Result.t) :=
  match Parser.processWhatsAppFile content with
  | Return parsed => Analysis.analysis (List.map Analysis.ofParsed parsed)
  | Throw e => Throw e
  end.

Unset Implicit Arguments.

(* ================================================================== *)
(** * Inputs used as examples below *)

Module Examples.

Import Analysis.

(** The transcript of Example 1 of the specification. *)
Definition example1 : jsstring :=
  str "1/2/24, 10:00 - Alice: hello" ++ 10%N
  :: str "1/2/24, 10:05 - Bob: hi there!".

Definition alice : jsstring := str "Alice".
Definition bob : jsstring := str "Bob".
Definition carol : jsstring := str "Carol".

(** What the parser hands over for [example1]. *)
Definition example1Messages : list Message :=
  [mkMessage alice (str "hello") (ValidDate 1704189600000);
   mkMessage bob (str "hi there!") (ValidDate 1704189900000)].

(** Three people, one message each, two days apart. *)
Definition threePartyTranscript : jsstring :=
  str "1/2/24, 10:00 - Alice: hello" ++ 10%N
  :: str "1/4/24, 10:00 - Bob: hi" ++ 10%N
  :: str "1/6/24, 10:00 - Carol: hey".
Definition threeParty : list Message :=
  [mkMessage alice (str "hello") (ValidDate 1704189600000);
   mkMessage bob (str "hi") (ValidDate 1704362400000);
   mkMessage carol (str "hey") (ValidDate 1704535200000)].

(** What the parser hands over for "1/1/60, 10:00 - Alice: hello": a message
    dated 1 January 1960. *)
Definition oldTranscript : jsstring := str "1/1/60, 10:00 - Alice: hello".
Definition oldMessages : list Message :=
  [mkMessage alice (str "hello") (ValidDate (-315583200000))].

(** What the parser hands over for "13/2/24, 10:00 - Alice: hello", a date
    written day first: a message without a valid date. *)
Definition dayFirstTranscript : jsstring := str "13/2/24, 10:00 - Alice: hello".
Definition undatedMessages : list Message :=
  [mkMessage alice (str "hello") InvalidDate].

(** One message that says "hate" twice. *)
Definition hateTranscript : jsstring :=
  str "1/2/24, 10:00 - Alice: I hate, hate this".
Definition hateMessages : list Message :=
  [mkMessage alice (str "I hate, hate this") (ValidDate 1704189600000)].

(** A transcript with a single participant. *)
Definition loneTranscript : jsstring := str "1/2/24, 10:00 - Alice: hello".

(** A group of three, a minute apart. *)
Definition groupTranscript : jsstring :=
  str "1/2/24, 10:00 - Alice: a" ++ 10%N
  :: str "1/2/24, 10:01 - Bob: b" ++ 10%N
  :: str "1/2/24, 10:02 - Carol: c".
Definition groupMessages : list Message :=
  [mkMessage alice (str "a") (ValidDate 1704189600000);
   mkMessage bob (str "b") (ValidDate 1704189660000);
   mkMessage carol (str "c") (ValidDate 1704189720000)].

End Examples.

(* ================================================================== *)
(** * The specification's own words, as definitions

    These follow the sentences of the specification, not the code; the
    theorems below compare them with the embedding. *)

Module Spec.

Import Analysis.

(** Example 1, with the compatibility score it announces left open: the
    input parses to two messages, each contact has one message and an
    interest level of 50, and the score is [score]. *)
Definition example1Outcome (score : Z) : Prop :=
  exists parsed r,
    Parser.processWhatsAppFile Examples.example1 = Return parsed
    /\ List.length parsed = 2%nat
    /\ analysis (List.map ofParsed parsed) = Return (Some r)
    /\ Obj.get Examples.alice (Result.messageCounts r) = Some (ofZ 1)
    /\ Obj.get Examples.bob (Result.messageCounts r) = Some (ofZ 1)
    /\ Obj.get Examples.alice (Result.interestLevels r) = Some (ofZ 50)
    /\ Obj.get Examples.bob (Result.interestLevels r) = Some (ofZ 50)
    /\ Result.compatibilityScore r = ofZ score.

(** The number of places at which [keyword] occurs in [s]. *)
Fixpoint occurrences (s keyword : jsstring) : nat :=
  ((if isPrefixOf keyword s then 1 else 0)
   + match s with
     | [] => 0
     | _ :: s' => occurrences s' keyword
     end)%nat.

(** "count case-insensitive substring occurrences across ALL messages", for
    the host's [toLowerCase]. *)
Definition occurrenceCount (toLowerCase : jsstring -> jsstring)
    (messages : list Message) (keyword : jsstring) : nat :=
  list_sum (List.map (fun m => occurrences (toLowerCase (message m)) keyword)
                     messages).

(** The number of messages, from whichever contact, whose text contains
    [keyword] once lower-cased. *)
Definition mentioningCount (toLowerCase : jsstring -> jsstring)
    (messages : list Message) (keyword : jsstring) : nat :=
  count_occ Bool.bool_dec
    (List.map (fun m => includes (toLowerCase (message m)) keyword) messages)
    true.

(** "severity high if count>10, medium if count>5, else low". *)
Definition severityScale (count : nat) (s : Result.severity) : Prop :=
  ((10 < count)%nat /\ s = Result.high)
  \/ ((5 < count <= 10)%nat /\ s = Result.medium)
  \/ ((count <= 5)%nat /\ s = Result.low).

(** "emit one flag entry per keyword with count>0": the entries, in the
    order of the keyword table, for a given way of counting. *)
Definition flagsFor (count : jsstring -> nat) : list Result.RedFlag :=
  flat_map
    (fun entry : jsstring * list jsstring =>
       flat_map
         (fun keyword =>
            if (0 <? count keyword)%nat
            then [Result.mkRedFlag (fst entry)
                    (flagText keyword (count keyword))
                    (severityFor (count keyword))]
            else [])
         (snd entry))
    redFlagKeywords.

(** What a result reports about counts and interest levels: the two
    per-contact counts add up to the total, and the two interest levels add
    up to 100 give or take 1. *)
Definition countsReport (r : Result.t) : Prop :=
  exists c1 c2 i1 i2 : Z,
    Obj.get (key (fst (Result.contacts r))) (Result.messageCounts r)
    = Some (ofZ c1)
    /\ Obj.get (key (snd (Result.contacts r))) (Result.messageCounts r)
       = Some (ofZ c2)
    /\ Result.totalMessages r = ofZ (c1 + c2)
    /\ Obj.get (key (fst (Result.contacts r))) (Result.interestLevels r)
       = Some (ofZ i1)
    /\ Obj.get (key (snd (Result.contacts r))) (Result.interestLevels r)
       = Some (ofZ i2)
    /\ 99 <= i1 + i2 <= 101.

Definition countsClaim (messages : list Message) : Prop :=
  forall r, analysis messages = Return (Some r) -> countsReport r.

(** "A message starts a new conversation if the gap since the immediately
    preceding message (any contact) exceeds 4 hours"; the message at index 0
    is measured against [first]. *)
Definition previousTime (first : number) (sortedMessages : list Message)
    (i : nat) : number :=
  match i with
  | O => first
  | S j =>
      match nth_error sortedMessages j with
      | Some previous => getTime (timestamp previous)
      | None => NaN
      end
  end.

Definition startsConversation (first : number) (sortedMessages : list Message)
    (i : nat) : bool :=
  match nth_error sortedMessages i with
  | Some m =>
      gt (div (sub (getTime (timestamp m))
                   (previousTime first sortedMessages i))
              (ofZ 3600000))
         (ofZ 4)
  | None => false
  end.

Definition sentBy (c : jsstring) (sortedMessages : list Message) (i : nat)
  : bool :=
  match nth_error sortedMessages i with
  | Some m => JsString.eqb (contact m) c
  | None => false
  end.

(** The number of conversations [c] starts. *)
Definition startsBy (first : number) (c : jsstring)
    (sortedMessages : list Message) : nat :=
  List.length
    (List.filter
       (fun i => startsConversation first sortedMessages i
                 && sentBy c sortedMessages i)
       (seq 0 (List.length sortedMessages))).

(** The "synthetic epoch zero". *)
Definition epochZero : number := ofZ 0.

(** The counters hold the number of conversations each of the two contacts
    starts, and the first message of a transcript is always a starter. *)
Definition startersClaim (messages : list Message) : Prop :=
  (forall c,
     c = key (contact1 messages) \/ c = key (contact2 messages) ->
     Obj.get c (conversationStarters messages (sorted messages))
     = Some (ofNat (startsBy epochZero c (sorted messages))))
  /\ (messages <> [] ->
      startsConversation epochZero (sorted messages) 0 = true).

(** Tokens and lines, for stating how a written date is read. *)
Definition pad2 (n : Z) : jsstring := padStart 2 (decimal n).

(** "A/B/YY" *)
Definition dateToken (a b y : Z) : jsstring :=
  decimal a ++ 47%N :: decimal b ++ 47%N :: pad2 y.

(** "H:MM" *)
Definition timeToken (h mi : Z) : jsstring := decimal h ++ 58%N :: pad2 mi.

Definition lineOf (dateText timeText : jsstring) : jsstring :=
  dateText ++ str ", " ++ timeText ++ str " - Alice: hello".

(** The timestamps of the messages a text parses to. *)
Definition timestampsOf (content : jsstring) : list Date :=
  match Parser.processWhatsAppFile content with
  | Return parsed => List.map Parser.timestamp parsed
  | Throw _ => []
  end.

(** A two digit year: below 50 in the 2000s, else in the 1900s. *)
Definition fullYear (y : Z) : Z := if y <? 50 then 2000 + y else 1900 + y.

(** The date object of a local civil time; [month] counts from 1. *)
Definition civilTime (year month day hour minute second : Z) : Date :=
  ValidDate (MakeDate (MakeDay year (month - 1) day)
                      (MakeTime hour minute second 0)).

(** "Day-month-year ordering as written": in "A/B/YY" the day is A and the
    month is B. *)
Definition dayFirstClaim (a b y h mi : Z) : Prop :=
  timestampsOf (lineOf (dateToken a b y) (timeToken h mi))
  = [civilTime (fullYear y) b a h mi 0].

End Spec.

(* ================================================================== *)
(** * Auxiliary definitions for the proofs *)

Import Analysis.

(** A reply, within 24 hours, by someone who is neither of the two
    identified contacts: [current] follows [previous] in the sorted
    sequence. *)
Definition strangerReply (messages : list Message)
    (previous current : Message) : Prop :=
  In (previous, current) (JsArray.adjacent (sorted messages))
  /\ contact current <> contact previous
  /\ lt (elapsed previous current (1000 * 60)) (ofZ 1440) = true
  /\ contact current <> key (contact1 messages)
  /\ contact current <> key (contact2 messages).

(** The integers from [lo] to [hi]. *)
Definition range (lo hi : Z) : list Z :=
  List.map (fun i => lo + Z.of_nat i) (seq 0 (Z.to_nat (hi - lo + 1))).

(** What one line contributes to the parsed messages. *)
Definition parsedOf (line : jsstring) : list Parser.ParsedMessage :=
  match Parser.matchLine line with
  | Some (d, t, n, m) =>
      [Parser.mkParsed d t (trim n) (trim m) (newDate (d ++ 32%N :: t))]
  | None => []
  end.

(** What one keyword contributes to the red flags. *)
Definition entryFor (toLowerCase : jsstring -> jsstring)
    (messages : list Message) (category keyword : jsstring)
  : list Result.RedFlag :=
  if (0 <? keywordCount toLowerCase messages keyword)%nat
  then [Result.mkRedFlag category
          (flagText keyword (keywordCount toLowerCase messages keyword))
          (severityFor (keywordCount toLowerCase messages keyword))]
  else [].

(** A share of [a] out of [t], as a percentage rounded half up. *)
Definition percent (a t : Z) : Z := (200 * a + t) / (2 * t).

(** The sizes of the two per-contact subsequences and of the sequence. *)
Definition n1 (messages : list Message) : Z :=
  Z.of_nat (List.length (contact1Messages messages)).
Definition n2 (messages : list Message) : Z :=
  Z.of_nat (List.length (contact2Messages messages)).
Definition total (messages : list Message) : Z :=
  Z.of_nat (List.length messages).

(** The number of messages sent under the name [c]. *)
Definition sentCount (c : jsstring) (l : list Message) : Z :=
  Z.of_nat (List.length (List.filter (fun m => JsString.eqb (contact m) c) l)).

(** The gap test of the [forEach], on the time of the previous message. *)
Definition gapOver4h (prev : number) (m : Message) : bool :=
  gt (div (sub (getTime (timestamp m)) prev) (ofZ (1000 * 60 * 60))) (ofZ 4).

(** The conversations [c] starts, counted along the list. *)
Fixpoint startsRec (prev : number) (c : jsstring) (l : list Message) : nat :=
  match l with
  | [] => 0
  | m :: rest =>
      ((if gapOver4h prev m && JsString.eqb (contact m) c then 1 else 0)
       + startsRec (getTime (timestamp m)) c rest)%nat
  end.

(** The dictionary of response times never grows beyond its two keys. *)
Definition onlyTwoKeys (k1 k2 : jsstring) (rt : Obj.obj (list number)) : Prop :=
  forall k, k <> k1 -> k <> k2 -> Obj.get k rt = None.

(** A step of the response time loop that finds no array to push onto. *)
Definition throwing (k1 k2 : jsstring) (pc : Message * Message) : Prop :=
  contact (snd pc) <> contact (fst pc)
  /\ lt (elapsed (fst pc) (snd pc) (1000 * 60)) (ofZ 1440) = true
  /\ contact (snd pc) <> k1 /\ contact (snd pc) <> k2.

(** ** How the host reads a written date

    The three numbers of the date and the two or three of the time, as
    [new Date] reads them in the string [date + " " + time]. *)

(** The number a run of decimal digits writes. *)
Definition numeral (s : jsstring) : Z :=
  fold_left (fun acc c => acc * 10 + Z.of_N (c - 48)) s 0.

(** A year below 50 is in the 2000s, a year in 50..99 in the 1900s. *)
Definition century (y : Z) : Z :=
  if y <? 50 then 2000 + y else if y <? 100 then 1900 + y else y.

(** The civil date (year, month, day) read in three numbers: month, day and
    year when the first can be a day of the month, year, month and day when
    it cannot; no date when the month is not in 1..12 or the day not in
    1..31. *)
Definition dateRead (a b y : Z) : option (Z * Z * Z) :=
  let '(year, month, day) :=
    if (1 <=? a) && (a <=? 31) then (y, a, b) else (a, b, y) in
  if (1 <=? month) && (month <=? 12) && (1 <=? day) && (day <=? 31)
  then Some (century year, month, day)
  else None.

(** The am/pm mark after the time: none, one the host does not read, "am"
    or "pm". *)
Inductive meridiem : Type :=
| NoMark
| UnreadMark
| AM
| PM.

(** The mark written by [mer], which is empty or ends with "am" or "pm" in
    either case: it is read when at least one unit of white space comes
    before it and none is a separator U+2028 or U+2029. *)
Definition markOf (mer : jsstring) : meridiem :=
  match rev mer with
  | _ :: x :: gap =>
      if negb (Nat.eqb (List.length gap) 0)
         && forallb (fun c => negb ((c =? 8232) || (c =? 8233))%N) gap
      then if ((x =? 65) || (x =? 97))%N then AM else PM
      else UnreadMark
  | _ => NoMark
  end.

(** The hours a mark adds. *)
Definition offsetOf (mark : meridiem) : option Z :=
  match mark with
  | AM => Some 0
  | PM => Some 12
  | _ => None
  end.

(** A word the parser reads as a mark. *)
Definition isMarkWord (w : jsstring) : bool :=
  JsString.eqb w (str "am") || JsString.eqb w (str "pm").

(** The tokens of what follows the numbers of the time, for each reading of
    the mark: nothing; a word right after the last number; white space and
    then "am" or "pm"; white space and then another word. *)
Inductive markTokens : list token -> meridiem -> Prop :=
| NoMarkTokens : markTokens [] NoMark
| GluedWord w more : markTokens (TWord w :: more) UnreadMark
| ReadAM j : markTokens (repeat TWhiteSpace (S j) ++ [TWord (str "am")]) AM
| ReadPM j : markTokens (repeat TWhiteSpace (S j) ++ [TWord (str "pm")]) PM
| StrangeWord j w more :
    isMarkWord w = false ->
    markTokens (repeat TWhiteSpace (S j) ++ TWord w :: more) UnreadMark.

(** The seconds written by [sec], which is empty or ":SS". *)
Definition secondsOf (sec : jsstring) : Z := numeral (tl sec).

(** The time of day (hour, minute, second) read in the numbers of the time:
    on the 24 hour clock without a mark (24:00:00 included), on the 12 hour
    clock with one (12 standing for 0). *)
Definition timeRead (h mi s : Z) (mark : meridiem) : option (Z * Z * Z) :=
  match mark with
  | NoMark =>
      if (h <=? 23) && (mi <=? 59) && (s <=? 59)
         || (h =? 24) && (mi =? 0) && (s =? 0)
      then Some (h, mi, s) else None
  | UnreadMark => None
  | AM =>
      if (h <=? 12) && (mi <=? 59) && (s <=? 59)
      then Some (h mod 12, mi, s) else None
  | PM =>
      if (h <=? 12) && (mi <=? 59) && (s <=? 59)
      then Some (h mod 12 + 12, mi, s) else None
  end.

(** The date object for the numbers of a written date and time. *)
Definition stampOf (a b y h mi s : Z) (mark : meridiem) : Date :=
  match dateRead a b y, timeRead h mi s mark with
  | Some (year, month, day), Some (hour, minute, second) =>
      Spec.civilTime year month day hour minute second
  | _, _ => InvalidDate
  end.

(** ** The array the host's sort returns

    A reply, within 24 hours, by someone who is neither of the two
    identified contacts, among the neighbours of [sortedMessages]. *)
Definition strangerReplyIn (messages sortedMessages : list Message)
    (previous current : Message) : Prop :=
  In (previous, current) (JsArray.adjacent sortedMessages)
  /\ contact current <> contact previous
  /\ lt (elapsed previous current (1000 * 60)) (ofZ 1440) = true
  /\ contact current <> key (contact1 messages)
  /\ contact current <> key (contact2 messages).

From Stdlib Require Import Permutation Sorted.

(* ================================================================== *)
(** * The rest of the closure and of the page (ChatAnalysis.tsx) *)

(** What the "Messages per day" card displays:
    [Math.round(totalMessages / conversationDays)]. *)
Definition messagesPerDay (r : Result.t) : number :=
  Math_round (div (Result.totalMessages r) (Result.conversationDays r)).

(** ** Word frequencies ([getTopWords])

    [wordCount] is a plain object, so a word can meet a member that every
    object inherits from [Object.prototype]: reading [wordCount["constructor"]]
    gives a function, which [|| 0] keeps and [+ 1] turns into a string.  The
    values of the dictionary are therefore numbers or strings. *)

Module TopWords.

Import Obj JsArray.

Definition stopWords : list jsstring :=
  List.map str
    ["the"; "and"; "for"; "are"; "but"; "not"; "you"; "all"; "can"; "had";
     "her"; "was"; "one"; "our"; "out"; "day"; "get"; "has"; "him"; "his";
     "how"; "its"; "may"; "new"; "now"; "old"; "see"; "two"; "who"; "boy";
     "did"; "man"; "way"; "use"]%string.

(** [word.length > 2 && !stopWords.includes(word)] *)
Definition keeps (word : jsstring) : bool :=
  gt (Number.length word) (ofZ 2)
  && negb (existsb (JsString.eqb word) stopWords).

(** [contactMessages.flatMap(m => m.message.toLowerCase().split(/\s+/))
    .filter(...)], for the host's [toLowerCase]. *)
Definition words (toLowerCase : jsstring -> jsstring)
    (contactMessages : list Message) : list jsstring :=
  List.filter keeps
    (flat_map (fun m => splitWs (toLowerCase (message m))) contactMessages).

Inductive propValue : Type :=
| Num (n : number)
| Str (s : jsstring).

(** The functions every object inherits, by name. *)
Definition inheritedFunctions : list jsstring :=
  List.map str
    ["toString"; "toLocaleString"; "valueOf"; "hasOwnProperty";
     "isPrototypeOf"; "propertyIsEnumerable"; "__defineGetter__";
     "__defineSetter__"; "__lookupGetter__"; "__lookupSetter__"]%string.

(** What [+ 1] makes of the member of [Object.prototype] called [k], before
    the "1": the source text of a native function, or that of the prototype
    object itself for [__proto__]. *)
Definition inheritedText (k : jsstring) : option jsstring :=
  if JsString.eqb k (str "constructor")
  then Some (str "function Object() { [native code] }")
  else if JsString.eqb k (str "__proto__")
  then Some (str "[object Object]")
  else if existsb (JsString.eqb k) inheritedFunctions
  then Some (str "function " ++ k ++ str "() { [native code] }")
  else None.

(** [(wordCount[word] || 0) + 1] *)
Definition plusOne (o : obj propValue) (word : jsstring) : propValue :=
  match get word o with
  | Some (Num n) => Num (add (if Number.truthy n then n else ofZ 0) (ofZ 1))
  | Some (Str s) =>
      match s with
      | [] => Num (ofZ 1)
      | _ :: _ => Str (s ++ str "1")
      end
  | None =>
      match inheritedText word with
      | Some text => Str (text ++ str "1")
      | None => Num (ofZ 1)
      end
  end.

(** [wordCount[word] = (wordCount[word] || 0) + 1]: the assignment creates
    or updates an own property, except under the name [__proto__], whose
    inherited setter drops a value that is not an object. *)
Definition countWord (o : obj propValue) (word : jsstring) : obj propValue :=
  if JsString.eqb word (str "__proto__") then o
  else set word (plusOne o word) o.

(** An array index: the canonical decimal form of an integer below
    2^32 - 1.  [Object.entries] lists such keys first, in ascending order,
    and the other keys after them in order of creation. *)
Definition indexOfKey (k : jsstring) : option Z :=
  match k with
  | [] => None
  | c :: rest =>
      if forallb isDigit k
         && (negb (N.eqb c 48) || Nat.eqb (List.length rest) 0)
         && (List.length k <=? 10)%nat
      then let n := fst (readNumber 0 k) in
           if n <? 4294967295 then Some n else None
      else None
  end.

Definition isIndexKey (k : jsstring) : bool :=
  match indexOfKey k with Some _ => true | None => false end.

Fixpoint insertIndex (V : Type) (e : jsstring * V) (l : list (jsstring * V))
  : list (jsstring * V) :=
  match l with
  | [] => [e]
  | e' :: l' =>
      match indexOfKey (fst e), indexOfKey (fst e') with
      | Some i, Some i' =>
          if i' <? i then e' :: insertIndex V e l' else e :: l
      | _, _ => e :: l
      end
  end.

Arguments insertIndex {V} e l.

(** [Object.entries(o)] *)
Definition entries (V : Type) (o : obj V) : list (jsstring * V) :=
  fold_right insertIndex []
             (List.filter (fun e => isIndexKey (fst e)) o)
  ++ List.filter (fun e => negb (isIndexKey (fst e))) o.

Arguments entries {V} o.

(** ToNumber, on the values the dictionary can hold: none of its strings
    reads as a number. *)
Definition toNumber (v : propValue) : number :=
  match v with Num n => n | Str _ => NaN end.

(** [Object.entries(wordCount).sort(([,a], [,b]) => b - a).slice(0, 5)
    .map(([word, count]) => ({ word, count }))] *)
Definition getTopWords (toLowerCase : jsstring -> jsstring)
    (contactMessages : list Message) : list (jsstring * propValue) :=
  let wordCount :=
    fold_left countWord (words toLowerCase contactMessages) [] in
  firstn 5
    (sort (fun a b => sub (toNumber (snd b)) (toNumber (snd a)))
          (entries wordCount)).

End TopWords.

(** ** Consistency score

    [Math.sqrt] has no exact value among the rationals that stand for the
    finite numbers here, so the host function is a parameter of these
    definitions; the properties below state what they ask of it. *)

(** [Math.pow(x, 2)] *)
Definition Math_pow2 (x : number) : number := mul x x.

Section Consistency.

Variable Math_sqrt : number -> number.
Variable messages : list Message.

(** The [Map] from date string to count, in insertion order:
    [dailyMessageCounts.set(dateKey, (dailyMessageCounts.get(dateKey) || 0) + 1)]. *)
Definition dailyMessageCounts : Obj.obj number :=
  fold_left (fun map m => countOne map (toDateString (timestamp m)))
            messages [].

(** [Array.from(dailyMessageCounts.values())] *)
Definition dailyCounts : list number := List.map snd dailyMessageCounts.

Definition avgDaily : number := div (sum dailyCounts) (Number.length dailyCounts).

Definition variance : number :=
  div (fold_left (fun acc count => add acc (Math_pow2 (sub count avgDaily)))
                 dailyCounts (ofZ 0))
      (Number.length dailyCounts).

Definition consistencyScore : number :=
  Math_max
    [ofZ 0;
     Math_round
       (sub (ofZ 100) (mul (div (Math_sqrt variance) avgDaily) (ofZ 50)))].

End Consistency.
(* ================================================================== *)
(** * Auxiliary definitions for the properties of the remaining code *)

(** ** What a pattern denotes

    [denotes r xs rest c c'] : the pattern [r] can consume [xs] when [rest]
    follows, turning the captures [c] into [c'].  This is the declarative
    reading of the constructs of [Regex.regex]; the backtracking matcher
    [Regex.run] is compared with it below. *)

(** The upper bound of a repetition allows [n] units. *)
Definition fits (hi : option nat) (n : nat) : Prop :=
  match hi with Some h => (n <= h)%nat | None => True end.

Inductive denotes
  : Regex.regex -> jsstring -> jsstring -> Regex.captures -> Regex.captures
    -> Prop :=
| DEmpty rest c : denotes Regex.Empty [] rest c c
| DClass p lo hi xs rest c :
    forallb p xs = true -> (lo <= List.length xs)%nat ->
    fits hi (List.length xs) ->
    denotes (Regex.Class p lo hi) xs rest c c
| DSeq a b xs ys rest c c1 c2 :
    denotes a xs (ys ++ rest) c c1 -> denotes b ys rest c1 c2 ->
    denotes (Regex.Seq a b) (xs ++ ys) rest c c2
| DOptSome a xs rest c c' :
    denotes a xs rest c c' -> denotes (Regex.Opt a) xs rest c c'
| DOptNone a rest c : denotes (Regex.Opt a) [] rest c c
| DGroup i a xs rest c c' :
    denotes a xs rest c c' ->
    denotes (Regex.Group i a) xs rest c ((i, xs) :: c')
| DEnd c : denotes Regex.EndAnchor [] [] c c.

(** ** The first alternative of the matcher *)

(** [rest] is empty or starts with a unit that [p] refuses. *)
Definition halts (p : char16 -> bool) (rest : jsstring) : Prop :=
  rest = [] \/ exists c rest', rest = c :: rest' /\ p c = false.

(** A repetition that has taken [n] units cannot take one more: its upper
    bound is reached, or [rest] halts it. *)
Definition stopsAt (p : char16 -> bool) (hi : option nat) (n : nat)
    (rest : jsstring) : Prop :=
  hi = Some n \/ halts p rest.

(** [takes r xs rest c c'] : [r] consumes [xs] in front of [rest] and this is
    the first alternative the backtracking matcher tries: every repetition
    takes all it can, and an optional group is skipped only where it cannot
    match at all. *)
Inductive takes
  : Regex.regex -> jsstring -> jsstring -> Regex.captures -> Regex.captures
    -> Prop :=
| TEmpty rest c : takes Regex.Empty [] rest c c
| TClass p lo hi xs rest c :
    forallb p xs = true -> (lo <= List.length xs)%nat ->
    fits hi (List.length xs) -> stopsAt p hi (List.length xs) rest ->
    takes (Regex.Class p lo hi) xs rest c c
| TSeq a b xs ys rest c c1 c2 :
    takes a xs (ys ++ rest) c c1 -> takes b ys rest c1 c2 ->
    takes (Regex.Seq a b) (xs ++ ys) rest c c2
| TOptSome a xs rest c c' :
    takes a xs rest c c' -> takes (Regex.Opt a) xs rest c c'
| TOptNone a rest c :
    (forall k, Regex.run a rest c k = None) ->
    takes (Regex.Opt a) [] rest c c
| TGroup i a xs rest c c' :
    takes a xs rest c c' ->
    takes (Regex.Group i a) xs rest c ((i, xs) :: c')
| TEnd c : takes Regex.EndAnchor [] [] c c.

(** ** The shape of a transcript line *)

(** Nothing, or the single unit [c]. *)
Definition optional (c : char16) (s : jsstring) : Prop := s = [] \/ s = [c].

(** White space only. *)
Definition blank (s : jsstring) : Prop := forallb isWhiteSpace s = true.

(** Between [lo] and [hi] decimal digits. *)
Definition digitsIn (lo hi : nat) (s : jsstring) : Prop :=
  forallb isDigit s = true /\ (lo <= List.length s <= hi)%nat.

(** "D/M/YY": one or two digits, twice, then two to four digits. *)
Definition dateShaped (d : jsstring) : Prop :=
  exists a b y,
    d = a ++ 47%N :: b ++ 47%N :: y
    /\ digitsIn 1 2 a /\ digitsIn 1 2 b /\ digitsIn 2 4 y.

(** Nothing, or ":SS". *)
Definition secondsShaped (s : jsstring) : Prop :=
  s = [] \/ exists ss, s = 58%N :: ss /\ digitsIn 2 2 ss.

(** Nothing, or "am" / "pm" in either case after any white space. *)
Definition meridiemShaped (s : jsstring) : Prop :=
  s = [] \/ exists ws x y,
    s = ws ++ [x; y] /\ blank ws
    /\ Parser.isAaPp x = true /\ Parser.isMm y = true.

(** "H:MM", with optional seconds and an optional am/pm mark. *)
Definition timeShaped (t : jsstring) : Prop :=
  exists h mi sec mer,
    t = h ++ 58%N :: mi ++ sec ++ mer
    /\ digitsIn 1 2 h /\ digitsIn 2 2 mi
    /\ secondsShaped sec /\ meridiemShaped mer.

(** A line laid out as the pattern reads it, with its four pieces. *)
Definition lineShaped (line d t n m : jsstring) : Prop :=
  dateShaped d /\ timeShaped t
  /\ n <> [] /\ forallb Parser.notColon n = true
  /\ m <> [] /\ forallb Parser.dot m = true
  /\ exists opening comma w1 closing w2 dash w3 w4,
       optional 91%N opening /\ optional 44%N comma /\ blank w1
       /\ optional 93%N closing /\ blank w2 /\ optional 45%N dash
       /\ blank w3 /\ blank w4
       /\ line = opening ++ d ++ comma ++ w1 ++ t ++ closing ++ w2 ++ dash
                 ++ w3 ++ n ++ 58%N :: w4 ++ m.

(** The two layouts of an exported line: "D/M/YY, H:MM - Name: text" and
    "[D/M/YY, H:MM:SS] Name: text". *)
Definition dashLine (d t n m : jsstring) : jsstring :=
  d ++ str ", " ++ t ++ str " - " ++ n ++ str ": " ++ m.
Definition bracketLine (d t n m : jsstring) : jsstring :=
  91%N :: d ++ str ", " ++ t ++ str "] " ++ n ++ str ": " ++ m.

(** A contact name, or a message text, as the parser stores it: not empty,
    without white space at either end, and made of units [allowed] accepts. *)
Definition storable (allowed : char16 -> bool) (s : jsstring) : Prop :=
  s <> [] /\ trim s = s /\ forallb allowed s = true.

(** ** Counting along the message list *)

Import Analysis.

(** The first message of [l] that was not sent by [c]. *)
Definition firstOther (c : jsstring) (l : list Message) : option Message :=
  find (fun m => negb (JsString.eqb (contact m) c)) l.

(** The number of messages for which the accessor [f] answers [i]. *)
Definition bucketCount (f : Message -> number) (messages : list Message)
    (i : Z) : Z :=
  Z.of_nat
    (List.length
       (List.filter (fun m => Number.eq (f m) (ofZ i)) messages)).

Definition hourCount (messages : list Message) (hour : Z) : Z :=
  bucketCount (fun m => getHours (timestamp m)) messages hour.
Definition dayCount (messages : list Message) (day : Z) : Z :=
  bucketCount (fun m => getDay (timestamp m)) messages day.

(** [zs] with its entry of index [i] raised by one. *)
Fixpoint incrAt (i : nat) (zs : list Z) : list Z :=
  match zs, i with
  | [], _ => []
  | z :: zs', O => (z + 1) :: zs'
  | z :: zs', S i' => z :: incrAt i' zs'
  end.

(** The words of the messages of [cm] that contain an entry of [lexicon]. *)
Definition lexiconHits (toLowerCase : jsstring -> jsstring)
    (lexicon : list jsstring) (cm : list Message) : Z :=
  fold_right
    (fun m acc =>
       Z.of_nat
         (List.length
            (List.filter
               (fun word => existsb (fun w => includes word w) lexicon)
               (splitWs (toLowerCase (message m))))) + acc)
    0 cm.

(** The tests of the night owl and early bird loop, on a message. *)
Definition isLateNight (m : Message) : bool :=
  ge (getHours (timestamp m)) (ofZ 22) || lt (getHours (timestamp m)) (ofZ 6).
Definition isEarlyMorning (m : Message) : bool :=
  ge (getHours (timestamp m)) (ofZ 6) && lt (getHours (timestamp m)) (ofZ 10).

(** How many times [e] occurs in [l]. *)
Definition timesIn (e : jsstring) (l : list jsstring) : Z :=
  Z.of_nat (List.length (List.filter (JsString.eqb e) l)).

(** The emoji of the messages of [cm], in reading order. *)
Definition emojisOf (cm : list Message) : list jsstring :=
  flat_map (fun m => emojiMatches (message m)) cm.

(** No entry is followed by one with a larger count. *)
Definition descending (A : Type) (count : A -> number) (l : list A) : Prop :=
  StronglySorted (fun a b => lt (count a) (count b) = false) l.

(** A tally: distinct keys, each with a positive whole count. *)
Definition isTally (o : Obj.obj number) : Prop :=
  NoDup (List.map fst o)
  /\ Forall (fun kv => exists a, snd kv = ofZ a /\ 1 <= a) o.

(** The rank that the comparator [b - a] on counts sorts by. *)
Definition countRank (n : number) : Z :=
  match n with Fin q => - Qfloor q | _ => 0 end.

(** The time value of a message, 0 for an invalid date. *)
Definition timeOf (m : Message) : Z :=
  match timestamp m with ValidDate t => t | InvalidDate => 0 end.

(** [d] milliseconds, in minutes, as the response time loop computes them. *)
Definition minutes (d : Z) : number := div (ofZ d) (ofZ (1000 * 60)).

(** An array of response times: gaps of at least 0 and less than 24 hours. *)
Definition withinADay (arr : list number) : Prop :=
  exists ds,
    arr = List.map minutes ds /\ Forall (fun d => 0 <= d < 86400000) ds.

Definition allWithinADay (rt : Obj.obj (list number)) : Prop :=
  forall k arr, In (k, arr) rt -> withinADay arr.

(** The test of the double text loop on a pair of neighbours, and the number
    of double texts of [c] along [l]. *)
Definition isDoubleText (pc : Message * Message) : bool :=
  JsString.eqb (contact (snd pc)) (contact (fst pc))
  && lt (elapsed (fst pc) (snd pc) (1000 * 60)) (ofZ 5).

Definition doubleTexts (c : jsstring) (l : list Message) : Z :=
  Z.of_nat
    (List.length
       (List.filter
          (fun pc => isDoubleText pc && JsString.eqb (contact (snd pc)) c)
          (JsArray.adjacent l))).

(** A count of the tally read as a count of the word dictionary. *)
Definition asNum (kv : jsstring * number) : jsstring * TopWords.propValue :=
  (fst kv, TopWords.Num (snd kv)).

(** The whole part of a number, 0 where there is none. *)
Definition wholeOf (n : number) : Z :=
  match n with Fin q => Qfloor q | _ => 0 end.

(** The counts of a dictionary, added up. *)
Definition tallySum (o : Obj.obj number) : Z :=
  fold_right (fun kv acc => wholeOf (snd kv) + acc) 0 o.

(** A finite number that is not negative. *)
Definition nonNegative (x : number) : Prop :=
  exists q, x = Fin q /\ (0 <= q)%Q.

(** What the consistency score asks of [Math.sqrt]: the root of 0 is 0 and
    the root of a finite non negative number is finite and not negative. *)
Definition rootLike (Math_sqrt : number -> number) : Prop :=
  Math_sqrt (ofZ 0) = ofZ 0
  /\ forall x, nonNegative x -> nonNegative (Math_sqrt x).

(** A function that meets [rootLike]: the integer square root of the whole
    part. *)
Definition wholeRoot (x : number) : number :=
  match x with
  | Fin q => if Qle_bool 0 q then ofZ (Z.sqrt (Qfloor q)) else NaN
  | PInf => PInf
  | _ => NaN
  end.

(** The points one message adds to the energy score: 2 for each "!", 3 for
    being all capitals, 1 for each emoji. *)
Definition energyPoints (toUpperCase : jsstring -> jsstring) (m : Message)
  : Z :=
  2 * Z.of_nat (List.length (List.filter (N.eqb 33) (message m)))
  + 3 * (if allCaps toUpperCase m then 1 else 0)
  + Z.of_nat (List.length (emojiMatches (message m))).

Definition energyTotal (toUpperCase : jsstring -> jsstring)
    (cm : list Message) : Z :=
  fold_right (fun m acc => energyPoints toUpperCase m + acc) 0 cm.
(* ================================================================== *)
(** * Basic facts about the embedding *)

Section StringFacts.

Lemma eqb_eq (a b : jsstring) : JsString.eqb a b = true <-> a = b.
Proof.
  revert b; induction a as [|x a IH]; intros [|y b]; simpl; split;
    try discriminate; try reflexivity.
  - intros H. apply andb_true_iff in H as [H1 H2].
    apply N.eqb_eq in H1. apply IH in H2. congruence.
  - intros H. injection H as -> ->.
    rewrite N.eqb_refl. simpl. now apply IH.
Qed.

Lemma eqb_refl (a : jsstring) : JsString.eqb a a = true.
Proof. now apply eqb_eq. Qed.

Lemma eqb_neq (a b : jsstring) : JsString.eqb a b = false <-> a <> b.
Proof.
  split.
  - intros H E. apply eqb_eq in E. congruence.
  - intros H. destruct (JsString.eqb a b) eqn:E; [|reflexivity].
    apply eqb_eq in E. contradiction.
Qed.

Lemma eqb_sym (a b : jsstring) : JsString.eqb a b = JsString.eqb b a.
Proof.
  destruct (JsString.eqb a b) eqn:E.
  - apply eqb_eq in E. subst. now rewrite eqb_refl.
  - apply eqb_neq in E. symmetry. apply eqb_neq. congruence.
Qed.

Lemma trimStart_keeps (s : jsstring) (c : char16) :
  isWhiteSpace c = false -> trimStart (s ++ [c]) <> [].
Proof.
  intros Hc. induction s as [|x s IH]; simpl.
  - rewrite Hc. discriminate.
  - destruct (isWhiteSpace x); [exact IH | discriminate].
Qed.

Lemma trim_nonempty (c : char16) (s : jsstring) :
  isWhiteSpace c = false -> trim (c :: s) <> [].
Proof.
  intros Hc. unfold trim, trimEnd. simpl trimStart. rewrite Hc.
  simpl rev. intros E.
  apply (f_equal (@rev _)) in E. rewrite rev_involutive in E. simpl in E.
  destruct (rev s) as [|y t] eqn:Er; simpl in E.
  - rewrite Hc in E. discriminate.
  - change ((y :: t) ++ [c]) with (y :: (t ++ [c])) in E. simpl in E.
    destruct (isWhiteSpace y); [|discriminate].
    revert E. now apply trimStart_keeps.
Qed.

End StringFacts.

Section ObjFacts.

Import Obj.
Variable V : Type.
Implicit Types (o : obj V) (k : jsstring) (v : V).

Lemma get_update_same k v o :
  get k o <> None -> get k (update k v o) = Some v.
Proof.
  induction o as [|[k' v'] o IH]; simpl; [congruence|].
  destruct (JsString.eqb k k') eqn:E; simpl; rewrite E; auto.
Qed.

Lemma get_update_other k k' v o :
  k' <> k -> get k' (update k v o) = get k' o.
Proof.
  intros Hne. induction o as [|[k0 v0] o IH]; simpl; [reflexivity|].
  destruct (JsString.eqb k k0) eqn:E; simpl.
  - apply eqb_eq in E. subst k0.
    apply eqb_neq in Hne. now rewrite Hne.
  - now rewrite IH.
Qed.

Lemma get_app k o o' :
  get k (o ++ o') = match get k o with Some v => Some v | None => get k o' end.
Proof.
  induction o as [|[k0 v0] o IH]; simpl; [reflexivity|].
  destruct (JsString.eqb k k0); auto.
Qed.

Lemma get_set_same k v o : get k (set k v o) = Some v.
Proof.
  unfold set. destruct (get k o) eqn:E.
  - apply get_update_same. congruence.
  - rewrite get_app, E. simpl. now rewrite eqb_refl.
Qed.

Lemma get_set_other k k' v o : k' <> k -> get k' (set k v o) = get k' o.
Proof.
  intros Hne. unfold set. destruct (get k o) eqn:E.
  - now apply get_update_other.
  - rewrite get_app. destruct (get k' o); [reflexivity|].
    simpl. apply eqb_neq in Hne. now rewrite Hne.
Qed.

Lemma get_literal2_fst k1 k2 (v1 v2 : V) :
  k1 <> k2 -> get k1 (literal2 k1 v1 k2 v2) = Some v1.
Proof.
  intros H. unfold literal2. rewrite get_set_other by exact H.
  apply get_set_same.
Qed.

Lemma get_literal2_snd k1 k2 (v1 v2 : V) :
  get k2 (literal2 k1 v1 k2 v2) = Some v2.
Proof. apply get_set_same. Qed.

Lemma get_literal2_other k k1 k2 (v1 v2 : V) :
  k <> k1 -> k <> k2 -> get k (literal2 k1 v1 k2 v2) = None.
Proof.
  intros H1 H2. unfold literal2.
  rewrite !get_set_other by assumption. reflexivity.
Qed.

End ObjFacts.

Section NumberFacts.

Lemma Qred_inject_Z (z : Z) : Qred (inject_Z z) = inject_Z z.
Proof.
  unfold Qred, inject_Z.
  pose proof (Z.ggcd_gcd z 1) as Hg.
  pose proof (Z.ggcd_correct_divisors z 1) as Hd.
  destruct (Z.ggcd z 1) as [g [a b]]. simpl in *.
  rewrite Z.gcd_1_r in Hg. subst g. destruct Hd as [Ha Hb].
  rewrite Z.mul_1_l in Ha, Hb. now subst.
Qed.

Lemma Qred_integer (q : Q) (z : Z) : q == inject_Z z -> Qred q = inject_Z z.
Proof.
  intros H. rewrite <- Qred_inject_Z. now apply Qred_complete.
Qed.

Lemma add_ofZ (a b : Z) : add (ofZ a) (ofZ b) = ofZ (a + b).
Proof.
  unfold add, ofZ. f_equal. apply Qred_integer.
  rewrite <- inject_Z_plus. reflexivity.
Qed.

Lemma sub_ofZ (a b : Z) : sub (ofZ a) (ofZ b) = ofZ (a - b).
Proof.
  unfold sub, ofZ. f_equal. apply Qred_integer.
  unfold Qminus. rewrite <- inject_Z_opp, <- inject_Z_plus. reflexivity.
Qed.

Lemma mul_ofZ (a b : Z) : mul (ofZ a) (ofZ b) = ofZ (a * b).
Proof.
  unfold mul, ofZ. f_equal. apply Qred_integer.
  rewrite <- inject_Z_mult. reflexivity.
Qed.

Lemma abs_ofZ (a : Z) : Math_abs (ofZ a) = ofZ (Z.abs a).
Proof.
  unfold Math_abs, ofZ. f_equal. apply Qred_integer. reflexivity.
Qed.

Lemma lt_ofZ (a b : Z) : lt (ofZ a) (ofZ b) = (a <? b).
Proof.
  unfold lt, ofZ, Qltb, Qle_bool, inject_Z. simpl.
  rewrite !Z.mul_1_r. symmetry. apply Z.ltb_antisym.
Qed.

Lemma gt_ofZ (a b : Z) : gt (ofZ a) (ofZ b) = (b <? a).
Proof. apply lt_ofZ. Qed.

Lemma eq_ofZ (a b : Z) : Number.eq (ofZ a) (ofZ b) = (a =? b).
Proof.
  unfold Number.eq, ofZ, Qeq_bool, inject_Z. simpl.
  now rewrite !Z.mul_1_r.
Qed.

Lemma min_ofZ (a b : Z) : Math_min (ofZ a) (ofZ b) = ofZ (Z.min a b).
Proof.
  unfold Math_min. change (Fin (inject_Z a)) with (ofZ a).
  change (Fin (inject_Z b)) with (ofZ b).
  unfold ofZ at 1 2. rewrite lt_ofZ.
  destruct (b <? a) eqn:E.
  - apply Z.ltb_lt in E. now rewrite Z.min_r by lia.
  - apply Z.ltb_ge in E. now rewrite Z.min_l by lia.
Qed.

Lemma ofZ_inj (a b : Z) : ofZ a = ofZ b -> a = b.
Proof. unfold ofZ, inject_Z. congruence. Qed.

(** Rounding a quotient of integers, scaled by an integer, in integer
    arithmetic. *)
Lemma round_scaled (a t c : Z) :
  0 < t ->
  Math_round (mul (div (ofZ a) (ofZ t)) (ofZ c))
  = ofZ ((2 * c * a + t) / (2 * t)).
Proof.
  intros Ht. unfold div, ofZ at 1 2.
  assert (Hz : Qzero (inject_Z t) = false).
  { unfold Qzero, Qeq_bool, inject_Z. simpl. apply Z.eqb_neq. lia. }
  rewrite Hz. unfold mul, ofZ at 1, Math_round. f_equal.
  assert (E : Qred (Qred (inject_Z a / inject_Z t) * inject_Z c) + (1 # 2)
              == (2 * c * a + t) # Z.to_pos (2 * t)).
  { rewrite Qred_correct, Qred_correct.
    destruct t as [|p|p]; try lia.
    change (Z.to_pos (2 * Z.pos p)) with (2 * p)%positive.
    unfold Qeq, Qdiv, Qmult, Qplus, Qinv, inject_Z. cbn [Qnum Qden].
    rewrite ?Pos2Z.inj_mul. lia. }
  rewrite (Qfloor_comp _ _ E). unfold Qfloor.
  rewrite Z2Pos.id by lia. reflexivity.
Qed.

Lemma round_quotient (a t : Z) :
  0 < t -> Math_round (div (ofZ a) (ofZ t)) = ofZ ((2 * a + t) / (2 * t)).
Proof.
  intros Ht. unfold div, ofZ at 1 2.
  assert (Hz : Qzero (inject_Z t) = false).
  { unfold Qzero, Qeq_bool, inject_Z. simpl. apply Z.eqb_neq. lia. }
  rewrite Hz. unfold Math_round. f_equal.
  assert (E : Qred (inject_Z a / inject_Z t) + (1 # 2)
              == (2 * a + t) # Z.to_pos (2 * t)).
  { rewrite Qred_correct.
    destruct t as [|p|p]; try lia.
    change (Z.to_pos (2 * Z.pos p)) with (2 * p)%positive.
    unfold Qeq, Qdiv, Qmult, Qplus, Qinv, inject_Z. cbn [Qnum Qden].
    rewrite ?Pos2Z.inj_mul. lia. }
  rewrite (Qfloor_comp _ _ E). unfold Qfloor.
  rewrite Z2Pos.id by lia. reflexivity.
Qed.

Lemma div_zero_zero : div (ofZ 0) (ofZ 0) = NaN.
Proof. reflexivity. Qed.

End NumberFacts.

Import Analysis.

Section ContactFacts.

Lemma existsb_eqb_In (c : jsstring) (l : list jsstring) :
  existsb (JsString.eqb c) l = true <-> In c l.
Proof.
  rewrite existsb_exists. split.
  - intros (x & Hx & E). apply eqb_eq in E. now subst.
  - intros H. exists c. split; [exact H|apply eqb_refl].
Qed.

Lemma fold_addOnce_In (l seen : list jsstring) (x : jsstring) :
  In x (fold_left addOnce l seen) <-> In x seen \/ In x l.
Proof.
  revert seen. induction l as [|c l IH]; intros seen; simpl.
  - tauto.
  - rewrite IH. unfold addOnce.
    destruct (existsb (JsString.eqb c) seen) eqn:E.
    + apply existsb_eqb_In in E. split; [tauto|].
      intros [H|[<-|H]]; auto.
    + rewrite in_app_iff. simpl. tauto.
Qed.

Lemma fold_addOnce_NoDup (l seen : list jsstring) :
  NoDup seen -> NoDup (fold_left addOnce l seen).
Proof.
  revert seen. induction l as [|c l IH]; intros seen Hs; simpl; [exact Hs|].
  apply IH. unfold addOnce.
  destruct (existsb (JsString.eqb c) seen) eqn:E; [exact Hs|].
  assert (Hc : ~ In c seen).
  { intros H. apply existsb_eqb_In in H. congruence. }
  clear E. induction seen as [|s seen IHs]; simpl.
  - constructor; [intros []|constructor].
  - inversion Hs; subst. constructor.
    + rewrite in_app_iff. simpl. intros [H|[H|[]]]; [contradiction|].
      subst. apply Hc. now left.
    + apply IHs; [assumption|]. intros H. apply Hc. now right.
Qed.

Lemma fold_addOnce_head (l seen : list jsstring) (a : jsstring) :
  exists rest, fold_left addOnce l (a :: seen) = a :: rest.
Proof.
  revert seen. induction l as [|c l IH]; intros seen; simpl.
  - now exists seen.
  - unfold addOnce at 2.
    destruct (existsb (JsString.eqb c) (a :: seen)); [apply IH|].
    simpl. apply IH.
Qed.

Lemma distinct_In (l : list jsstring) (x : jsstring) :
  In x (distinct l) <-> In x l.
Proof. unfold distinct. rewrite fold_addOnce_In. simpl. tauto. Qed.

Lemma distinct_NoDup (l : list jsstring) : NoDup (distinct l).
Proof. apply fold_addOnce_NoDup. constructor. Qed.

Variable messages : list Message.

Lemma contact_In_contacts (m : Message) :
  In m messages -> In (contact m) (contacts messages).
Proof.
  intros H. apply distinct_In. now apply in_map.
Qed.

Lemma contacts_NoDup : NoDup (contacts messages).
Proof. apply distinct_NoDup. Qed.

Lemma contact1_first (m : Message) (rest : list Message) :
  messages = m :: rest -> contact1 messages = Some (contact m).
Proof.
  intros ->. unfold contact1, contacts, distinct.
  change (fold_left addOnce (List.map contact (m :: rest)) [])
    with (fold_left addOnce (List.map contact rest) [contact m]).
  destruct (fold_addOnce_head (List.map contact rest) [] (contact m))
    as [t ->].
  reflexivity.
Qed.

Lemma contact12_differ (a b : jsstring) :
  contact1 messages = Some a -> contact2 messages = Some b -> a <> b.
Proof.
  unfold contact1, contact2. pose proof contacts_NoDup as H.
  destruct (contacts messages) as [|x [|y t]]; simpl; try discriminate.
  intros [= <-] [= <-]. inversion H; subst. intros ->.
  apply H2. now left.
Qed.

Lemma contact2_needs_contact1 :
  contact1 messages = None -> contact2 messages = None.
Proof.
  unfold contact1, contact2.
  destruct (contacts messages); [reflexivity|discriminate].
Qed.

(** The two per-contact filters never keep the same message. *)
Lemma filters_disjoint (m : Message) :
  strictEq (contact m) (contact1 messages) = true ->
  strictEq (contact m) (contact2 messages) = false.
Proof.
  destruct (contact1 messages) as [a|] eqn:E1; simpl; [|discriminate].
  destruct (contact2 messages) as [b|] eqn:E2; simpl; [|reflexivity].
  intros H. apply eqb_eq in H. subst a.
  apply eqb_neq. now apply contact12_differ.
Qed.

End ContactFacts.

Section FilterFacts.

Variable A : Type.
Variables p q : A -> bool.

Lemma filter_disjoint_le (l : list A) :
  (forall x, p x = true -> q x = false) ->
  (List.length (List.filter p l) + List.length (List.filter q l)
   <= List.length l)%nat.
Proof.
  intros H. induction l as [|x l IH]; simpl; [lia|].
  destruct (p x) eqn:Ep.
  - rewrite (H x Ep). simpl. lia.
  - destruct (q x); simpl; lia.
Qed.

Lemma filter_partition_eq (l : list A) :
  (forall x, p x = true -> q x = false) ->
  (forall x, In x l -> p x = true \/ q x = true) ->
  (List.length (List.filter p l) + List.length (List.filter q l)
   = List.length l)%nat.
Proof.
  intros H Hc. induction l as [|x l IH]; simpl; [lia|].
  assert (IH' := IH (fun y Hy => Hc y (or_intror Hy))).
  destruct (p x) eqn:Ep.
  - rewrite (H x Ep). simpl. lia.
  - destruct (Hc x (or_introl eq_refl)) as [E|E]; [congruence|].
    rewrite E. simpl. lia.
Qed.

End FilterFacts.

Section PercentFacts.

Lemma percent_spec (a t : Z) :
  0 < t ->
  2 * t * percent a t <= 200 * a + t < 2 * t * (percent a t + 1).
Proof.
  intros Ht. unfold percent. split.
  - apply Z.mul_div_le. lia.
  - replace (2 * t * ((200 * a + t) / (2 * t) + 1))
      with (2 * t * Z.succ ((200 * a + t) / (2 * t))) by lia.
    apply Z.mul_succ_div_gt. lia.
Qed.

Lemma percent_range (a t : Z) :
  0 < t -> 0 <= a <= t -> 0 <= percent a t <= 100.
Proof.
  intros Ht Ha. pose proof (percent_spec a t Ht) as [H1 H2]. split; nia.
Qed.

Lemma percent_sum_le (a b t : Z) :
  0 < t -> 0 <= a -> 0 <= b -> a + b <= t ->
  percent a t + percent b t <= 101.
Proof.
  intros Ht Ha Hb Hab.
  pose proof (percent_spec a t Ht) as [H1 _].
  pose proof (percent_spec b t Ht) as [H2 _]. nia.
Qed.

Lemma percent_sum_ge (a b t : Z) :
  0 < t -> a + b = t -> 100 <= percent a t + percent b t.
Proof.
  intros Ht Hab.
  pose proof (percent_spec a t Ht) as [_ H1].
  pose proof (percent_spec b t Ht) as [_ H2]. nia.
Qed.

Lemma percent_zero (t : Z) : 0 < t -> percent 0 t = 0.
Proof.
  intros Ht. unfold percent. apply Z.div_small. lia.
Qed.

End PercentFacts.

Section SortFacts.

Variable A : Type.
Variable cmp : A -> A -> number.

Lemma insert_In (x y : A) (l : list A) :
  In y (JsArray.insert cmp x l) <-> y = x \/ In y l.
Proof.
  induction l as [|z l IH]; cbn [JsArray.insert].
  - simpl. split; [intros [H|[]]; auto|intros [H|[]]; auto].
  - destruct (gt (cmp x z) (ofZ 0)); cbn [In].
    + rewrite IH. cbn [In]. split; intros H; intuition auto.
    + split; intros H; intuition auto.
Qed.

Lemma sort_In (y : A) (l : list A) : In y (JsArray.sort cmp l) <-> In y l.
Proof.
  unfold JsArray.sort. induction l as [|x l IH]; cbn [fold_right In]; [tauto|].
  rewrite insert_In, IH. split; intros [H|H]; auto.
Qed.

Lemma insert_length (x : A) (l : list A) :
  List.length (JsArray.insert cmp x l) = S (List.length l).
Proof.
  induction l as [|z l IH]; cbn [JsArray.insert]; [reflexivity|].
  destruct (gt (cmp x z) (ofZ 0)); cbn [List.length];
    [now rewrite IH|reflexivity].
Qed.

Lemma adjacent_In (a b : A) (l : list A) :
  In (a, b) (JsArray.adjacent l) -> In a l /\ In b l.
Proof.
  unfold JsArray.adjacent. intros H. split.
  - now apply in_combine_l in H.
  - apply in_combine_r in H. destruct l; [contradiction|]. now right.
Qed.

End SortFacts.

Section ResponseFacts.

Import Obj.

Variable messages : list Message.

Lemma literal2_has_fst (V : Type) (k1 k2 : jsstring) (v1 v2 : V) :
  get k1 (literal2 k1 v1 k2 v2) <> None.
Proof.
  unfold literal2. destruct (JsString.eqb k1 k2) eqn:E.
  - apply eqb_eq in E. subst. now rewrite get_set_same.
  - apply eqb_neq in E. rewrite get_set_other by exact E.
    now rewrite get_set_same.
Qed.

Lemma literal2_has_snd (V : Type) (k1 k2 : jsstring) (v1 v2 : V) :
  get k2 (literal2 k1 v1 k2 v2) <> None.
Proof. unfold literal2. now rewrite get_set_same. Qed.

Lemma set_keeps_keys (V : Type) (k k' : jsstring) (v : V) (o : obj V) :
  get k' o <> None -> get k' (set k v o) <> None.
Proof.
  intros H. destruct (JsString.eqb k' k) eqn:E.
  - apply eqb_eq in E. subst. now rewrite get_set_same.
  - apply eqb_neq in E. now rewrite get_set_other.
Qed.

Lemma responseStep_returns (rt : obj (list number)) (pc : Message * Message) :
  get (contact (snd pc)) rt <> None ->
  exists rt', responseStep rt pc = Return rt'
              /\ forall k, get k rt <> None -> get k rt' <> None.
Proof.
  destruct pc as [previous current]. simpl. intros Hk. unfold responseStep.
  destruct (negb (JsString.eqb (contact current) (contact previous)));
    [|now exists rt].
  destruct (lt _ _); [|now exists rt].
  destruct (get (contact current) rt) as [arr|] eqn:E; [|congruence].
  eexists. split; [reflexivity|].
  intros k. apply set_keeps_keys.
Qed.

Lemma foldM_responseStep_returns (l : list (Message * Message))
    (rt : obj (list number)) :
  (forall pc, In pc l -> get (contact (snd pc)) rt <> None) ->
  exists rt', foldM responseStep l rt = Return rt'
              /\ forall k, get k rt <> None -> get k rt' <> None.
Proof.
  revert rt. induction l as [|pc l IH]; intros rt H; simpl.
  - now exists rt.
  - destruct (responseStep_returns rt pc (H pc (or_introl eq_refl)))
      as (rt1 & -> & Hkeep).
    simpl. destruct (IH rt1) as (rt2 & E & Hkeep2).
    + intros pc' Hin. apply Hkeep. apply H. now right.
    + exists rt2. split; [exact E|]. intros k Hk. apply Hkeep2, Hkeep, Hk.
Qed.

Lemma avgResponseTime_returns (sortedMessages : list Message) :
  (forall m, In m sortedMessages ->
             get (contact m)
                 (literal2 (key (contact1 messages)) (@nil number)
                           (key (contact2 messages)) []) <> None) ->
  exists a, avgResponseTime messages sortedMessages = Return a.
Proof.
  intros H. unfold avgResponseTime, responseTimes.
  destruct (foldM_responseStep_returns (JsArray.adjacent sortedMessages)
              (literal2 (key (contact1 messages)) []
                        (key (contact2 messages)) []))
    as (rt & -> & Hkeep).
  - intros [p c] Hin. simpl. apply H.
    now apply adjacent_In in Hin.
  - simpl. unfold avgOf.
    destruct (get (key (contact1 messages)) rt) eqn:E1.
    2:{ exfalso. revert E1. apply Hkeep, literal2_has_fst. }
    simpl.
    destruct (get (key (contact2 messages)) rt) eqn:E2.
    2:{ exfalso. revert E2. apply Hkeep, literal2_has_snd. }
    simpl. eexists. reflexivity.
Qed.

(** With at most two distinct contacts every sender owns a key of the
    dictionaries, so the closure returns. *)
Lemma sender_is_identified (m : Message) :
  (List.length (contacts messages) <= 2)%nat -> In m messages ->
  contact m = key (contact1 messages) \/ contact m = key (contact2 messages).
Proof.
  intros Hlen Hin. apply contact_In_contacts in Hin.
  unfold contact1, contact2.
  destruct (contacts messages) as [|a [|b [|c t]]]; simpl in *;
    try lia; intuition auto.
Qed.

Lemma analysis_returns (m0 : Message) (rest : list Message) :
  messages = m0 :: rest ->
  (List.length (contacts messages) <= 2)%nat ->
  exists r, analysis messages = Return (Some r).
Proof.
  intros E Hlen. unfold analysis. rewrite E. rewrite <- E.
  unfold body.
  destruct (avgResponseTime_returns (sorted messages)) as [a ->].
  - intros m Hin. apply sort_In in Hin.
    destruct (sender_is_identified m Hlen Hin) as [-> | ->].
    + apply literal2_has_fst.
    + apply literal2_has_snd.
  - simpl. eexists. reflexivity.
Qed.

End ResponseFacts.

(** What the closure returned, field by field. *)
Ltac returnedBody H :=
  unfold body in H;
  match type of H with
  | bind ?c _ = _ => destruct c; [|discriminate H]
  end;
  simpl in H; injection H as <-.

(** What [analysis] returned, field by field. *)
Ltac returned H :=
  let E := fresh "E" in
  unfold analysis, body in H;
  match type of H with
  | match ?ms with [] => _ | _ :: _ => _ end = _ =>
      destruct ms eqn:E; [discriminate H|]; rewrite <- E in *
  end;
  match type of H with
  | bind ?c _ = _ => destruct c; [|discriminate H]
  end;
  simpl in H; injection H as <-.

Section InterestFacts.

Variable messages : list Message.
Hypothesis nonempty : messages <> [].

Lemma total_pos : 0 < total messages.
Proof.
  unfold total. destruct messages; [contradiction|]. simpl List.length. lia.
Qed.

Lemma interestOf_percent (cm : list Message) :
  interestOf messages cm
  = ofZ (percent (Z.of_nat (List.length cm)) (total messages)).
Proof.
  unfold interestOf, totalMessages, Number.length, ofNat.
  fold (total messages). rewrite round_scaled by apply total_pos.
  unfold percent. do 2 f_equal; lia.
Qed.

Lemma counts_le_total :
  0 <= n1 messages /\ 0 <= n2 messages
  /\ n1 messages + n2 messages <= total messages.
Proof.
  unfold n1, n2, total, contact1Messages, contact2Messages.
  pose proof (filter_disjoint_le _ _ _ messages (filters_disjoint messages)).
  lia.
Qed.

Lemma compatibility_formula (i1 i2 : Z) :
  contact1Interest messages = ofZ i1 ->
  contact2Interest messages = ofZ i2 ->
  compatibilityScore messages
  = ofZ ((Z.min i1 i2 + (100 - Z.abs (i1 - i2)) + 1) / 2).
Proof.
  intros H1 H2. unfold compatibilityScore, mutualInterest.
  rewrite H1, H2, min_ofZ, sub_ofZ, abs_ofZ, sub_ofZ, add_ofZ.
  rewrite round_quotient by lia. f_equal.
  replace (2 * (Z.min i1 i2 + (100 - Z.abs (i1 - i2))) + 2)
    with (2 * (Z.min i1 i2 + (100 - Z.abs (i1 - i2)) + 1)) by lia.
  apply Z.div_mul_cancel_l; lia.
Qed.

End InterestFacts.

Section CounterFacts.

Import Obj.

Lemma get_increment_same (k : jsstring) (o : obj number) (v : number) :
  get k o = Some v -> get k (increment k o) = Some (add v (ofZ 1)).
Proof.
  intros H. unfold increment. rewrite H. apply get_set_same.
Qed.

Lemma get_increment_other (k k' : jsstring) (o : obj number) :
  k' <> k -> get k' (increment k o) = get k' o.
Proof.
  intros H. unfold increment. destruct (get k o).
  - now apply get_set_other.
  - destruct (JsString.eqb k (str "__proto__")); [reflexivity|].
    now apply get_set_other.
Qed.

(** The counter of [c] after [o[k]++], when it held the integer [a]. *)
Lemma get_increment (k c : jsstring) (o : obj number) (a : Z) :
  get c o = Some (ofZ a) ->
  get c (increment k o)
  = Some (ofZ (a + (if JsString.eqb k c then 1 else 0))).
Proof.
  intros H. destruct (JsString.eqb k c) eqn:E.
  - apply eqb_eq in E. subst k.
    rewrite (get_increment_same c o (ofZ a) H), add_ofZ. reflexivity.
  - apply eqb_neq in E. rewrite get_increment_other by congruence.
    now rewrite Z.add_0_r.
Qed.

Lemma get_zeroCounters (messages : list Message) (c : jsstring) :
  c = key (contact1 messages) \/ c = key (contact2 messages) ->
  get c (zeroCounters messages) = Some (ofZ 0).
Proof.
  unfold zeroCounters, literal2. intros [-> | ->].
  - destruct (JsString.eqb (key (contact1 messages)) (key (contact2 messages)))
      eqn:E.
    + apply eqb_eq in E. rewrite E. apply get_set_same.
    + apply eqb_neq in E. rewrite get_set_other by exact E.
      apply get_set_same.
  - apply get_set_same.
Qed.

End CounterFacts.

Section WeekFacts.

Import Obj.

Lemma sentCount_cons (c : jsstring) (m : Message) (l : list Message) :
  sentCount c (m :: l)
  = (if JsString.eqb (contact m) c then 1 else 0) + sentCount c l.
Proof.
  unfold sentCount. simpl.
  destruct (JsString.eqb (contact m) c); simpl List.length; lia.
Qed.


Lemma filter_strictEq (c : jsstring) (l : list Message) :
  List.filter (fun m => strictEq (contact m) (Some c)) l
  = List.filter (fun m => JsString.eqb (contact m) c) l.
Proof. reflexivity. Qed.

End WeekFacts.

Section StarterFacts.

Import Obj.

Lemma starterStep_fold (c : jsstring) (l : list Message) :
  forall (o : obj number) (prev : number) (a : Z),
    get c o = Some (ofZ a) ->
    get c (fst (fold_left starterStep l (o, prev)))
    = Some (ofZ (a + Z.of_nat (startsRec prev c l))).
Proof.
  induction l as [|m l IH]; intros o prev a H.
  - simpl. now rewrite Z.add_0_r.
  - cbn [fold_left startsRec]. unfold starterStep at 2. fold (gapOver4h prev m).
    destruct (gapOver4h prev m); cbn [andb].
    + rewrite (IH _ _ _ (get_increment (contact m) c o a H)).
      do 2 f_equal. destruct (JsString.eqb (contact m) c); lia.
    + rewrite (IH _ _ _ H). do 2 f_equal.
Qed.

Lemma filter_map_length (A B : Type) (f : B -> bool) (g : A -> B) (l : list A) :
  List.length (List.filter f (List.map g l))
  = List.length (List.filter (fun x => f (g x)) l).
Proof.
  induction l as [|x l IH]; simpl; [reflexivity|].
  destruct (f (g x)); simpl; now rewrite IH.
Qed.

Lemma startsBy_rec (c : jsstring) (l : list Message) :
  forall first, Spec.startsBy first c l = startsRec first c l.
Proof.
  unfold Spec.startsBy.
  induction l as [|m l IH]; intros first; [reflexivity|].
  assert (Ext : forall i,
             Spec.startsConversation first (m :: l) (S i)
             && Spec.sentBy c (m :: l) (S i)
             = Spec.startsConversation (getTime (timestamp m)) l i
               && Spec.sentBy c l i).
  { intros i. unfold Spec.startsConversation, Spec.sentBy.
    cbn [nth_error]. f_equal.
    destruct (nth_error l i) as [x|] eqn:E; [|reflexivity].
    do 3 f_equal. unfold Spec.previousTime.
    destruct i as [|j]; reflexivity. }
  assert (Hd : Spec.startsConversation first (m :: l) 0
               && Spec.sentBy c (m :: l) 0
               = gapOver4h first m && JsString.eqb (contact m) c)
    by reflexivity.
  cbn [List.length seq startsRec].
  rewrite <- seq_shift. cbn [List.filter]. rewrite Hd.
  rewrite <- (IH (getTime (timestamp m))).
  destruct (gapOver4h first m && JsString.eqb (contact m) c);
    cbn [List.length]; rewrite filter_map_length, (filter_ext _ _ Ext);
    reflexivity.
Qed.

(** Comparing a quotient of integers with an integer. *)
Lemma gt_div_ofZ (a b c : Z) :
  0 < b -> gt (div (ofZ a) (ofZ b)) (ofZ c) = (c * b <? a).
Proof.
  intros Hb. unfold div, ofZ at 1 2.
  assert (Hz : Qzero (inject_Z b) = false).
  { unfold Qzero, Qeq_bool, inject_Z. simpl. apply Z.eqb_neq. lia. }
  rewrite Hz. unfold gt, lt, ofZ, Qltb.
  destruct (Qle_bool (Qred (inject_Z a / inject_Z b)) (inject_Z c)) eqn:E.
  - apply Qle_bool_iff in E. rewrite Qred_correct in E.
    symmetry. apply Z.ltb_ge.
    destruct b as [|p|p]; try lia.
    unfold Qle, Qdiv, Qmult, Qinv, inject_Z in E. cbn [Qnum Qden] in E.
    rewrite ?Pos2Z.inj_mul in E. lia.
  - symmetry. apply Z.ltb_lt.
    destruct (Z_lt_le_dec (c * b) a) as [L|L]; [exact L|exfalso].
    assert (T : Qle_bool (Qred (inject_Z a / inject_Z b)) (inject_Z c) = true).
    { apply Qle_bool_iff. rewrite Qred_correct.
      destruct b as [|p|p]; try lia.
      unfold Qle, Qdiv, Qmult, Qinv, inject_Z. cbn [Qnum Qden].
      rewrite ?Pos2Z.inj_mul. lia. }
    congruence.
Qed.

Lemma first_message_starts (m : Message) (rest : list Message) :
  Spec.startsConversation Spec.epochZero (m :: rest) 0 = true
  <-> exists t, timestamp m = ValidDate t /\ 4 * 3600000 < t.
Proof.
  unfold Spec.startsConversation, Spec.epochZero.
  cbn [nth_error Spec.previousTime].
  destruct (timestamp m) as [t|]; cbn [getTime].
  - rewrite sub_ofZ, gt_div_ofZ by lia. rewrite Z.sub_0_r.
    split.
    + intros H. apply Z.ltb_lt in H. exists t. split; [reflexivity|lia].
    + intros (t' & [= <-] & H). apply Z.ltb_lt. lia.
  - split; [discriminate|]. intros (t & H & _). discriminate.
Qed.

End StarterFacts.

Section HeapFacts.

Lemma store_fresh (h : heap) (arr arr' : list Message) :
  store (h ++ [arr]) (List.length h) arr' = h ++ [arr'].
Proof.
  unfold store. rewrite nth_error_app2 by lia.
  rewrite Nat.sub_diag. cbn [nth_error].
  rewrite firstn_app, Nat.sub_diag, firstn_all. cbn [firstn].
  rewrite app_nil_r. f_equal.
  rewrite skipn_all2; [reflexivity|].
  rewrite length_app. simpl. lia.
Qed.

Lemma load_fresh (h : heap) (arr : list Message) :
  load (h ++ [arr]) (List.length h) = Some arr.
Proof.
  unfold load. rewrite nth_error_app2 by lia.
  now rewrite Nat.sub_diag.
Qed.

Lemma load_old (h : heap) (arr : list Message) (a : nat) :
  load h a <> None -> load (h ++ [arr]) a = load h a.
Proof.
  unfold load. intros H. apply nth_error_app1.
  now apply nth_error_Some.
Qed.

(** A run on a non empty array returns what [analysis] returns and leaves
    the heap with one more array, the sorted copy. *)
Lemma analysisOn_nonempty (h : heap) (a : nat) (m : Message)
    (rest : list Message) :
  load h a = Some (m :: rest) ->
  analysisOn a h = (analysis (m :: rest), h ++ [sorted (m :: rest)]).
Proof.
  intros H. unfold analysisOn. rewrite H. cbn [alloc].
  unfold sortInPlace. rewrite load_fresh, store_fresh, load_fresh.
  reflexivity.
Qed.

End HeapFacts.

Section ThrowFacts.

Import Obj.

Variables k1 k2 : jsstring.

Lemma responseStep_cases (rt : obj (list number)) (pc : Message * Message) :
  onlyTwoKeys k1 k2 rt ->
  (responseStep rt pc = Throw TypeError)
  \/ (exists rt', responseStep rt pc = Return rt' /\ onlyTwoKeys k1 k2 rt'
                  /\ ~ throwing k1 k2 pc).
Proof.
  intros Hinv. destruct pc as [previous current]. unfold responseStep, throwing.
  cbn [fst snd].
  destruct (JsString.eqb (contact current) (contact previous)) eqn:Ec;
    cbn [negb].
  - right. exists rt. split; [reflexivity|]. split; [exact Hinv|].
    apply eqb_eq in Ec. intros (H & _). contradiction.
  - destruct (lt (elapsed previous current (1000 * 60)) (ofZ 1440)) eqn:El.
    + destruct (get (contact current) rt) as [arr|] eqn:Eg.
      * right. eexists. split; [reflexivity|]. split.
        -- intros k Hk1 Hk2. rewrite get_set_other; [now apply Hinv|].
           intros ->. rewrite Hinv in Eg by assumption. discriminate.
        -- intros (_ & _ & Hk1 & Hk2).
           rewrite Hinv in Eg by assumption. discriminate.
      * now left.
    + right. exists rt. split; [reflexivity|]. split; [exact Hinv|].
      intros (_ & H & _). discriminate.
Qed.

Lemma foldM_responseStep_throws (l : list (Message * Message)) :
  forall rt,
    onlyTwoKeys k1 k2 rt ->
    (exists pc, In pc l /\ throwing k1 k2 pc) ->
    foldM responseStep l rt = Throw TypeError.
Proof.
  induction l as [|pc l IH]; intros rt Hinv (pc' & Hin & Hthrow).
  - contradiction.
  - cbn [foldM].
    destruct (responseStep_cases rt pc Hinv) as [-> | (rt' & -> & Hinv' & Hno)].
    + reflexivity.
    + cbn [bind]. apply IH; [exact Hinv'|].
      exists pc'. split; [|exact Hthrow].
      destruct Hin as [<-|Hin]; [contradiction|exact Hin].
Qed.

Lemma literal2_onlyTwoKeys : onlyTwoKeys k1 k2 (literal2 k1 [] k2 []).
Proof. intros k H1 H2. now apply get_literal2_other. Qed.

End ThrowFacts.

Import Parser.
Import Analysis.

Section ParserFacts.

Import Regex.

Lemma pushLine_parsedOf (acc : list ParsedMessage) (line : jsstring) :
  pushLine acc line = acc ++ parsedOf line.
Proof.
  unfold pushLine, parsedOf.
  destruct (matchLine line) as [[[[d t] n] m]|]; [reflexivity|].
  now rewrite app_nil_r.
Qed.

Lemma fold_pushLine (ls : list jsstring) (acc : list ParsedMessage) :
  fold_left pushLine ls acc = acc ++ flat_map parsedOf ls.
Proof.
  revert acc. induction ls as [|l ls IH]; intros acc; simpl.
  - now rewrite app_nil_r.
  - rewrite IH, pushLine_parsedOf, app_assoc. reflexivity.
Qed.

Lemma parsedOf_nil (line : jsstring) :
  parsedOf line = [] <-> matchLine line = None.
Proof.
  unfold parsedOf.
  destruct (matchLine line) as [[[[d t] n] m]|]; split; congruence.
Qed.

Lemma flat_map_nil (A B : Type) (f : A -> list B) (l : list A) :
  flat_map f l = [] <-> forall x, In x l -> f x = [].
Proof.
  induction l as [|a l IH]; simpl.
  - split; [intros _ x []|reflexivity].
  - split.
    + intros H x [<-|Hx].
      * now apply app_eq_nil in H.
      * apply app_eq_nil in H. now apply IH.
    + intros H. rewrite (H a (or_introl eq_refl)). simpl.
      apply IH. intros x Hx. apply H. now right.
Qed.

Lemma digit_not_space (c : char16) : isDigit c = true -> isWhiteSpace c = false.
Proof.
  unfold isDigit, isWhiteSpace. intros H.
  apply andb_true_iff in H as [H1 H2].
  apply N.leb_le in H1, H2.
  repeat match goal with
  | |- context [(?a <=? ?b)%N] => destruct (N.leb_spec a b); try lia
  | |- context [(?a =? ?b)%N] => destruct (N.eqb_spec a b); try lia
  end; reflexivity.
Qed.

(** A line the pattern accepts opens with a bracket or a digit. *)
Lemma matched_opening (line : jsstring) :
  matchLine line <> None ->
  exists c s, line = c :: s /\ isWhiteSpace c = false.
Proof.
  unfold matchLine. destruct (exec linePattern line) as [caps|] eqn:E;
    [intros _|congruence].
  destruct line as [|c s]; [vm_compute in E; discriminate|].
  exists c, s. split; [reflexivity|].
  destruct (N.eqb_spec 91 c) as [<-|Hb]; [reflexivity|].
  destruct (isDigit c) eqn:Hd; [now apply digit_not_space|].
  exfalso. apply N.eqb_neq in Hb.
  unfold exec, linePattern, seqs, maybe, datePattern, digits in E.
  cbn [fold_right run greedy] in E.
  rewrite Hb in E. cbn [andb] in E.
  unfold seqs in E. cbn [fold_right run greedy] in E.
  rewrite Hd in E. cbn [andb] in E. discriminate.
Qed.

Lemma matched_line_kept (content line : jsstring) :
  In line (split 10%N content) -> matchLine line <> None ->
  In line (lines content).
Proof.
  intros Hin Hm. unfold lines. apply filter_In. split; [exact Hin|].
  destruct (matched_opening line Hm) as (c & s & -> & Hc).
  pose proof (trim_nonempty c s Hc) as Hn.
  destruct (trim (c :: s)); [contradiction|reflexivity].
Qed.

End ParserFacts.

(** The parser on its own: [processWhatsAppFile] throws exactly when no line
    of the input matches the line pattern, the error it throws is always the
    "no valid messages" one, and as soon as one line matches it returns a
    non empty array of messages. *)
Theorem parse_fails_iff_no_line_matches (content : jsstring) :
  (processWhatsAppFile content = Throw noMessages <->
   forall line, In line (split 10%N content) -> matchLine line = None)
  /\ (forall e, processWhatsAppFile content = Throw e -> e = noMessages)
  /\ ((exists line, In line (split 10%N content) /\ matchLine line <> None) ->
      exists messages,
        processWhatsAppFile content = Return messages /\ messages <> []).
Proof.
  unfold processWhatsAppFile. rewrite fold_pushLine, app_nil_l.
  assert (Hnil : flat_map parsedOf (lines content) = [] <->
                 forall line, In line (split 10%N content) ->
                              matchLine line = None).
  { rewrite flat_map_nil. split.
    - intros H line Hin.
      destruct (matchLine line) eqn:E; [|reflexivity].
      assert (Hm : matchLine line <> None) by congruence.
      rewrite <- E. apply parsedOf_nil. apply H.
      now apply matched_line_kept.
    - intros H line Hin. apply parsedOf_nil. apply H.
      unfold lines in Hin. now apply filter_In in Hin. }
  destruct (flat_map parsedOf (lines content)) as [|m ms] eqn:E; simpl.
  - split; [|split].
    + split; [intros _; now apply Hnil|reflexivity].
    + intros e H. congruence.
    + intros (line & Hin & Hm). exfalso. apply Hm.
      now apply (proj1 Hnil).
  - split; [|split].
    + split; [discriminate|].
      intros H. apply Hnil in H. discriminate.
    + intros e H. discriminate.
    + intros _. exists (m :: ms). split; [reflexivity|discriminate].
Qed.

Lemma parser_accepts_example1 :
  (exists line,
     In line (split 10%N Examples.example1) /\ matchLine line <> None)
  /\ exists messages,
       processWhatsAppFile Examples.example1 = Return messages
       /\ messages <> [].
Proof.
  assert (H : exists line,
             In line (split 10%N Examples.example1) /\ matchLine line <> None).
  { exists (str "1/2/24, 10:00 - Alice: hello").
    split; [vm_compute; auto|vm_compute; discriminate]. }
  split; [exact H|].
  exact (proj2 (proj2 (parse_fails_iff_no_line_matches Examples.example1)) H).
Defined.

Section RedFlagFacts.

Variable toLowerCase : jsstring -> jsstring.
Variable messages : list Message.

Lemma pushKeyword_entry (category : jsstring) (flags : list Result.RedFlag)
    (keyword : jsstring) :
  pushKeyword toLowerCase messages category flags keyword
  = flags ++ entryFor toLowerCase messages category keyword.
Proof.
  unfold pushKeyword, entryFor.
  destruct (0 <? keywordCount toLowerCase messages keyword)%nat; [reflexivity|].
  now rewrite app_nil_r.
Qed.

Lemma fold_pushKeyword (category : jsstring) (keywords : list jsstring)
    (flags : list Result.RedFlag) :
  fold_left (pushKeyword toLowerCase messages category) keywords flags
  = flags ++ flat_map (entryFor toLowerCase messages category) keywords.
Proof.
  revert flags. induction keywords as [|k ks IH]; intros flags; simpl.
  - now rewrite app_nil_r.
  - rewrite IH, pushKeyword_entry, app_assoc. reflexivity.
Qed.

Lemma fold_pushCategory (table : list (jsstring * list jsstring))
    (flags : list Result.RedFlag) :
  fold_left (pushCategory toLowerCase messages) table flags
  = flags
    ++ flat_map
         (fun e => flat_map (entryFor toLowerCase messages (fst e)) (snd e))
         table.
Proof.
  revert flags. induction table as [|e t IH]; intros flags; simpl.
  - now rewrite app_nil_r.
  - rewrite IH. unfold pushCategory at 1.
    rewrite fold_pushKeyword, app_assoc. reflexivity.
Qed.

Lemma keywordCount_mentioning (keyword : jsstring) :
  keywordCount toLowerCase messages keyword
  = Spec.mentioningCount toLowerCase messages keyword.
Proof.
  unfold keywordCount, Spec.mentioningCount.
  induction messages as [|m ms IH]; simpl; [reflexivity|].
  destruct (includes (toLowerCase (message m)) keyword); simpl.
  - now rewrite IH.
  - exact IH.
Qed.

End RedFlagFacts.

Lemma severityFor_scale (count : nat) :
  Spec.severityScale count (severityFor count).
Proof.
  unfold Spec.severityScale, severityFor.
  destruct (10 <? count)%nat eqn:E1.
  - apply Nat.ltb_lt in E1. left. split; [lia|reflexivity].
  - apply Nat.ltb_ge in E1. destruct (5 <? count)%nat eqn:E2.
    + apply Nat.ltb_lt in E2. right; left. split; [lia|reflexivity].
    + apply Nat.ltb_ge in E2. right; right. split; [lia|reflexivity].
Qed.

Section CountFacts.

Variable messages : list Message.
Hypothesis nonempty : messages <> [].

Lemma keys_differ :
  contacts messages <> [str "undefined"] ->
  key (contact1 messages) <> key (contact2 messages).
Proof.
  intros Hu. pose proof (contacts_NoDup messages) as Hnd.
  destruct messages as [|m rest] eqn:E; [contradiction|]. rewrite <- E in *.
  pose proof (contact1_first messages m rest E) as H1.
  unfold contact1, contact2 in *.
  destruct (contacts messages) as [|a [|b t]]; simpl in *; try discriminate.
  - injection H1 as ->. intros Heq. apply Hu. now rewrite Heq.
  - inversion Hnd; subst. intros ->. apply H2. now left.
Qed.

Lemma every_message_counted :
  (List.length (contacts messages) <= 2)%nat ->
  n1 messages + n2 messages = total messages.
Proof.
  intros Hlen. unfold n1, n2, total, contact1Messages, contact2Messages.
  rewrite <- Nat2Z.inj_add. f_equal.
  apply filter_partition_eq; [apply filters_disjoint|].
  intros m Hin. apply contact_In_contacts in Hin.
  unfold contact1, contact2.
  destruct (contacts messages) as [|a [|b [|c t]]]; simpl in *;
    try contradiction; try lia.
  - destruct Hin as [<-|[]]. left. apply eqb_refl.
  - destruct Hin as [<-|[<-|[]]]; [left|right]; apply eqb_refl.
Qed.

End CountFacts.

Section ExampleFacts.

(** The message lists of [Examples] are what the parser hands over for the
    transcripts next to them. *)
Definition parsesTo (content : jsstring) (messages : list Message) : Prop :=
  match processWhatsAppFile content with
  | Return parsed => List.map ofParsed parsed = messages
  | Throw _ => False
  end.

Lemma example1_parsed :
  parsesTo Examples.example1 Examples.example1Messages.
Proof. vm_compute. reflexivity. Qed.

Lemma threeParty_parsed :
  parsesTo Examples.threePartyTranscript Examples.threeParty.
Proof. vm_compute. reflexivity. Qed.

Lemma groupTranscript_parsed :
  parsesTo Examples.groupTranscript Examples.groupMessages.
Proof. vm_compute. reflexivity. Qed.

Lemma oldTranscript_parsed :
  parsesTo Examples.oldTranscript Examples.oldMessages.
Proof. vm_compute. reflexivity. Qed.

Lemma dayFirstTranscript_parsed :
  parsesTo Examples.dayFirstTranscript Examples.undatedMessages.
Proof. vm_compute. reflexivity. Qed.

Lemma hateTranscript_parsed :
  parsesTo Examples.hateTranscript Examples.hateMessages.
Proof. vm_compute. reflexivity. Qed.

End ExampleFacts.
(* ================================================================== *)
(** * Facts about the pattern matcher *)

Section MatcherFacts.

Import Regex.

Lemma greedy_sound (R : Type) (p : char16 -> bool) (s : jsstring) :
  forall lo hi (k : jsstring -> option R) r,
    greedy p lo hi s k = Some r ->
    exists xs rest,
      s = xs ++ rest /\ forallb p xs = true /\ (lo <= List.length xs)%nat
      /\ fits hi (List.length xs) /\ k rest = Some r.
Proof.
  induction s as [|c s IH]; intros lo hi k r H; cbn [greedy] in H.
  - destruct lo; [|discriminate]. exists [], []. repeat split; auto.
    destruct hi; simpl; lia.
  - assert (Hstop : match lo with O => k (c :: s) | S _ => None end = Some r ->
                    exists xs rest,
                      c :: s = xs ++ rest /\ forallb p xs = true
                      /\ (lo <= List.length xs)%nat
                      /\ fits hi (List.length xs) /\ k rest = Some r).
    { intros Hs. destruct lo; [|discriminate]. exists [], (c :: s).
      repeat split; auto. destruct hi; simpl; lia. }
    destruct (p c && roomLeft hi) eqn:G; [|now apply Hstop].
    destruct (greedy p (Nat.pred lo) (option_map Nat.pred hi) s k) eqn:E;
      [|now apply Hstop].
    injection H as <-. apply andb_true_iff in G as [Gp Gr].
    apply IH in E as (xs & rest & -> & Hp & Hlo & Hhi & Hk).
    exists (c :: xs), rest. cbn [forallb List.length app]. rewrite Gp, Hp.
    repeat split; auto; [lia|].
    destruct hi as [[|h]|]; cbn in *; try discriminate; auto; lia.
Qed.

Lemma firstn_consumed (xs rest : jsstring) :
  firstn (List.length (xs ++ rest) - List.length rest) (xs ++ rest) = xs.
Proof.
  rewrite length_app, Nat.add_sub.
  rewrite firstn_app, Nat.sub_diag, firstn_all. simpl. apply app_nil_r.
Qed.

Lemma run_sound (r : regex) :
  forall s c k res,
    run r s c k = Some res ->
    exists xs rest c',
      s = xs ++ rest /\ denotes r xs rest c c' /\ k rest c' = Some res.
Proof.
  induction r as [|p lo hi|a IHa b IHb|a IHa|i a IHa|];
    intros s c k res H; cbn [run] in H.
  - exists [], s, c. repeat split; auto. constructor.
  - apply greedy_sound in H as (xs & rest & -> & Hp & Hlo & Hhi & Hk).
    exists xs, rest, c. repeat split; auto. now constructor.
  - apply IHa in H as (xs & rest1 & c1 & -> & Ha & H).
    apply IHb in H as (ys & rest & c2 & -> & Hb & H).
    exists (xs ++ ys), rest, c2. rewrite app_assoc. repeat split; auto.
    econstructor; eauto.
  - destruct (run a s c k) eqn:E.
    + injection H as <-. apply IHa in E as (xs & rest & c' & -> & Ha & H).
      exists xs, rest, c'. repeat split; auto. now constructor.
    + exists [], s, c. repeat split; auto. apply DOptNone.
  - apply IHa in H as (xs & rest & c' & -> & Ha & H).
    rewrite firstn_consumed in H.
    exists xs, rest, ((i, xs) :: c'). repeat split; auto. now constructor.
  - destruct s; [|discriminate]. exists [], [], c. repeat split; auto.
    constructor.
Qed.

Lemma greedy_complete (R : Type) (p : char16 -> bool) (xs : jsstring) :
  forall lo hi rest (k : jsstring -> option R) r,
    forallb p xs = true -> (lo <= List.length xs)%nat ->
    fits hi (List.length xs) -> k rest = Some r ->
    exists r', greedy p lo hi (xs ++ rest) k = Some r'.
Proof.
  induction xs as [|x xs IH]; intros lo hi rest k r Hp Hlo Hhi Hk.
  - cbn [List.length] in Hlo. assert (lo = O) by lia. subst lo.
    cbn [app]. destruct rest as [|c rest']; cbn [greedy]; [eauto|].
    destruct (p c && roomLeft hi); [|eauto].
    destruct (greedy p (Nat.pred 0) (option_map Nat.pred hi) rest' k); eauto.
  - cbn [forallb] in Hp. apply andb_true_iff in Hp as [Hx Hp].
    cbn [app greedy]. rewrite Hx.
    assert (Hr : roomLeft hi = true).
    { destruct hi as [[|h]|]; cbn in *; auto; lia. }
    rewrite Hr. cbn [andb].
    destruct (IH (Nat.pred lo) (option_map Nat.pred hi) rest k r Hp)
      as [r' E]; auto.
    + cbn [List.length] in Hlo. lia.
    + destruct hi as [[|h]|]; cbn in *; auto; lia.
    + rewrite E. eauto.
Qed.

Lemma run_complete (r : regex) (xs rest : jsstring) (c c' : captures) :
  denotes r xs rest c c' ->
  forall k res,
    k rest c' = Some res -> exists res', run r (xs ++ rest) c k = Some res'.
Proof.
  induction 1 as [rest c|p lo hi xs rest c Hp Hlo Hhi
                 |a b xs ys rest c c1 c2 Ha IHa Hb IHb
                 |a xs rest c c' Ha IHa|a rest c
                 |i a xs rest c c' Ha IHa|c];
    intros k res Hk; cbn [run].
  - eauto.
  - eapply greedy_complete; eauto.
  - destruct (IHb k res Hk) as [res1 E1].
    rewrite <- app_assoc.
    apply (IHa (fun s' c' => run b s' c' k) res1 E1).
  - destruct (IHa k res Hk) as [res1 ->]. eauto.
  - cbn [app]. destruct (run a rest c k); eauto.
  - eapply IHa. rewrite firstn_consumed. exact Hk.
  - eauto.
Qed.

Lemma greedy_first (R : Type) (p : char16 -> bool) (xs : jsstring) :
  forall lo hi rest (k : jsstring -> option R) r,
    forallb p xs = true -> (lo <= List.length xs)%nat ->
    fits hi (List.length xs) -> stopsAt p hi (List.length xs) rest ->
    k rest = Some r ->
    greedy p lo hi (xs ++ rest) k = Some r.
Proof.
  induction xs as [|x xs IH]; intros lo hi rest k r Hp Hlo Hhi Hs Hk.
  - cbn [List.length] in Hlo. assert (lo = O) by lia. subst lo.
    cbn [app]. destruct rest as [|c rest']; cbn [greedy]; [exact Hk|].
    destruct Hs as [-> | [E | (c0 & r0 & E & Hc)]].
    + cbn. rewrite andb_false_r. exact Hk.
    + discriminate.
    + injection E as <- <-. rewrite Hc. exact Hk.
  - cbn [forallb] in Hp. apply andb_true_iff in Hp as [Hx Hp].
    cbn [app greedy]. rewrite Hx.
    assert (Hr : roomLeft hi = true).
    { destruct hi as [[|h]|]; cbn in *; auto; lia. }
    rewrite Hr. cbn [andb].
    rewrite (IH (Nat.pred lo) (option_map Nat.pred hi) rest k r); auto.
    + cbn [List.length] in Hlo. lia.
    + destruct hi as [[|h]|]; cbn in *; auto; lia.
    + destruct Hs as [-> | Hs]; [left; reflexivity|right; exact Hs].
Qed.

Lemma run_first (r : regex) (xs rest : jsstring) (c c' : captures) :
  takes r xs rest c c' ->
  forall k res, k rest c' = Some res -> run r (xs ++ rest) c k = Some res.
Proof.
  induction 1 as [rest c|p lo hi xs rest c Hp Hlo Hhi Hs
                 |a b xs ys rest c c1 c2 Ha IHa Hb IHb
                 |a xs rest c c' Ha IHa|a rest c Hn
                 |i a xs rest c c' Ha IHa|c];
    intros k res Hk; cbn [run].
  - exact Hk.
  - now apply greedy_first.
  - rewrite <- app_assoc.
    apply (IHa (fun s' c' => run b s' c' k)). now apply IHb.
  - now rewrite (IHa k res Hk).
  - cbn [app]. now rewrite Hn.
  - apply IHa. now rewrite firstn_consumed.
  - exact Hk.
Qed.

End MatcherFacts.

Section ShapeFacts.

Import Regex.
Import Parser.

Lemma denotes_Seq_inv a b zs rest c c2 :
  denotes (Seq a b) zs rest c c2 ->
  exists xs ys c1,
    zs = xs ++ ys /\ denotes a xs (ys ++ rest) c c1 /\ denotes b ys rest c1 c2.
Proof. intros H. inversion H; subst. eauto 7. Qed.

Lemma denotes_Class_inv p lo hi xs rest c c' :
  denotes (Class p lo hi) xs rest c c' ->
  c' = c /\ forallb p xs = true /\ (lo <= List.length xs)%nat
  /\ fits hi (List.length xs).
Proof. intros H. inversion H; subst. auto. Qed.

Lemma denotes_Opt_inv a xs rest c c' :
  denotes (Opt a) xs rest c c' ->
  denotes a xs rest c c' \/ (xs = [] /\ c' = c).
Proof. intros H. inversion H; subst; auto. Qed.

Lemma denotes_Group_inv i a xs rest c c' :
  denotes (Group i a) xs rest c c' ->
  exists c1, c' = (i, xs) :: c1 /\ denotes a xs rest c c1.
Proof. intros H. inversion H; subst. eauto. Qed.

Lemma denotes_End_inv xs rest c c' :
  denotes EndAnchor xs rest c c' -> xs = [] /\ rest = [] /\ c' = c.
Proof. intros H. inversion H; subst. auto. Qed.

Lemma denotes_Empty_inv xs rest c c' :
  denotes Empty xs rest c c' -> xs = [] /\ c' = c.
Proof. intros H. inversion H; subst. auto. Qed.

Lemma denotes_seqs_cons r rs zs rest c c2 :
  denotes (seqs (r :: rs)) zs rest c c2 ->
  exists xs ys c1,
    zs = xs ++ ys /\ denotes r xs (ys ++ rest) c c1
    /\ denotes (seqs rs) ys rest c1 c2.
Proof. apply denotes_Seq_inv. Qed.

Lemma denotes_seqs_nil zs rest c c' :
  denotes (seqs []) zs rest c c' -> zs = [] /\ c' = c.
Proof. apply denotes_Empty_inv. Qed.

Lemma forallb_eqb_repeat (ch : char16) (xs : jsstring) :
  forallb (N.eqb ch) xs = true -> xs = repeat ch (List.length xs).
Proof.
  induction xs as [|x xs IH]; cbn [forallb List.length repeat]; [reflexivity|].
  intros H. apply andb_true_iff in H as [H1 H2]. apply N.eqb_eq in H1.
  subst x. f_equal. now apply IH.
Qed.

Lemma denotes_maybe ch xs rest c c' :
  denotes (maybe ch) xs rest c c' -> c' = c /\ optional ch xs.
Proof.
  intros H. apply denotes_Class_inv in H as (-> & Hp & _ & Hhi).
  split; [reflexivity|]. apply forallb_eqb_repeat in Hp. cbn in Hhi.
  destruct xs as [|x [|y xs]]; cbn in *; [now left| |lia].
  right. exact Hp.
Qed.

Lemma denotes_lit ch xs rest c c' :
  denotes (lit ch) xs rest c c' -> c' = c /\ xs = [ch].
Proof.
  intros H. apply denotes_Class_inv in H as (-> & Hp & Hlo & Hhi).
  split; [reflexivity|]. apply forallb_eqb_repeat in Hp. cbn in Hhi.
  destruct xs as [|x [|y xs]]; cbn in *; [lia| |lia]. exact Hp.
Qed.

Lemma denotes_spaces xs rest c c' :
  denotes spaces xs rest c c' -> c' = c /\ blank xs.
Proof.
  intros H. apply denotes_Class_inv in H as (-> & Hp & _). now split.
Qed.

Lemma denotes_digits lo hi xs rest c c' :
  denotes (digits lo hi) xs rest c c' -> c' = c /\ digitsIn lo hi xs.
Proof.
  intros H. apply denotes_Class_inv in H as (-> & Hp & Hlo & Hhi).
  cbn in Hhi. repeat split; auto.
Qed.

Lemma denotes_date xs rest c c' :
  denotes datePattern xs rest c c' -> c' = c /\ dateShaped xs.
Proof.
  unfold datePattern. intros H.
  apply denotes_seqs_cons in H as (a & r1 & c1 & -> & Ha & H).
  apply denotes_seqs_cons in H as (s1 & r2 & c2 & -> & Hs1 & H).
  apply denotes_seqs_cons in H as (b & r3 & c3 & -> & Hb & H).
  apply denotes_seqs_cons in H as (s2 & r4 & c4 & -> & Hs2 & H).
  apply denotes_seqs_cons in H as (y & r5 & c5 & -> & Hy & H).
  apply denotes_seqs_nil in H as (-> & ->).
  apply denotes_digits in Ha as (-> & Ha).
  apply denotes_lit in Hs1 as (-> & ->).
  apply denotes_digits in Hb as (-> & Hb).
  apply denotes_lit in Hs2 as (-> & ->).
  apply denotes_digits in Hy as (-> & Hy).
  split; [reflexivity|]. exists a, b, y. rewrite app_nil_r.
  repeat split; try apply Ha; try apply Hb; try apply Hy.
Qed.

Lemma denotes_seconds xs rest c c' :
  denotes (Opt (seqs [lit 58%N; digits 2 2])) xs rest c c' ->
  c' = c /\ secondsShaped xs.
Proof.
  intros H. apply denotes_Opt_inv in H as [H | (-> & ->)].
  - apply denotes_seqs_cons in H as (s1 & r1 & c1 & -> & Hs1 & H).
    apply denotes_seqs_cons in H as (ss & r2 & c2 & -> & Hss & H).
    apply denotes_seqs_nil in H as (-> & ->).
    apply denotes_lit in Hs1 as (-> & ->).
    apply denotes_digits in Hss as (-> & Hss).
    split; [reflexivity|]. right. exists ss. rewrite app_nil_r. now split.
  - split; [reflexivity|now left].
Qed.

Lemma single_unit (p : char16 -> bool) xs rest c c' :
  denotes (Class p 1 (Some 1%nat)) xs rest c c' ->
  c' = c /\ exists x, xs = [x] /\ p x = true.
Proof.
  intros H. apply denotes_Class_inv in H as (-> & Hp & Hlo & Hhi).
  split; [reflexivity|]. cbn in Hhi.
  destruct xs as [|x [|y xs]]; cbn in *; [lia| |lia].
  exists x. rewrite andb_true_r in Hp. now split.
Qed.

Lemma denotes_meridiem xs rest c c' :
  denotes (Opt (seqs [spaces; Class isAaPp 1 (Some 1%nat);
                      Class isMm 1 (Some 1%nat)])) xs rest c c' ->
  c' = c /\ meridiemShaped xs.
Proof.
  intros H. apply denotes_Opt_inv in H as [H | (-> & ->)].
  - apply denotes_seqs_cons in H as (ws & r1 & c1 & -> & Hws & H).
    apply denotes_seqs_cons in H as (x & r2 & c2 & -> & Hx & H).
    apply denotes_seqs_cons in H as (y & r3 & c3 & -> & Hy & H).
    apply denotes_seqs_nil in H as (-> & ->).
    apply denotes_spaces in Hws as (-> & Hws).
    apply single_unit in Hx as (-> & x0 & -> & Hx).
    apply single_unit in Hy as (-> & y0 & -> & Hy).
    split; [reflexivity|]. right. exists ws, x0, y0. now repeat split.
  - split; [reflexivity|now left].
Qed.

Lemma denotes_time xs rest c c' :
  denotes timePattern xs rest c c' -> c' = c /\ timeShaped xs.
Proof.
  unfold timePattern. intros H.
  apply denotes_seqs_cons in H as (h & r1 & c1 & -> & Hh & H).
  apply denotes_seqs_cons in H as (s1 & r2 & c2 & -> & Hs1 & H).
  apply denotes_seqs_cons in H as (mi & r3 & c3 & -> & Hmi & H).
  apply denotes_seqs_cons in H as (sec & r4 & c4 & -> & Hsec & H).
  apply denotes_seqs_cons in H as (mer & r5 & c5 & -> & Hmer & H).
  apply denotes_seqs_nil in H as (-> & ->).
  apply denotes_digits in Hh as (-> & Hh).
  apply denotes_lit in Hs1 as (-> & ->).
  apply denotes_digits in Hmi as (-> & Hmi).
  apply denotes_seconds in Hsec as (-> & Hsec).
  apply denotes_meridiem in Hmer as (-> & Hmer).
  split; [reflexivity|]. exists h, mi, sec, mer. rewrite app_nil_r.
  repeat split; try apply Hh; try apply Hmi; auto.
Qed.

Lemma nonempty_length (A : Type) (l : list A) :
  (1 <= List.length l)%nat -> l <> [].
Proof. destruct l; cbn; [lia|discriminate]. Qed.

(** What the line pattern denotes is a line of the expected shape. *)
Lemma denotes_line xs rest c' :
  denotes linePattern xs rest [] c' ->
  exists d t n m,
    c' = [(4%nat, m); (3%nat, n); (2%nat, t); (1%nat, d)]
    /\ rest = [] /\ lineShaped xs d t n m.
Proof.
  unfold linePattern. intros H.
  apply denotes_seqs_cons in H as (o & r1 & c1 & -> & Ho & H).
  apply denotes_seqs_cons in H as (d & r2 & c2 & -> & Hd & H).
  apply denotes_seqs_cons in H as (co & r3 & c3 & -> & Hco & H).
  apply denotes_seqs_cons in H as (w1 & r4 & c4 & -> & Hw1 & H).
  apply denotes_seqs_cons in H as (t & r5 & c5 & -> & Ht & H).
  apply denotes_seqs_cons in H as (cl & r6 & c6 & -> & Hcl & H).
  apply denotes_seqs_cons in H as (w2 & r7 & c7 & -> & Hw2 & H).
  apply denotes_seqs_cons in H as (da & r8 & c8 & -> & Hda & H).
  apply denotes_seqs_cons in H as (w3 & r9 & c9 & -> & Hw3 & H).
  apply denotes_seqs_cons in H as (n & r10 & c10 & -> & Hn & H).
  apply denotes_seqs_cons in H as (s1 & r11 & c11 & -> & Hs1 & H).
  apply denotes_seqs_cons in H as (w4 & r12 & c12 & -> & Hw4 & H).
  apply denotes_seqs_cons in H as (m & r13 & c13 & -> & Hm & H).
  apply denotes_seqs_cons in H as (e & r14 & c14 & -> & He & H).
  apply denotes_seqs_nil in H as (-> & ->).
  apply denotes_maybe in Ho as (-> & Ho).
  apply denotes_Group_inv in Hd as (c0 & -> & Hd).
  apply denotes_date in Hd as (-> & Hd).
  apply denotes_maybe in Hco as (-> & Hco).
  apply denotes_spaces in Hw1 as (-> & Hw1).
  apply denotes_Group_inv in Ht as (c0 & -> & Ht).
  apply denotes_time in Ht as (-> & Ht).
  apply denotes_maybe in Hcl as (-> & Hcl).
  apply denotes_spaces in Hw2 as (-> & Hw2).
  apply denotes_maybe in Hda as (-> & Hda).
  apply denotes_spaces in Hw3 as (-> & Hw3).
  apply denotes_Group_inv in Hn as (c0 & -> & Hn).
  apply denotes_Class_inv in Hn as (-> & Hn & Hnl & _).
  apply denotes_lit in Hs1 as (-> & ->).
  apply denotes_spaces in Hw4 as (-> & Hw4).
  apply denotes_Group_inv in Hm as (c0 & -> & Hm).
  apply denotes_Class_inv in Hm as (-> & Hm & Hml & _).
  apply denotes_End_inv in He as (-> & Hr & ->). cbn [app] in Hr. subst rest.
  exists d, t, n, m. split; [reflexivity|]. split; [reflexivity|].
  split; [exact Hd|]. split; [exact Ht|].
  split; [now apply nonempty_length|]. split; [exact Hn|].
  split; [now apply nonempty_length|]. split; [exact Hm|].
  exists o, co, w1, cl, w2, da, w3, w4.
  repeat (split; [assumption|]).
  rewrite !app_nil_r. cbn [app]. reflexivity.
Qed.

Lemma optional_maybe ch xs rest c :
  optional ch xs -> denotes (maybe ch) xs rest c c.
Proof.
  intros [-> | ->]; constructor; cbn; auto; try lia.
  now rewrite N.eqb_refl.
Qed.

Lemma lit_denotes ch rest c : denotes (lit ch) [ch] rest c c.
Proof. constructor; cbn; auto. now rewrite N.eqb_refl. Qed.

Lemma blank_spaces xs rest c : blank xs -> denotes spaces xs rest c c.
Proof. intros H. constructor; cbn; auto. lia. Qed.

Lemma digitsIn_digits lo hi xs rest c :
  digitsIn lo hi xs -> denotes (digits lo hi) xs rest c c.
Proof. intros (H & H1 & H2). constructor; cbn; auto. Qed.

Lemma seqs_cons_denotes r rs xs ys rest c c1 c2 :
  denotes r xs (ys ++ rest) c c1 -> denotes (seqs rs) ys rest c1 c2 ->
  denotes (seqs (r :: rs)) (xs ++ ys) rest c c2.
Proof. apply DSeq. Qed.

Lemma seqs_nil_denotes rest c : denotes (seqs []) [] rest c c.
Proof. apply DEmpty. Qed.

Lemma dateShaped_denotes d rest c :
  dateShaped d -> denotes datePattern d rest c c.
Proof.
  intros (a & b & y & -> & Ha & Hb & Hy). unfold datePattern.
  change (a ++ 47%N :: b ++ 47%N :: y)
    with (a ++ [47%N] ++ b ++ [47%N] ++ y).
  rewrite <- (app_nil_r y).
  repeat (eapply seqs_cons_denotes;
          [first [apply digitsIn_digits; eassumption|apply lit_denotes]|]).
  apply seqs_nil_denotes.
Qed.

Lemma timeShaped_denotes t rest c :
  timeShaped t -> denotes timePattern t rest c c.
Proof.
  intros (h & mi & sec & mer & -> & Hh & Hmi & Hsec & Hmer).
  unfold timePattern.
  change (h ++ 58%N :: mi ++ sec ++ mer)
    with (h ++ [58%N] ++ mi ++ sec ++ mer).
  rewrite <- (app_nil_r mer).
  eapply seqs_cons_denotes; [now apply digitsIn_digits|].
  eapply seqs_cons_denotes; [apply lit_denotes|].
  eapply seqs_cons_denotes; [now apply digitsIn_digits|].
  eapply seqs_cons_denotes.
  { destruct Hsec as [-> | (ss & -> & Hss)]; [apply DOptNone|].
    apply DOptSome. change (58%N :: ss) with ([58%N] ++ ss).
    rewrite <- (app_nil_r ss).
    eapply seqs_cons_denotes; [apply lit_denotes|].
    eapply seqs_cons_denotes; [now apply digitsIn_digits|].
    apply seqs_nil_denotes. }
  eapply seqs_cons_denotes; [|apply seqs_nil_denotes].
  destruct Hmer as [-> | (ws & x & y & -> & Hws & Hx & Hy)]; [apply DOptNone|].
  apply DOptSome. change [x; y] with ([x] ++ [y] ++ []).
  eapply seqs_cons_denotes; [now apply blank_spaces|].
  eapply seqs_cons_denotes; [constructor; cbn; auto; now rewrite Hx|].
  eapply seqs_cons_denotes; [constructor; cbn; auto; now rewrite Hy|].
  apply seqs_nil_denotes.
Qed.

Lemma length_nonempty (A : Type) (l : list A) :
  l <> [] -> (1 <= List.length l)%nat.
Proof. destruct l; cbn; [contradiction|lia]. Qed.

Lemma lineShaped_denotes line d t n m :
  lineShaped line d t n m ->
  denotes linePattern line [] []
          [(4%nat, m); (3%nat, n); (2%nat, t); (1%nat, d)].
Proof.
  intros (Hd & Ht & Hn & Hnc & Hm & Hmd
          & o & co & w1 & cl & w2 & da & w3 & w4
          & Ho & Hco & Hw1 & Hcl & Hw2 & Hda & Hw3 & Hw4 & ->).
  unfold linePattern.
  replace (n ++ 58%N :: w4 ++ m) with (n ++ [58%N] ++ w4 ++ m ++ [])
    by now rewrite app_nil_r.
  eapply seqs_cons_denotes; [now apply optional_maybe|].
  eapply seqs_cons_denotes; [apply DGroup; now apply dateShaped_denotes|].
  eapply seqs_cons_denotes; [now apply optional_maybe|].
  eapply seqs_cons_denotes; [now apply blank_spaces|].
  eapply seqs_cons_denotes; [apply DGroup; now apply timeShaped_denotes|].
  eapply seqs_cons_denotes; [now apply optional_maybe|].
  eapply seqs_cons_denotes; [now apply blank_spaces|].
  eapply seqs_cons_denotes; [now apply optional_maybe|].
  eapply seqs_cons_denotes; [now apply blank_spaces|].
  eapply seqs_cons_denotes.
  { apply DGroup. constructor; cbn; auto. now apply length_nonempty. }
  eapply seqs_cons_denotes; [apply lit_denotes|].
  eapply seqs_cons_denotes; [now apply blank_spaces|].
  eapply seqs_cons_denotes.
  { apply DGroup. constructor; cbn; auto. now apply length_nonempty. }
  eapply (seqs_cons_denotes EndAnchor [] [] [] []); [apply DEnd|].
  apply seqs_nil_denotes.
Qed.

(** [matchLine] against the shape: soundness and completeness. *)
Lemma matchLine_shaped line d t n m :
  matchLine line = Some (d, t, n, m) -> lineShaped line d t n m.
Proof.
  unfold matchLine, exec. intros H.
  destruct (run linePattern line [] (fun _ c => Some c)) as [caps|] eqn:E;
    [|discriminate].
  apply run_sound in E as (xs & rest & c' & -> & Hden & Hk).
  injection Hk as <-.
  apply denotes_line in Hden as (d' & t' & n' & m' & -> & -> & Hs).
  cbn in H. injection H as <- <- <- <-. now rewrite app_nil_r.
Qed.

Lemma shaped_matchLine line d t n m :
  lineShaped line d t n m -> matchLine line <> None.
Proof.
  intros H. apply lineShaped_denotes in H.
  destruct (run_complete _ _ _ _ _ H (fun _ c => Some c) _ eq_refl)
    as [res E].
  rewrite app_nil_r in E. unfold matchLine, exec. rewrite E.
  apply run_sound in E as (xs & rest & c' & Hl & Hden & Hk).
  injection Hk as <-.
  apply denotes_line in Hden as (d' & t' & n' & m' & -> & -> & Hs).
  cbn. discriminate.
Qed.

End ShapeFacts.

Section TrimFacts.

Lemma trimStart_length (s : jsstring) :
  (List.length (trimStart s) <= List.length s)%nat.
Proof.
  induction s as [|c s IH]; cbn [trimStart List.length]; [lia|].
  destruct (isWhiteSpace c); cbn [List.length]; lia.
Qed.

Lemma trim_length (s : jsstring) :
  (List.length (trim s) <= List.length (trimStart s))%nat.
Proof.
  unfold trim, trimEnd. rewrite length_rev.
  etransitivity; [apply trimStart_length|]. now rewrite length_rev.
Qed.

(** A string that [trim] leaves alone starts with no white space. *)
Lemma trim_fixed_head (c : char16) (s : jsstring) :
  trim (c :: s) = c :: s -> isWhiteSpace c = false.
Proof.
  intros H. destruct (isWhiteSpace c) eqn:E; [|reflexivity]. exfalso.
  pose proof (trim_length (c :: s)) as L. rewrite H in L.
  cbn [trimStart] in L. rewrite E in L.
  pose proof (trimStart_length s). cbn [List.length] in L. lia.
Qed.

Lemma trimStart_fixed (s : jsstring) :
  halts isWhiteSpace s -> trimStart s = s.
Proof.
  intros [-> | (c & r & -> & H)]; cbn [trimStart]; [reflexivity|].
  now rewrite H.
Qed.

End TrimFacts.

Section FirstChoiceFacts.

Import Regex.
Import Parser.

Lemma halts_cons (p : char16 -> bool) (c : char16) (s : jsstring) :
  p c = false -> halts p (c :: s).
Proof. intros H. right. eauto. Qed.

Lemma halts_app (p : char16 -> bool) (s rest : jsstring) :
  s <> [] -> halts p s -> halts p (s ++ rest).
Proof.
  intros Hn [-> | (c & r & -> & H)]; [contradiction|]. now apply halts_cons.
Qed.

Lemma takes_maybe_skip ch rest c :
  halts (N.eqb ch) rest -> takes (maybe ch) [] rest c c.
Proof. intros H. constructor; cbn; auto; try lia. now right. Qed.

Lemma takes_maybe_one ch rest c : takes (maybe ch) [ch] rest c c.
Proof.
  constructor; cbn; auto; [now rewrite N.eqb_refl|now left].
Qed.

Lemma takes_lit ch rest c : takes (lit ch) [ch] rest c c.
Proof.
  constructor; cbn; auto; [now rewrite N.eqb_refl|now left].
Qed.

Lemma takes_spaces xs rest c :
  blank xs -> halts isWhiteSpace rest -> takes spaces xs rest c c.
Proof. intros H Hr. constructor; cbn; auto; [lia|now right]. Qed.

Lemma takes_digits_full lo hi xs rest c :
  digitsIn lo hi xs -> List.length xs = hi ->
  takes (digits lo hi) xs rest c c.
Proof.
  intros (H & H1 & H2) E. constructor; cbn; auto. left. now rewrite E.
Qed.

Lemma takes_digits lo hi xs rest c :
  digitsIn lo hi xs -> halts isDigit rest -> takes (digits lo hi) xs rest c c.
Proof. intros (H & H1 & H2) Hr. constructor; cbn; auto. now right. Qed.

Lemma takes_seqs_cons r rs xs ys rest c c1 c2 :
  takes r xs (ys ++ rest) c c1 -> takes (seqs rs) ys rest c1 c2 ->
  takes (seqs (r :: rs)) (xs ++ ys) rest c c2.
Proof. apply TSeq. Qed.

Lemma takes_seqs_nil rest c : takes (seqs []) [] rest c c.
Proof. apply TEmpty. Qed.

Lemma takes_date d rest c :
  dateShaped d -> halts isDigit rest -> takes datePattern d rest c c.
Proof.
  intros (a & b & y & -> & Ha & Hb & Hy) Hr. unfold datePattern.
  replace (a ++ 47%N :: b ++ 47%N :: y)
    with (a ++ [47%N] ++ b ++ [47%N] ++ y ++ [])
    by now rewrite app_nil_r.
  eapply takes_seqs_cons;
    [apply takes_digits; [exact Ha|now apply halts_cons]|].
  eapply takes_seqs_cons; [apply takes_lit|].
  eapply takes_seqs_cons;
    [apply takes_digits; [exact Hb|now apply halts_cons]|].
  eapply takes_seqs_cons; [apply takes_lit|].
  eapply takes_seqs_cons; [apply takes_digits; [exact Hy|exact Hr]|].
  apply takes_seqs_nil.
Qed.

(** Where the seconds and the am/pm mark cannot start. *)
Lemma no_seconds (ch : char16) (s : jsstring) c k :
  (ch =? 58)%N = false ->
  run (seqs [lit 58%N; digits 2 2]) (ch :: s) c k = None.
Proof.
  intros H. unfold seqs, lit. cbn [fold_right run greedy].
  rewrite N.eqb_sym, H. reflexivity.
Qed.

Lemma digitsIn_head lo hi xs :
  digitsIn (S lo) hi xs -> exists x xs', xs = x :: xs' /\ isDigit x = true.
Proof.
  intros (H & H1 & _). destruct xs as [|x xs']; cbn in *; [lia|].
  apply andb_true_iff in H as [H _]. eauto.
Qed.

Lemma digitsIn_exact n xs : digitsIn n n xs -> List.length xs = n.
Proof. intros (_ & H). lia. Qed.

Lemma AaPp_not_space x : isAaPp x = true -> isWhiteSpace x = false.
Proof.
  unfold isAaPp. intros H.
  repeat (apply orb_true_iff in H as [H|H]); apply N.eqb_eq in H; subst x;
    reflexivity.
Qed.

Lemma AaPp_not_colon x : isAaPp x = true -> (x =? 58)%N = false.
Proof.
  unfold isAaPp. intros H.
  repeat (apply orb_true_iff in H as [H|H]); apply N.eqb_eq in H; subst x;
    reflexivity.
Qed.

Lemma space_not_colon x : isWhiteSpace x = true -> (x =? 58)%N = false.
Proof.
  intros H. destruct (N.eqb_spec x 58) as [->|]; [discriminate H|reflexivity].
Qed.

(** The time token is taken whole in front of a [rest] that starts neither
    seconds nor an am/pm mark. *)
Lemma takes_time t rest c :
  timeShaped t ->
  halts (fun x => (x =? 58)%N) rest ->
  (forall k,
     run (seqs [spaces; Class isAaPp 1 (Some 1%nat);
                Class isMm 1 (Some 1%nat)]) rest c k = None) ->
  takes timePattern t rest c c.
Proof.
  intros (h & mi & sec & mer & -> & Hh & Hmi & Hsec & Hmer) Hcolon Hmark.
  unfold timePattern.
  replace (h ++ 58%N :: mi ++ sec ++ mer)
    with (h ++ [58%N] ++ mi ++ sec ++ mer ++ [])
    by now rewrite app_nil_r.
  eapply takes_seqs_cons;
    [apply takes_digits; [exact Hh|now apply halts_cons]|].
  eapply takes_seqs_cons; [apply takes_lit|].
  eapply takes_seqs_cons;
    [apply takes_digits_full; [exact Hmi|now apply digitsIn_exact]|].
  eapply takes_seqs_cons.
  { destruct Hsec as [-> | (ss & -> & Hss)].
    - apply TOptNone. intros k. cbn [app].
      destruct Hmer as [-> | (ws & x & y & -> & Hws & Hx & Hy)].
      + cbn [app].
        destruct Hcolon as [-> | (c0 & r0 & -> & H0)]; [reflexivity|].
        now apply no_seconds.
      + destruct ws as [|w ws]; cbn [app].
        * apply no_seconds. now apply AaPp_not_colon.
        * apply no_seconds. apply space_not_colon.
          unfold blank in Hws. cbn [forallb] in Hws.
          now apply andb_true_iff in Hws.
    - apply TOptSome. change (58%N :: ss) with ([58%N] ++ ss).
      rewrite <- (app_nil_r ss).
      eapply takes_seqs_cons; [apply takes_lit|].
      eapply takes_seqs_cons;
        [apply takes_digits_full; [exact Hss|now apply digitsIn_exact]|].
      apply takes_seqs_nil. }
  eapply takes_seqs_cons; [|apply takes_seqs_nil].
  destruct Hmer as [-> | (ws & x & y & -> & Hws & Hx & Hy)].
  - apply TOptNone. exact Hmark.
  - apply TOptSome. change [x; y] with ([x] ++ [y] ++ []).
    eapply takes_seqs_cons.
    { apply takes_spaces; [exact Hws|]. apply halts_cons.
      now apply AaPp_not_space. }
    eapply takes_seqs_cons.
    { constructor; cbn; auto; [now rewrite Hx|now left]. }
    eapply takes_seqs_cons.
    { constructor; cbn; auto; [now rewrite Hy|now left]. }
    apply takes_seqs_nil.
Qed.

Lemma storable_head allowed s :
  storable allowed s ->
  exists x s', s = x :: s' /\ isWhiteSpace x = false /\ allowed x = true.
Proof.
  intros (Hn & Ht & Ha). destruct s as [|x s']; [contradiction|].
  exists x, s'. split; [reflexivity|].
  split; [now apply (trim_fixed_head x s')|].
  cbn [forallb] in Ha. now apply andb_true_iff in Ha.
Qed.

Lemma dateShaped_head d :
  dateShaped d -> exists x d', d = x :: d' /\ isDigit x = true.
Proof.
  intros (a & b & y & -> & Ha & _).
  apply digitsIn_head in Ha as (x & a' & -> & Hx). cbn [app]. eauto.
Qed.

Lemma timeShaped_head t :
  timeShaped t -> exists x t', t = x :: t' /\ isDigit x = true.
Proof.
  intros (h & mi & sec & mer & -> & Hh & _).
  apply digitsIn_head in Hh as (x & h' & -> & Hx). cbn [app]. eauto.
Qed.

Lemma digit_not (ch x : char16) :
  isDigit ch = false -> isDigit x = true -> (ch =? x)%N = false.
Proof.
  intros H Hx. destruct (N.eqb_spec ch x) as [->|]; [congruence|reflexivity].
Qed.

Lemma digit_is_not_space (x : char16) :
  isDigit x = true -> isWhiteSpace x = false.
Proof.
  unfold isDigit, isWhiteSpace. intros H.
  apply andb_true_iff in H as [H1 H2].
  apply N.leb_le in H1, H2.
  repeat match goal with
  | |- context [(?a <=? ?b)%N] => destruct (N.leb_spec a b); try lia
  | |- context [(?a =? ?b)%N] => destruct (N.eqb_spec a b); try lia
  end; reflexivity.
Qed.

(** The tail of a line, from the contact name on. *)
Lemma takes_tail n m c :
  storable notColon n -> storable dot m ->
  takes (seqs [Group 3 (Class notColon 1 None); lit 58%N; spaces;
               Group 4 (Class dot 1 None); EndAnchor])
        (n ++ str ": " ++ m) [] c ((4%nat, m) :: (3%nat, n) :: c).
Proof.
  intros Hn Hm.
  pose proof (storable_head _ _ Hm) as (x & m' & Em & Hx & _).
  destruct Hn as (Hn & _ & Hnc). destruct Hm as (Hm & _ & Hmd).
  replace (n ++ str ": " ++ m) with (n ++ [58%N] ++ [32%N] ++ m ++ [])
    by now rewrite app_nil_r.
  eapply takes_seqs_cons.
  { apply TGroup. constructor; cbn; auto; [now apply length_nonempty|].
    right. now apply halts_cons. }
  eapply takes_seqs_cons; [apply takes_lit|].
  eapply takes_seqs_cons.
  { apply takes_spaces; [reflexivity|]. rewrite Em. now apply halts_cons. }
  eapply takes_seqs_cons.
  { apply TGroup. constructor; cbn; auto; [now apply length_nonempty|].
    right. now left. }
  eapply (takes_seqs_cons EndAnchor [] [] [] []); [apply TEnd|].
  apply takes_seqs_nil.
Qed.

Lemma no_mark_at_dash (s : jsstring) c k :
  run (seqs [spaces; Class isAaPp 1 (Some 1%nat); Class isMm 1 (Some 1%nat)])
      (32%N :: 45%N :: s) c k = None.
Proof. reflexivity. Qed.

Lemma no_mark_at_bracket (s : jsstring) c k :
  run (seqs [spaces; Class isAaPp 1 (Some 1%nat); Class isMm 1 (Some 1%nat)])
      (93%N :: s) c k = None.
Proof. reflexivity. Qed.

Lemma takes_dashLine d t n m :
  dateShaped d -> timeShaped t -> storable notColon n -> storable dot m ->
  takes linePattern (dashLine d t n m) [] []
        [(4%nat, m); (3%nat, n); (2%nat, t); (1%nat, d)].
Proof.
  intros Hd Ht Hn Hm.
  pose proof (dateShaped_head _ Hd) as (dx & d' & Ed & Hdx).
  pose proof (timeShaped_head _ Ht) as (tx & t' & Et & Htx).
  pose proof (storable_head _ _ Hn) as (nx & n' & En & Hnx & _).
  unfold linePattern, dashLine.
  change (d ++ str ", " ++ t ++ str " - " ++ n ++ str ": " ++ m)
    with ([] ++ d ++ [44%N] ++ [32%N] ++ t ++ [] ++ [32%N] ++ [45%N]
          ++ [32%N] ++ n ++ str ": " ++ m).
  eapply (takes_seqs_cons _ _ []).
  { apply takes_maybe_skip. rewrite Ed. cbn [app]. apply halts_cons.
    now apply digit_not. }
  eapply takes_seqs_cons.
  { apply TGroup. apply takes_date; [exact Hd|]. now apply halts_cons. }
  eapply takes_seqs_cons; [apply takes_maybe_one|].
  eapply takes_seqs_cons.
  { apply takes_spaces; [reflexivity|]. rewrite Et. cbn [app].
    apply halts_cons. now apply digit_is_not_space. }
  eapply takes_seqs_cons.
  { apply TGroup. apply takes_time; [exact Ht|now apply halts_cons|].
    intros k. apply no_mark_at_dash. }
  eapply (takes_seqs_cons _ _ []).
  { apply takes_maybe_skip. now apply halts_cons. }
  eapply takes_seqs_cons.
  { apply takes_spaces; [reflexivity|]. now apply halts_cons. }
  eapply takes_seqs_cons; [apply takes_maybe_one|].
  eapply takes_seqs_cons.
  { apply takes_spaces; [reflexivity|]. rewrite En. cbn [app].
    now apply halts_cons. }
  now apply takes_tail.
Qed.

Lemma takes_bracketLine d t n m :
  dateShaped d -> timeShaped t -> storable notColon n -> storable dot m ->
  halts (N.eqb 45) n ->
  takes linePattern (bracketLine d t n m) [] []
        [(4%nat, m); (3%nat, n); (2%nat, t); (1%nat, d)].
Proof.
  intros Hd Ht Hn Hm Hdash.
  pose proof (timeShaped_head _ Ht) as (tx & t' & Et & Htx).
  pose proof (storable_head _ _ Hn) as (nx & n' & En & Hnx & _).
  unfold linePattern, bracketLine.
  change (91%N :: d ++ str ", " ++ t ++ str "] " ++ n ++ str ": " ++ m)
    with ([91%N] ++ d ++ [44%N] ++ [32%N] ++ t ++ [93%N] ++ [32%N] ++ []
          ++ [] ++ n ++ str ": " ++ m).
  eapply takes_seqs_cons; [apply takes_maybe_one|].
  eapply takes_seqs_cons.
  { apply TGroup. apply takes_date; [exact Hd|]. now apply halts_cons. }
  eapply takes_seqs_cons; [apply takes_maybe_one|].
  eapply takes_seqs_cons.
  { apply takes_spaces; [reflexivity|]. rewrite Et. cbn [app].
    apply halts_cons. now apply digit_is_not_space. }
  eapply takes_seqs_cons.
  { apply TGroup. apply takes_time; [exact Ht|now apply halts_cons|].
    intros k. apply no_mark_at_bracket. }
  eapply takes_seqs_cons; [apply takes_maybe_one|].
  eapply takes_seqs_cons.
  { apply takes_spaces; [reflexivity|]. rewrite En. cbn [app].
    now apply halts_cons. }
  eapply (takes_seqs_cons _ _ []).
  { apply takes_maybe_skip. cbn [app]. rewrite <- app_assoc.
    apply halts_app; [|exact Hdash]. now destruct Hn. }
  eapply (takes_seqs_cons _ _ []).
  { apply takes_spaces; [reflexivity|]. rewrite En. cbn [app].
    now apply halts_cons. }
  now apply takes_tail.
Qed.

(** A first-choice match is what [matchLine] returns. *)
Lemma takes_matchLine line d t n m :
  takes linePattern line [] []
        [(4%nat, m); (3%nat, n); (2%nat, t); (1%nat, d)] ->
  matchLine line = Some (d, t, n, m).
Proof.
  intros H. unfold matchLine, exec.
  pose proof (run_first _ _ _ _ _ H (fun _ c => Some c) _ eq_refl) as E.
  rewrite app_nil_r in E. rewrite E. reflexivity.
Qed.

End FirstChoiceFacts.

Section TrimShape.

Lemma trimStart_split (s : jsstring) :
  exists ws, s = ws ++ trimStart s /\ blank ws.
Proof.
  induction s as [|c s (ws & E & B)]; cbn [trimStart].
  - exists []. now split.
  - destruct (isWhiteSpace c) eqn:Hc.
    + exists (c :: ws). cbn [app]. split; [now f_equal|].
      unfold blank. cbn [forallb]. now rewrite Hc.
    + exists []. now split.
Qed.

Lemma trimStart_halts (s : jsstring) : halts isWhiteSpace (trimStart s).
Proof.
  induction s as [|c s IH]; cbn [trimStart]; [now left|].
  destruct (isWhiteSpace c) eqn:Hc; [exact IH|]. now apply halts_cons.
Qed.

Lemma trimEnd_split (s : jsstring) :
  exists ws, s = trimEnd s ++ ws /\ blank ws.
Proof.
  unfold trimEnd. destruct (trimStart_split (rev s)) as (ws & E & B).
  exists (rev ws). split.
  - rewrite <- (rev_involutive s) at 1. rewrite E at 1. apply rev_app_distr.
  - unfold blank in *. rewrite forallb_forall in *.
    intros x Hx. apply B. now apply in_rev.
Qed.

Lemma trimEnd_fixed (s : jsstring) :
  halts isWhiteSpace (rev s) -> trimEnd s = s.
Proof.
  intros H. unfold trimEnd. rewrite (trimStart_fixed _ H).
  apply rev_involutive.
Qed.

(** [trim] is idempotent: what the parser stores has no white space at
    either end. *)
Lemma trim_idempotent (s : jsstring) : trim (trim s) = trim s.
Proof.
  unfold trim at 1.
  assert (Hstart : trimStart (trim s) = trim s).
  { apply trimStart_fixed. unfold trim.
    destruct (trimEnd_split (trimStart s)) as (ws & E & _).
    destruct (trimEnd (trimStart s)) as [|x v] eqn:Ev; [now left|].
    pose proof (trimStart_halts s) as [H0 | (c & r & Hc & Hw)].
    - rewrite H0 in E. discriminate.
    - rewrite Hc in E. cbn [app] in E. injection E as <- _.
      now apply halts_cons. }
  rewrite Hstart. apply trimEnd_fixed.
  unfold trim, trimEnd. rewrite rev_involutive. apply trimStart_halts.
Qed.

Lemma forallb_trimStart (p : char16 -> bool) (s : jsstring) :
  forallb p s = true -> forallb p (trimStart s) = true.
Proof.
  intros H. destruct (trimStart_split s) as (ws & E & _).
  rewrite E, forallb_app in H. now apply andb_true_iff in H.
Qed.

Lemma forallb_trim (p : char16 -> bool) (s : jsstring) :
  forallb p s = true -> forallb p (trim s) = true.
Proof.
  intros H. apply forallb_trimStart in H. unfold trim.
  destruct (trimEnd_split (trimStart s)) as (ws & E & _).
  rewrite E, forallb_app in H. now apply andb_true_iff in H.
Qed.

End TrimShape.

Section SplitFacts.

Lemma split_nonempty (sep : char16) (s : jsstring) : split sep s <> [].
Proof.
  induction s as [|c s IH]; cbn [split]; [discriminate|].
  destruct (N.eqb c sep); [discriminate|].
  destruct (split sep s); discriminate.
Qed.

Lemma split_app (sep : char16) (a b : jsstring) :
  split sep (a ++ sep :: b) = split sep a ++ split sep b.
Proof.
  induction a as [|c a IH]; cbn [app split].
  - now rewrite N.eqb_refl.
  - destruct (N.eqb c sep); [now rewrite IH|].
    rewrite IH. pose proof (split_nonempty sep a).
    destruct (split sep a); [contradiction|reflexivity].
Qed.

Lemma split_single (sep : char16) (s : jsstring) :
  forallb (fun c => negb (N.eqb c sep)) s = true -> split sep s = [s].
Proof.
  induction s as [|c s IH]; cbn [forallb split]; [reflexivity|].
  intros H. apply andb_true_iff in H as [H1 H2].
  apply negb_true_iff in H1. rewrite H1, (IH H2). reflexivity.
Qed.

End SplitFacts.

Section DroppedLines.

Import Parser.

(** A matched line opens with a bracket or a digit and closes with a unit
    that [.] accepts. *)
Lemma matched_line_ends (line d t n m : jsstring) :
  matchLine line = Some (d, t, n, m) ->
  (exists c s, line = c :: s /\ ((c =? 91)%N = true \/ isDigit c = true))
  /\ (exists s c, line = s ++ [c] /\ isLineTerminator c = false).
Proof.
  intros H. apply matchLine_shaped in H.
  destruct H as (Hd & Ht & Hn & Hnc & Hm & Hmd
                 & o & co & w1 & cl & w2 & da & w3 & w4
                 & Ho & _ & _ & _ & _ & _ & _ & _ & ->).
  split.
  - apply dateShaped_head in Hd as (x & d' & -> & Hx).
    destruct Ho as [-> | ->]; cbn [app]; eauto.
  - destruct (exists_last Hm) as (m' & c & ->).
    exists (o ++ d ++ co ++ w1 ++ t ++ cl ++ w2 ++ da ++ w3 ++ n
            ++ 58%N :: w4 ++ m'), c.
    split.
    + repeat first [rewrite <- app_assoc | progress cbn [app]]. reflexivity.
    + rewrite forallb_app in Hmd. apply andb_true_iff in Hmd as [_ Hc].
      cbn [forallb] in Hc. rewrite andb_true_r in Hc.
      unfold dot in Hc. now apply negb_true_iff in Hc.
Qed.

Lemma unopened_line_unmatched (line : jsstring) :
  halts (fun c => (c =? 91)%N || isDigit c) line -> matchLine line = None.
Proof.
  intros H. destruct (matchLine line) as [[[[d t] n] m]|] eqn:E;
    [|reflexivity].
  apply matched_line_ends in E as ((c & s & -> & Hc) & _).
  destruct H as [H | (c0 & s0 & H & Hh)]; [discriminate|].
  injection H as <- <-. apply orb_false_iff in Hh as [H1 H2].
  destruct Hc; congruence.
Qed.

Lemma terminated_line_unmatched (line : jsstring) (c : char16) :
  isLineTerminator c = true -> matchLine (line ++ [c]) = None.
Proof.
  intros H. destruct (matchLine (line ++ [c])) as [[[[d t] n] m]|] eqn:E;
    [|reflexivity].
  apply matched_line_ends in E as (_ & (s & c' & E & Hc)).
  apply app_inj_tail in E as [_ <-]. congruence.
Qed.

Lemma empty_line_unmatched : matchLine [] = None.
Proof. reflexivity. Qed.

(** What the parser makes of the lines of a text. *)
Lemma processWhatsAppFile_flat_map (content : jsstring) :
  processWhatsAppFile content
  = match flat_map parsedOf (lines content) with
    | [] => Throw noMessages
    | messages => Return messages
    end.
Proof.
  unfold processWhatsAppFile. rewrite fold_pushLine, app_nil_l.
  now destruct (flat_map parsedOf (lines content)).
Qed.

Lemma parsedOf_filtered (ls : list jsstring) :
  flat_map parsedOf (List.filter (fun line => truthy (trim line)) ls)
  = flat_map parsedOf ls.
Proof.
  induction ls as [|l ls IH]; cbn [List.filter flat_map]; [reflexivity|].
  destruct (truthy (trim l)) eqn:E; cbn [flat_map]; [now rewrite IH|].
  rewrite IH. replace (parsedOf l) with (@nil ParsedMessage); [reflexivity|].
  symmetry. apply parsedOf_nil.
  destruct (matchLine l) eqn:Em; [|reflexivity].
  assert (Hm : matchLine l <> None) by congruence.
  destruct (matched_opening l Hm) as (c & s & -> & Hc).
  pose proof (trim_nonempty c s Hc) as Hn.
  destruct (trim (c :: s)); [contradiction|discriminate].
Qed.

End DroppedLines.

(* ================================================================== *)
(** * Facts about the analysis *)

Section ThrowInversion.

Import Obj.

Variables k1 k2 : jsstring.

Lemma responseStep_throw_inv (rt : obj (list number)) (pc : Message * Message)
    (e : exception) :
  get k1 rt <> None -> get k2 rt <> None ->
  responseStep rt pc = Throw e -> e = TypeError /\ throwing k1 k2 pc.
Proof.
  intros H1 H2. destruct pc as [previous current].
  unfold responseStep, throwing. cbn [fst snd].
  destruct (JsString.eqb (contact current) (contact previous)) eqn:Ec;
    cbn [negb]; [discriminate|].
  destruct (lt (elapsed previous current (1000 * 60)) (ofZ 1440)) eqn:El;
    [|discriminate].
  destruct (get (contact current) rt) eqn:Eg; [discriminate|].
  intros H. injection H as <-. split; [reflexivity|].
  apply eqb_neq in Ec. repeat split; auto; intros E; rewrite E in Eg;
    contradiction.
Qed.

Lemma responseStep_keeps (rt rt' : obj (list number))
    (pc : Message * Message) :
  responseStep rt pc = Return rt' ->
  forall k, get k rt <> None -> get k rt' <> None.
Proof.
  destruct pc as [previous current]. unfold responseStep. intros E.
  destruct (negb _); [|injection E as <-; auto].
  destruct (lt _ _); [|injection E as <-; auto].
  destruct (get (contact current) rt); [|discriminate].
  injection E as <-. intros k. apply set_keeps_keys.
Qed.

Lemma foldM_responseStep_keeps (l : list (Message * Message)) :
  forall rt rt',
    foldM responseStep l rt = Return rt' ->
    forall k, get k rt <> None -> get k rt' <> None.
Proof.
  induction l as [|pc l IH]; intros rt rt' H k Hk; cbn [foldM] in H.
  - now injection H as <-.
  - destruct (responseStep rt pc) as [rt1|e] eqn:E; cbn [bind] in H;
      [|discriminate].
    apply (IH rt1 rt' H). now apply (responseStep_keeps rt rt1 pc).
Qed.

Lemma foldM_responseStep_throw_inv (l : list (Message * Message)) :
  forall rt e,
    get k1 rt <> None -> get k2 rt <> None ->
    foldM responseStep l rt = Throw e ->
    e = TypeError /\ exists pc, In pc l /\ throwing k1 k2 pc.
Proof.
  induction l as [|pc l IH]; intros rt e H1 H2 H; cbn [foldM] in H.
  - discriminate.
  - destruct (responseStep rt pc) as [rt'|e'] eqn:E; cbn [bind] in H.
    + pose proof (responseStep_keeps rt rt' pc E) as Hkeep.
      destruct (IH rt' e (Hkeep _ H1) (Hkeep _ H2) H) as (He & pc' & Hin & Ht).
      split; [exact He|]. exists pc'. split; [now right|exact Ht].
    + injection H as <-.
      destruct (responseStep_throw_inv rt pc e' H1 H2 E) as (He & Ht).
      split; [exact He|]. exists pc. split; [now left|exact Ht].
Qed.

End ThrowInversion.

(** When the closure throws, it throws a TypeError, in the response time
    loop, on a reply by a stranger. *)
Lemma body_throw_inv (toLowerCase toUpperCase : jsstring -> jsstring)
    (messages sortedMessages : list Message) (e : exception) :
  body toLowerCase toUpperCase messages sortedMessages = Throw e ->
  e = TypeError
  /\ exists pc,
       In pc (JsArray.adjacent sortedMessages)
       /\ throwing (key (contact1 messages)) (key (contact2 messages)) pc.
Proof.
  unfold body, avgResponseTime, responseTimes. intros H.
  destruct (foldM responseStep (JsArray.adjacent sortedMessages)
              (Obj.literal2 (key (contact1 messages)) []
                            (key (contact2 messages)) [])) as [rt|e'] eqn:E.
  - exfalso. cbn [bind] in H. unfold avgOf in H.
    pose proof (foldM_responseStep_keeps _ _ _ E) as Hkeep.
    destruct (Obj.get (key (contact1 messages)) rt) eqn:E1.
    2:{ revert E1. apply Hkeep, literal2_has_fst. }
    destruct (Obj.get (key (contact2 messages)) rt) eqn:E2.
    2:{ revert E2. apply Hkeep, literal2_has_snd. }
    discriminate H.
  - cbn [bind] in H. injection H as <-.
    apply (foldM_responseStep_throw_inv _ _ _ _ _
             (literal2_has_fst _ _ _ _ _) (literal2_has_snd _ _ _ _ _) E).
Qed.

Section SecondContact.

Lemma fold_addOnce_prefix (l seen : list jsstring) :
  exists rest, fold_left addOnce l seen = seen ++ rest.
Proof.
  revert seen. induction l as [|c l IH]; intros seen; cbn [fold_left].
  - exists []. now rewrite app_nil_r.
  - unfold addOnce at 2. destruct (existsb (JsString.eqb c) seen).
    + apply IH.
    + destruct (IH (seen ++ [c])) as [rest ->]. exists (c :: rest).
      now rewrite <- app_assoc.
Qed.

Lemma fold_addOnce_second (l : list jsstring) (a : jsstring) :
  nth_error (fold_left addOnce l [a]) 1
  = find (fun x => negb (JsString.eqb x a)) l.
Proof.
  induction l as [|x l IH]; cbn [fold_left find]; [reflexivity|].
  unfold addOnce at 2. cbn [existsb]. rewrite orb_false_r.
  destruct (JsString.eqb x a); cbn [negb]; [exact IH|].
  destruct (fold_addOnce_prefix l ([a] ++ [x])) as [rest ->]. reflexivity.
Qed.

Lemma find_map (A B : Type) (p : B -> bool) (g : A -> B) (l : list A) :
  find p (List.map g l) = option_map g (find (fun x => p (g x)) l).
Proof.
  induction l as [|x l IH]; cbn [List.map find]; [reflexivity|].
  destruct (p (g x)); [reflexivity|exact IH].
Qed.

Lemma contact2_second (m : Message) (rest : list Message) :
  contact2 (m :: rest) = option_map contact (firstOther (contact m) rest).
Proof.
  unfold contact2, contacts, distinct, firstOther.
  change (fold_left addOnce (List.map contact (m :: rest)) [])
    with (fold_left addOnce (List.map contact rest) [contact m]).
  now rewrite fold_addOnce_second, find_map.
Qed.

End SecondContact.

Section BucketFacts.

Lemma bump_ofZ (j : Z) (zs : list Z) :
  0 <= j ->
  JsArray.bump (ofZ j) (List.map ofZ zs)
  = List.map ofZ (incrAt (Z.to_nat j) zs).
Proof.
  intros Hj. unfold JsArray.bump, ofZ at 1.
  rewrite Qfloor_Z.
  assert (E : Qeq_bool (inject_Z j) (inject_Z j) = true)
    by (apply Qeq_bool_iff; reflexivity).
  rewrite E. assert (Ej : (0 <=? j) = true) by now apply Z.leb_le.
  rewrite Ej. cbn [andb]. generalize (Z.to_nat j) as i. clear.
  induction zs as [|z zs IH]; intros [|i]; cbn [List.map nth_error incrAt];
    try reflexivity.
  - cbn [firstn skipn app]. now rewrite add_ofZ.
  - specialize (IH i). cbn [firstn skipn app].
    destruct (nth_error (List.map ofZ zs) i); now rewrite <- IH.
Qed.

Lemma incrAt_length (i : nat) (zs : list Z) :
  List.length (incrAt i zs) = List.length zs.
Proof.
  revert i. induction zs as [|z zs IH]; intros [|i]; cbn; auto.
Qed.

Lemma nth_incrAt (i k : nat) (zs : list Z) :
  (i < List.length zs)%nat ->
  nth k (incrAt i zs) 0 = nth k zs 0 + (if Nat.eqb k i then 1 else 0).
Proof.
  revert i k. induction zs as [|z zs IH]; intros [|i] [|k] H;
    cbn [List.length] in H; cbn [incrAt nth Nat.eqb]; try lia.
  apply IH. lia.
Qed.

Variable f : Message -> number.
Variable n : nat.
Hypothesis f_index :
  forall m, f m = NaN \/ exists i, f m = ofZ i /\ 0 <= i < Z.of_nat n.

Lemma bucketCount_cons (m : Message) (l : list Message) (i : Z) :
  bucketCount f (m :: l) i
  = (if Number.eq (f m) (ofZ i) then 1 else 0) + bucketCount f l i.
Proof.
  unfold bucketCount. cbn [List.filter].
  destruct (Number.eq (f m) (ofZ i)); cbn [List.length]; lia.
Qed.

Lemma bucketCount_nonneg (l : list Message) (i : Z) : 0 <= bucketCount f l i.
Proof. unfold bucketCount. lia. Qed.

(** The array of counters after the loop: entry [k] has grown by the number
    of messages that [f] sends to [k]. *)
Lemma buckets_fold (l : list Message) :
  forall zs,
    List.length zs = n ->
    exists zs',
      fold_left (fun arr m => JsArray.bump (f m) arr) l (List.map ofZ zs)
      = List.map ofZ zs'
      /\ List.length zs' = n
      /\ forall k, (k < n)%nat ->
           nth k zs' 0 = nth k zs 0 + bucketCount f l (Z.of_nat k).
Proof.
  induction l as [|m l IH]; intros zs Hlen; cbn [fold_left].
  - exists zs. repeat split; auto. intros k _. unfold bucketCount. cbn. lia.
  - destruct (f_index m) as [E | (i & E & Hi)].
    + rewrite E. cbn [JsArray.bump].
      destruct (IH zs Hlen) as (zs' & -> & Hl & Hn).
      exists zs'. repeat split; auto. intros k Hk.
      rewrite bucketCount_cons, E. cbn [Number.eq]. rewrite (Hn k Hk). lia.
    + rewrite E, bump_ofZ by lia.
      destruct (IH (incrAt (Z.to_nat i) zs)) as (zs' & -> & Hl & Hn).
      { now rewrite incrAt_length. }
      exists zs'. repeat split; auto. intros k Hk.
      rewrite bucketCount_cons, E, eq_ofZ, (Hn k Hk), nth_incrAt by lia.
      destruct (Nat.eqb_spec k (Z.to_nat i)) as [->|Hne].
      * rewrite Z2Nat.id, Z.eqb_refl by lia. lia.
      * destruct (Z.eqb_spec i (Z.of_nat k)) as [->|_]; [|lia].
        rewrite Nat2Z.id in Hne. contradiction.
Qed.

End BucketFacts.

Section PeakFacts.

Lemma max2_ofZ (a b : Z) : Math_max2 (ofZ a) (ofZ b) = ofZ (Z.max a b).
Proof.
  change (Math_max2 (ofZ a) (ofZ b))
    with (if lt (ofZ a) (ofZ b) then ofZ b else ofZ a).
  rewrite lt_ofZ. destruct (Z.ltb_spec a b); f_equal; lia.
Qed.

Lemma fold_max2_ofZ (zs : list Z) (a : Z) :
  fold_left Math_max2 (List.map ofZ zs) (ofZ a)
  = ofZ (fold_left Z.max zs a).
Proof.
  revert a. induction zs as [|z zs IH]; intros a; cbn [List.map fold_left];
    [reflexivity|].
  now rewrite max2_ofZ, IH.
Qed.

Lemma Math_max_ofZ (z : Z) (zs : list Z) :
  Math_max (List.map ofZ (z :: zs)) = ofZ (fold_left Z.max zs z).
Proof.
  unfold Math_max. cbn [List.map fold_left].
  change (Math_max2 NInf (ofZ z)) with (ofZ z). apply fold_max2_ofZ.
Qed.

Lemma fold_max_ge (zs : list Z) (a : Z) :
  a <= fold_left Z.max zs a
  /\ forall z, In z zs -> z <= fold_left Z.max zs a.
Proof.
  revert a. induction zs as [|x zs IH]; intros a; cbn [fold_left].
  - split; [lia|intros z []].
  - destruct (IH (Z.max a x)) as [H1 H2]. split; [lia|].
    intros z [<-|Hz]; [lia|now apply H2].
Qed.

Lemma fold_max_In (zs : list Z) (a : Z) :
  fold_left Z.max zs a = a \/ In (fold_left Z.max zs a) zs.
Proof.
  revert a. induction zs as [|x zs IH]; intros a; cbn [fold_left];
    [now left|].
  destruct (IH (Z.max a x)) as [E|Hin]; [|right; now right].
  rewrite E. destruct (Z.max_spec a x) as [[_ ->]|[_ ->]];
    [right; now left|now left].
Qed.

(** [indexOf] finds the first entry equal to a value the array holds. *)
Lemma indexOf_from_spec (zs : list Z) (M : Z) :
  In M zs ->
  forall i0,
    exists k,
      JsArray.indexOf_from i0 (ofZ M) (List.map ofZ zs) = i0 + Z.of_nat k
      /\ (k < List.length zs)%nat /\ nth k zs 0 = M
      /\ forall k', (k' < k)%nat -> nth k' zs 0 <> M.
Proof.
  induction zs as [|z zs IH]; intros Hin i0; [contradiction|].
  cbn [List.map JsArray.indexOf_from]. rewrite eq_ofZ.
  destruct (Z.eqb_spec z M) as [->|Hne].
  - exists O. cbn. repeat split; try lia.
  - destruct Hin as [E|Hin]; [contradiction|].
    destruct (IH Hin (i0 + 1)) as (k & E & Hk & Hn & Hf).
    exists (S k). cbn [List.length nth]. rewrite E.
    repeat split; try lia; auto.
    intros [|k'] Hk'; cbn [nth]; [exact Hne|]. apply Hf. lia.
Qed.

(** The peak of an array of counters: the first index of the largest
    entry. *)
Lemma peak_spec (zs : list Z) :
  zs <> [] ->
  exists k,
    JsArray.indexOf (Math_max (List.map ofZ zs)) (List.map ofZ zs)
    = Z.of_nat k
    /\ (k < List.length zs)%nat
    /\ (forall i, (i < List.length zs)%nat -> nth i zs 0 <= nth k zs 0)
    /\ (forall i, (i < k)%nat -> nth i zs 0 < nth k zs 0).
Proof.
  destruct zs as [|z zs]; [contradiction|]. intros _.
  rewrite Math_max_ofZ. set (M := fold_left Z.max zs z).
  assert (Hin : In M (z :: zs)).
  { destruct (fold_max_In zs z) as [E|H];
      [left; symmetry; exact E|right; exact H]. }
  assert (Hmax : forall x, In x (z :: zs) -> x <= M).
  { intros x [<-|Hx];
      [exact (proj1 (fold_max_ge zs z))|exact (proj2 (fold_max_ge zs z) x Hx)]. }
  destruct (indexOf_from_spec (z :: zs) M Hin 0) as (k & E & Hk & Hn & Hf).
  exists k. unfold JsArray.indexOf. rewrite E, Hn.
  repeat split; auto.
  - intros i Hi. apply Hmax. now apply nth_In.
  - intros i Hi. specialize (Hf i Hi).
    assert (nth i (z :: zs) 0 <= M) by (apply Hmax; apply nth_In; lia). lia.
Qed.

Lemma getHours_index (m : Message) :
  getHours (timestamp m) = NaN
  \/ exists i, getHours (timestamp m) = ofZ i /\ 0 <= i < Z.of_nat 24.
Proof.
  destruct (timestamp m) as [t|]; [right|now left].
  exists (hourOf t). split; [reflexivity|]. unfold hourOf.
  pose proof (Z.mod_pos_bound (t / msPerHour) 24). lia.
Qed.

Lemma getDay_index (m : Message) :
  getDay (timestamp m) = NaN
  \/ exists i, getDay (timestamp m) = ofZ i /\ 0 <= i < Z.of_nat 7.
Proof.
  destruct (timestamp m) as [t|]; [right|now left].
  exists (weekDayOf t). split; [reflexivity|]. unfold weekDayOf.
  pose proof (Z.mod_pos_bound (dayOf t + 4) 7). lia.
Qed.

Lemma repeat_zero (n : nat) : repeat (ofZ 0) n = List.map ofZ (repeat 0 n).
Proof. induction n; cbn; [reflexivity|now f_equal]. Qed.

Lemma nth_repeat_zero (k n : nat) : nth k (repeat 0 n) 0 = 0.
Proof.
  revert k. induction n as [|n IH]; intros [|k]; cbn; auto.
Qed.

(** The hourly and weekly arrays hold the counts of their buckets. *)
Lemma hourlyActivity_counts (messages : list Message) :
  exists zs,
    hourlyActivity messages = List.map ofZ zs /\ List.length zs = 24%nat
    /\ forall k, (k < 24)%nat -> nth k zs 0 = hourCount messages (Z.of_nat k).
Proof.
  unfold hourlyActivity. rewrite repeat_zero.
  destruct (buckets_fold (fun m => getHours (timestamp m)) 24 getHours_index
              messages (repeat 0 24) (repeat_length _ _))
    as (zs & E & Hl & Hn).
  exists zs. repeat split; auto. intros k Hk.
  rewrite (Hn k Hk), nth_repeat_zero. reflexivity.
Qed.

Lemma weeklyActivity_counts (messages : list Message) :
  exists zs,
    weeklyActivity messages = List.map ofZ zs /\ List.length zs = 7%nat
    /\ forall k, (k < 7)%nat -> nth k zs 0 = dayCount messages (Z.of_nat k).
Proof.
  unfold weeklyActivity. rewrite repeat_zero.
  destruct (buckets_fold (fun m => getDay (timestamp m)) 7 getDay_index
              messages (repeat 0 7) (repeat_length _ _))
    as (zs & E & Hl & Hn).
  exists zs. repeat split; auto. intros k Hk.
  rewrite (Hn k Hk), nth_repeat_zero. reflexivity.
Qed.

End PeakFacts.

Section ListFacts.

Lemma list_by_nth (zs : list Z) (n : nat) (g : nat -> Z) :
  List.length zs = n -> (forall k, (k < n)%nat -> nth k zs 0 = g k) ->
  zs = List.map g (seq 0 n).
Proof.
  intros Hl Hn. apply (nth_ext zs (List.map g (seq 0 n)) 0 (g O)).
  - now rewrite length_map, length_seq.
  - intros k Hk. rewrite Hl in Hk. rewrite (Hn k Hk).
    rewrite (map_nth g (seq 0 n) O k), seq_nth by exact Hk. reflexivity.
Qed.

Lemma counts_as_range (zs : list Z) (n : nat) (g : Z -> Z) :
  List.length zs = n ->
  (forall k, (k < n)%nat -> nth k zs 0 = g (Z.of_nat k)) ->
  List.map ofZ zs
  = List.map (fun i => ofZ (g i)) (range 0 (Z.of_nat n - 1)).
Proof.
  intros Hl Hn. rewrite (list_by_nth zs n (fun k => g (Z.of_nat k)) Hl Hn).
  unfold range. replace (Z.to_nat (Z.of_nat n - 1 - 0 + 1)) with n by lia.
  rewrite !map_map. apply map_ext. intros k. reflexivity.
Qed.

End ListFacts.

Section SentimentFacts.

Variable toLowerCase : jsstring -> jsstring.

Lemma lexiconHits_cons (lexicon : list jsstring) (m : Message)
    (cm : list Message) :
  lexiconHits toLowerCase lexicon (m :: cm)
  = Z.of_nat
      (List.length
         (List.filter
            (fun word => existsb (fun w => includes word w) lexicon)
            (splitWs (toLowerCase (message m)))))
    + lexiconHits toLowerCase lexicon cm.
Proof. reflexivity. Qed.

Lemma sentiment_fold (cm : list Message) :
  forall a b,
    fold_left (sentimentStep toLowerCase) cm (ofZ a, ofZ b)
    = (ofZ (a + lexiconHits toLowerCase positiveWords cm),
       ofZ (b + lexiconHits toLowerCase negativeWords cm)).
Proof.
  induction cm as [|m cm IH]; intros a b; cbn [fold_left].
  - change (lexiconHits toLowerCase positiveWords []) with 0.
    change (lexiconHits toLowerCase negativeWords []) with 0.
    now rewrite !Z.add_0_r.
  - unfold sentimentStep at 2. unfold hits, Number.length, ofNat.
    rewrite !add_ofZ, IH, !lexiconHits_cons. f_equal; f_equal; lia.
Qed.

Lemma lexiconHits_nonneg (lexicon : list jsstring) (cm : list Message) :
  0 <= lexiconHits toLowerCase lexicon cm.
Proof.
  induction cm as [|m cm IH]; [cbn; lia|rewrite lexiconHits_cons; lia].
Qed.

Lemma getSentimentScore_percent (cm : list Message) :
  getSentimentScore toLowerCase cm
  = if 0 <? lexiconHits toLowerCase positiveWords cm
            + lexiconHits toLowerCase negativeWords cm
    then ofZ (percent (lexiconHits toLowerCase positiveWords cm)
                      (lexiconHits toLowerCase positiveWords cm
                       + lexiconHits toLowerCase negativeWords cm))
    else ofZ 50.
Proof.
  unfold getSentimentScore. rewrite (sentiment_fold cm 0 0). cbn [Z.add].
  rewrite add_ofZ, gt_ofZ.
  destruct (Z.ltb_spec 0 (lexiconHits toLowerCase positiveWords cm
                          + lexiconHits toLowerCase negativeWords cm));
    [|reflexivity].
  rewrite round_scaled by assumption. reflexivity.
Qed.

End SentimentFacts.

Section GapFacts.

Lemma elapsed_valid (p c : Message) (t1 t2 unit : Z) :
  timestamp p = ValidDate t1 -> timestamp c = ValidDate t2 ->
  elapsed p c unit = div (ofZ (t2 - t1)) (ofZ unit).
Proof.
  intros H1 H2. unfold elapsed. rewrite H1, H2. cbn [getTime].
  now rewrite sub_ofZ.
Qed.

Lemma elapsed_invalid (p c : Message) (unit : Z) :
  timestamp p = InvalidDate \/ timestamp c = InvalidDate ->
  elapsed p c unit = NaN.
Proof.
  unfold elapsed. intros [H|H]; rewrite H; cbn [getTime].
  - destruct (getTime (timestamp c)); reflexivity.
  - destruct (getTime (timestamp p)); reflexivity.
Qed.

Lemma gapStep_entry (gaps : list Z) (pc : Message * Message) :
  Forall (fun z => 1 <= z) gaps ->
  exists gaps',
    gapStep (List.map ofZ gaps) pc = List.map ofZ gaps'
    /\ Forall (fun z => 1 <= z) gaps'.
Proof.
  intros Hg. destruct pc as [p c]. unfold gapStep.
  destruct (timestamp p) as [t1|] eqn:E1.
  2:{ rewrite elapsed_invalid by now left. now exists gaps. }
  destruct (timestamp c) as [t2|] eqn:E2.
  2:{ rewrite elapsed_invalid by now right. now exists gaps. }
  rewrite (elapsed_valid p c t1 t2 _ E1 E2), gt_div_ofZ by lia.
  destruct (Z.ltb_spec (1 * (1000 * 60 * 60 * 24)) (t2 - t1)) as [H|H];
    [|now exists gaps].
  rewrite round_quotient by lia.
  exists (gaps ++ [(2 * (t2 - t1) + 1000 * 60 * 60 * 24)
                   / (2 * (1000 * 60 * 60 * 24))]).
  split; [now rewrite map_app|].
  apply Forall_app. split; [exact Hg|]. constructor; [|constructor].
  apply Z.div_le_lower_bound; lia.
Qed.

Lemma conversationGaps_entries (sortedMessages : list Message) :
  exists gaps,
    conversationGaps sortedMessages = List.map ofZ gaps
    /\ Forall (fun z => 1 <= z) gaps.
Proof.
  unfold conversationGaps.
  change (@nil number) with (List.map ofZ []).
  assert (H0 : Forall (fun z => 1 <= z) []) by constructor.
  revert H0. generalize (@nil Z) as gaps.
  induction (JsArray.adjacent sortedMessages) as [|pc l IH]; intros gaps Hg;
    cbn [fold_left].
  - now exists gaps.
  - destruct (gapStep_entry gaps pc Hg) as (gaps' & -> & Hg').
    now apply IH.
Qed.

Lemma sum_ofZ (zs : list Z) :
  sum (List.map ofZ zs) = ofZ (fold_left Z.add zs 0).
Proof.
  unfold sum. generalize 0 as a.
  induction zs as [|z zs IH]; intros a; cbn [List.map fold_left];
    [reflexivity|].
  now rewrite add_ofZ, IH.
Qed.

Lemma fold_add_bounds (zs : list Z) (lo hi : Z) :
  Forall (fun z => lo <= z <= hi) zs ->
  forall a,
    a + lo * Z.of_nat (List.length zs) <= fold_left Z.add zs a
    <= a + hi * Z.of_nat (List.length zs).
Proof.
  induction 1 as [|z zs Hz _ IH]; intros a; cbn [fold_left List.length].
  - lia.
  - specialize (IH (a + z)). lia.
Qed.

End GapFacts.

Section DayFacts.

Lemma distinct_length (l : list jsstring) :
  (List.length (distinct l) <= List.length l)%nat
  /\ (l <> [] -> 1 <= List.length (distinct l))%nat.
Proof.
  split.
  - apply NoDup_incl_length; [apply distinct_NoDup|].
    intros x Hx. now apply distinct_In.
  - intros Hl. destruct l as [|a l]; [contradiction|].
    assert (Ha : In a (distinct (a :: l))) by (apply distinct_In; now left).
    destruct (distinct (a :: l)); [contradiction|cbn; lia].
Qed.

End DayFacts.

Section StyleFacts.

Lemma length_fold (cm : list Message) :
  forall a,
    fold_left (fun sum m => add sum (Number.length (message m))) cm (ofZ a)
    = ofZ (fold_left (fun s m => s + Z.of_nat (List.length (message m)))
                     cm a).
Proof.
  induction cm as [|m cm IH]; intros a; cbn [fold_left]; [reflexivity|].
  replace (add (ofZ a) (Number.length (message m)))
    with (ofZ (a + Z.of_nat (List.length (message m))))
    by (unfold Number.length, ofNat; now rewrite add_ofZ).
  apply IH.
Qed.

Lemma length_fold_nonneg (cm : list Message) :
  forall a,
    0 <= a ->
    0 <= fold_left (fun s m => s + Z.of_nat (List.length (message m))) cm a.
Proof.
  induction cm as [|m cm IH]; intros a Ha; cbn [fold_left]; [exact Ha|].
  apply IH. lia.
Qed.

Lemma percentOf_percent (part cm : list Message) :
  cm <> [] ->
  percentOf part cm
  = ofZ (percent (Z.of_nat (List.length part)) (Z.of_nat (List.length cm))).
Proof.
  intros Hn. unfold percentOf, Number.length, ofNat.
  rewrite round_scaled; [reflexivity|].
  destruct cm; [contradiction|cbn [List.length]; lia].
Qed.

Lemma identified_nonempty (messages : list Message) (c : jsstring) :
  In c (contacts messages) ->
  List.filter (fun m => strictEq (contact m) (Some c)) messages <> [].
Proof.
  intros H. unfold contacts in H. apply (proj1 (distinct_In _ _)) in H.
  apply in_map_iff in H as (m & E & Hin).
  assert (Hf : In m (List.filter (fun m => strictEq (contact m) (Some c))
                                 messages)).
  { apply filter_In. split; [exact Hin|]. cbn [strictEq]. rewrite E.
    apply eqb_refl. }
  intros E0. now rewrite E0 in Hf.
Qed.

End StyleFacts.

Section CounterLoop.

Import Obj.

Variable c : jsstring.
Variable p : Message -> bool.

(** A loop that bumps the sender's counter on the messages [p] accepts
    leaves in the counter of [c] the number of such messages sent by [c]. *)
Lemma counter_fold (l : list Message) :
  forall (o : obj number) (a : Z),
    get c o = Some (ofZ a) ->
    get c (fold_left (fun o m => if p m then increment (contact m) o else o)
                     l o)
    = Some (ofZ (a + sentCount c (List.filter p l))).
Proof.
  induction l as [|m l IH]; intros o a H; cbn [fold_left List.filter].
  - unfold sentCount. cbn. now rewrite Z.add_0_r.
  - destruct (p m).
    + rewrite (IH _ _ (get_increment (contact m) c o a H)), sentCount_cons.
      do 2 f_equal. lia.
    + now apply IH.
Qed.

End CounterLoop.

Section NightFacts.

Import Obj.

Lemma nightStep_fst (l : list Message) :
  forall o1 o2,
    fst (fold_left nightStep l (o1, o2))
    = fold_left (fun o m => if isLateNight m then increment (contact m) o
                            else o) l o1.
Proof.
  induction l as [|m l IH]; intros o1 o2; cbn [fold_left]; [reflexivity|].
  unfold nightStep at 2. apply IH.
Qed.

Lemma nightStep_snd (l : list Message) :
  forall o1 o2,
    snd (fold_left nightStep l (o1, o2))
    = fold_left (fun o m => if isEarlyMorning m then increment (contact m) o
                            else o) l o2.
Proof.
  induction l as [|m l IH]; intros o1 o2; cbn [fold_left]; [reflexivity|].
  unfold nightStep at 2. apply IH.
Qed.

Lemma late_not_early (m : Message) :
  isLateNight m = true -> isEarlyMorning m = false.
Proof.
  unfold isLateNight, isEarlyMorning.
  destruct (getHours_index m) as [-> | (i & -> & Hi)]; [reflexivity|].
  unfold ge. change (ofZ i) with (Fin (inject_Z i)) at 1 3.
  change (ofZ 22) with (Fin (inject_Z 22)) at 1.
  change (ofZ 6) with (Fin (inject_Z 6)) at 2.
  cbv beta iota. change (Fin (inject_Z i)) with (ofZ i).
  change (Fin (inject_Z 22)) with (ofZ 22).
  change (Fin (inject_Z 6)) with (ofZ 6).
  rewrite !lt_ofZ.
  destruct (Z.ltb_spec i 22), (Z.ltb_spec i 6), (Z.ltb_spec i 10);
    cbn; intros; try reflexivity; try discriminate; lia.
Qed.

End NightFacts.

Lemma sentCount_filters (c : jsstring) (p q : Message -> bool)
    (l : list Message) :
  (forall m, p m = true -> q m = false) ->
  0 <= sentCount c (List.filter p l)
  /\ 0 <= sentCount c (List.filter q l)
  /\ sentCount c (List.filter p l) + sentCount c (List.filter q l)
     <= sentCount c l.
Proof.
  intros H. induction l as [|m l IH]; cbn [List.filter].
  - unfold sentCount. cbn. lia.
  - rewrite (sentCount_cons c m l).
    destruct (p m) eqn:Ep.
    + rewrite (H m Ep), sentCount_cons.
      destruct (JsString.eqb (contact m) c); lia.
    + destruct (q m); [rewrite sentCount_cons|];
        destruct (JsString.eqb (contact m) c); lia.
Qed.

Section InsertionSort.

Variable A : Type.
Variable cmp : A -> A -> number.

Lemma insert_Permutation (x : A) (l : list A) :
  Permutation (JsArray.insert cmp x l) (x :: l).
Proof.
  induction l as [|y l IH]; cbn [JsArray.insert]; [reflexivity|].
  destruct (gt (cmp x y) (ofZ 0)); [|reflexivity].
  rewrite IH. apply perm_swap.
Qed.

Lemma sort_Permutation (l : list A) : Permutation (JsArray.sort cmp l) l.
Proof.
  unfold JsArray.sort. induction l as [|x l IH]; cbn [fold_right];
    [reflexivity|].
  rewrite insert_Permutation. now constructor.
Qed.

(** With a comparator that orders by an integer rank, the result is in
    ascending order of rank. *)
Variable rank : A -> Z.
Variable P : A -> Prop.
Hypothesis cmp_rank :
  forall x y, P x -> P y -> gt (cmp x y) (ofZ 0) = (rank y <? rank x).

Lemma insert_sorted (x : A) (l : list A) :
  P x -> Forall P l ->
  StronglySorted (fun a b => rank a <= rank b) l ->
  StronglySorted (fun a b => rank a <= rank b) (JsArray.insert cmp x l).
Proof.
  intros Hx Hl Hs. induction l as [|y l IH]; cbn [JsArray.insert].
  - constructor; constructor.
  - inversion Hl as [|? ? Hy Hl']; subst.
    inversion Hs as [|? ? Hs' Hall]; subst.
    rewrite (cmp_rank x y Hx Hy).
    destruct (Z.ltb_spec (rank y) (rank x)) as [H|H].
    + constructor; [now apply IH|].
      apply Forall_forall. intros z Hz.
      apply (Permutation_in _ (insert_Permutation x l)) in Hz.
      destruct Hz as [<-|Hz]; [lia|].
      now apply (proj1 (Forall_forall _ _) Hall).
    + constructor; [exact Hs|]. constructor; [exact H|].
      apply Forall_forall. intros z Hz.
      pose proof (proj1 (Forall_forall _ _) Hall z Hz) as Hyz.
      cbv beta in Hyz. lia.
Qed.

Lemma sort_sorted (l : list A) :
  Forall P l ->
  StronglySorted (fun a b => rank a <= rank b) (JsArray.sort cmp l).
Proof.
  unfold JsArray.sort. induction 1 as [|x l Hx Hl IH]; cbn [fold_right].
  - constructor.
  - apply insert_sorted; [exact Hx| |exact IH].
    apply Forall_forall. intros z Hz.
    apply (Permutation_in _ (sort_Permutation l)) in Hz.
    now apply (proj1 (Forall_forall _ _) Hl).
Qed.

End InsertionSort.

Section SortedLists.

Variable A : Type.
Variable R : A -> A -> Prop.

Lemma StronglySorted_app_cross (l1 l2 : list A) :
  StronglySorted R (l1 ++ l2) ->
  forall x y, In x l1 -> In y l2 -> R x y.
Proof.
  induction l1 as [|a l1 IH]; intros Hs x y Hx Hy; [contradiction|].
  cbn [app] in Hs. inversion Hs as [|? ? Hs' Hall]; subst.
  destruct Hx as [<-|Hx].
  - apply (proj1 (Forall_forall _ _) Hall). apply in_or_app. now right.
  - now apply IH.
Qed.

Lemma StronglySorted_firstn (n : nat) (l : list A) :
  StronglySorted R l -> StronglySorted R (firstn n l).
Proof.
  revert n. induction l as [|a l IH]; intros [|n] Hs; cbn [firstn];
    try constructor.
  - inversion Hs; subst. now apply IH.
  - inversion Hs as [|? ? Hs' Hall]; subst.
    apply Forall_forall. intros z Hz.
    apply (proj1 (Forall_forall _ _) Hall).
    rewrite <- (firstn_skipn n l). apply in_or_app. now left.
Qed.

Lemma StronglySorted_weaken (R' : A -> A -> Prop) (P : A -> Prop)
    (l : list A) :
  (forall a b, P a -> P b -> R a b -> R' a b) ->
  Forall P l -> StronglySorted R l -> StronglySorted R' l.
Proof.
  intros Himp Hall Hs. induction Hs as [|x l Hs IH Hx]; constructor.
  - apply IH. now inversion Hall.
  - inversion Hall as [|? ? Px Hl]; subst.
    apply Forall_forall. intros y Hy. apply Himp; auto.
    + exact (proj1 (Forall_forall _ _) Hl y Hy).
    + exact (proj1 (Forall_forall _ _) Hx y Hy).
Qed.

End SortedLists.

Section TallyFacts.

Import Obj.

Variable V : Type.

Lemma get_In (k : jsstring) (v : V) (o : obj V) :
  get k o = Some v -> In (k, v) o.
Proof.
  induction o as [|[k' v'] o IH]; cbn [get]; [discriminate|].
  destruct (JsString.eqb k k') eqn:E.
  - intros [= <-]. apply eqb_eq in E. subst. now left.
  - intros H. right. now apply IH.
Qed.

Lemma get_None_keys (k : jsstring) (o : obj V) :
  get k o = None <-> ~ In k (List.map fst o).
Proof.
  induction o as [|[k' v'] o IH]; cbn [get List.map fst In]; [tauto|].
  destruct (JsString.eqb k k') eqn:E.
  - apply eqb_eq in E. subst. split; [discriminate|]. intros H.
    exfalso. apply H. now left.
  - apply eqb_neq in E. rewrite IH. split.
    + intros H [H1|H1]; [congruence|contradiction].
    + intros H H1. apply H. now right.
Qed.

Lemma In_get (k : jsstring) (v : V) (o : obj V) :
  NoDup (List.map fst o) -> In (k, v) o -> get k o = Some v.
Proof.
  induction o as [|[k' v'] o IH]; intros Hn Hin; [contradiction|].
  cbn [List.map fst] in Hn. inversion Hn as [|? ? Hk Hn']; subst.
  cbn [get]. destruct Hin as [[= -> ->]|Hin].
  - now rewrite eqb_refl.
  - destruct (JsString.eqb k k') eqn:E; [|now apply IH].
    apply eqb_eq in E. subst. exfalso. apply Hk.
    apply (in_map fst) in Hin. exact Hin.
Qed.

Lemma update_keys (k : jsstring) (v : V) (o : obj V) :
  List.map fst (update k v o) = List.map fst o.
Proof.
  induction o as [|[k' v'] o IH]; cbn [update List.map]; [reflexivity|].
  destruct (JsString.eqb k k'); cbn [List.map fst]; [reflexivity|].
  now rewrite IH.
Qed.

Lemma update_In (k : jsstring) (v : V) (o : obj V) (kv : jsstring * V) :
  In kv (update k v o) -> kv = (k, v) \/ In kv o.
Proof.
  induction o as [|[k' v'] o IH]; cbn [update]; [tauto|].
  destruct (JsString.eqb k k') eqn:E; cbn [In].
  - apply eqb_eq in E. subst. intros [<-|H]; auto.
  - intros [<-|H]; auto. destruct (IH H); auto.
Qed.

Lemma set_NoDup (k : jsstring) (v : V) (o : obj V) :
  NoDup (List.map fst o) -> NoDup (List.map fst (set k v o)).
Proof.
  intros H. unfold set. destruct (get k o) eqn:E.
  - now rewrite update_keys.
  - rewrite map_app. cbn [List.map fst].
    apply get_None_keys in E.
    apply NoDup_app; [exact H|repeat constructor; intros []|].
    intros x Hx [<-|[]]. contradiction.
Qed.

Lemma set_In (k : jsstring) (v : V) (o : obj V) (kv : jsstring * V) :
  In kv (set k v o) -> kv = (k, v) \/ In kv o.
Proof.
  unfold set. destruct (get k o).
  - apply update_In.
  - intros H. apply in_app_or in H as [H|[<-|[]]]; auto.
Qed.

End TallyFacts.

Section EmojiTally.

Import Obj.

Lemma truthy_positive (a : Z) : 1 <= a -> Number.truthy (ofZ a) = true.
Proof.
  intros H. unfold Number.truthy, ofZ, Qzero. apply negb_true_iff.
  destruct (Qeq_bool (inject_Z a) 0) eqn:E; [|reflexivity].
  apply Qeq_bool_iff in E. unfold Qeq, inject_Z in E. cbn in E. lia.
Qed.

Lemma tally_value (o : obj number) (k : jsstring) (v : number) :
  isTally o -> get k o = Some v -> exists a, v = ofZ a /\ 1 <= a.
Proof.
  intros [_ H] E. apply get_In in E.
  exact (proj1 (Forall_forall _ _) H _ E).
Qed.

Lemma countOne_tally (o : obj number) (k : jsstring) :
  isTally o ->
  isTally (countOne o k)
  /\ forall e,
       get e (countOne o k)
       = if JsString.eqb e k
         then Some (match get k o with
                    | Some v => add v (ofZ 1)
                    | None => ofZ 1
                    end)
         else get e o.
Proof.
  intros Ht. unfold countOne.
  set (old := match get k o with
              | Some v => if Number.truthy v then v else ofZ 0
              | None => ofZ 0
              end).
  assert (Hold : exists a, add old (ofZ 1) = ofZ a /\ 1 <= a
                           /\ add old (ofZ 1)
                              = match get k o with
                                | Some v => add v (ofZ 1)
                                | None => ofZ 1
                                end).
  { unfold old. destruct (get k o) as [v|] eqn:E.
    - destruct (tally_value o k v Ht E) as (a & -> & Ha).
      rewrite (truthy_positive a Ha), add_ofZ. exists (a + 1).
      repeat split; lia.
    - rewrite add_ofZ. exists 1. repeat split; lia. }
  destruct Hold as (a & Ea & Ha & Eold). split.
  - destruct Ht as [Hn Hv]. split; [now apply set_NoDup|].
    apply Forall_forall. intros kv Hin. apply set_In in Hin as [->|Hin].
    + cbn [snd]. now exists a.
    + exact (proj1 (Forall_forall _ _) Hv _ Hin).
  - intros e. destruct (JsString.eqb e k) eqn:E.
    + apply eqb_eq in E. subst e. now rewrite get_set_same, Eold.
    + apply eqb_neq in E. now rewrite get_set_other.
Qed.

Lemma timesIn_cons (e k : jsstring) (es : list jsstring) :
  timesIn e (k :: es)
  = (if JsString.eqb e k then 1 else 0) + timesIn e es.
Proof.
  unfold timesIn. cbn [List.filter].
  destruct (JsString.eqb e k); cbn [List.length]; lia.
Qed.

Lemma timesIn_nonneg (e : jsstring) (es : list jsstring) : 0 <= timesIn e es.
Proof. unfold timesIn. lia. Qed.

Lemma timesIn_pos (e : jsstring) (es : list jsstring) :
  In e es <-> 1 <= timesIn e es.
Proof.
  induction es as [|k es IH]; [cbn; split; [tauto|lia]|].
  rewrite timesIn_cons. pose proof (timesIn_nonneg e es). cbn [In].
  destruct (JsString.eqb e k) eqn:E.
  - apply eqb_eq in E. subst. split; [lia|auto].
  - apply eqb_neq in E. rewrite IH. split; [|intros; right; lia].
    intros [H1|H1]; [congruence|lia].
Qed.

(** The dictionary after the counting loop. *)
Lemma countOne_fold (es : list jsstring) :
  forall o,
    isTally o ->
    isTally (fold_left countOne es o)
    /\ forall e,
         get e (fold_left countOne es o)
         = match get e o with
           | Some v => Some (add v (ofZ (timesIn e es)))
           | None => if timesIn e es =? 0 then None
                     else Some (ofZ (timesIn e es))
           end.
Proof.
  induction es as [|k es IH]; intros o Ht; cbn [fold_left].
  - split; [exact Ht|]. intros e. change (timesIn e []) with 0.
    destruct (get e o) as [v|] eqn:E; [|reflexivity].
    destruct (tally_value o e v Ht E) as (a & -> & _).
    now rewrite add_ofZ, Z.add_0_r.
  - destruct (countOne_tally o k Ht) as [Ht1 Hg1].
    destruct (IH _ Ht1) as [Ht2 Hg2]. split; [exact Ht2|].
    intros e. rewrite Hg2, Hg1, timesIn_cons.
    pose proof (timesIn_nonneg e es) as Hnn.
    destruct (JsString.eqb e k) eqn:E.
    + apply eqb_eq in E. subst e.
      destruct (get k o) as [v|] eqn:Eg.
      * destruct (tally_value o k v Ht Eg) as (a & -> & _).
        rewrite !add_ofZ. do 2 f_equal. lia.
      * rewrite add_ofZ.
        destruct (Z.eqb_spec (1 + timesIn k es) 0); [lia|reflexivity].
    + reflexivity.
Qed.

Lemma emojiCount_tally (es : list jsstring) :
  isTally (fold_left countOne es [])
  /\ forall e c,
       In (e, c) (fold_left countOne es []) <->
       (c = ofZ (timesIn e es) /\ 1 <= timesIn e es).
Proof.
  assert (H0 : isTally []) by (split; constructor).
  destruct (countOne_fold es [] H0) as [Ht Hg]. split; [exact Ht|].
  intros e c. pose proof (timesIn_nonneg e es) as Hnn.
  specialize (Hg e). cbn [get] in Hg. split.
  - intros Hin. apply (In_get _ _ _ _ (proj1 Ht)) in Hin.
    rewrite Hg in Hin.
    destruct (Z.eqb_spec (timesIn e es) 0); [discriminate|].
    injection Hin as <-. split; [reflexivity|lia].
  - intros [-> Hpos]. apply get_In. rewrite Hg.
    destruct (Z.eqb_spec (timesIn e es) 0); [lia|reflexivity].
Qed.

Lemma countRank_ofZ (a : Z) : countRank (ofZ a) = - a.
Proof. unfold countRank, ofZ. now rewrite Qfloor_Z. Qed.

End EmojiTally.

Section TopFive.

(** Entries with a word and a count, sorted by [b - a] on the counts and cut
    after the fifth. *)
Variable A : Type.
Variable word : A -> jsstring.
Variable countOf : A -> number.
Variable l : list A.
Variable count : jsstring -> Z.
Hypothesis l_NoDup : NoDup (List.map word l).
Hypothesis l_counts :
  forall x, In x l -> countOf x = ofZ (count (word x)) /\ 1 <= count (word x).
Hypothesis l_all : forall e, 1 <= count e -> In e (List.map word l).

Let ranked : list A :=
  JsArray.sort (fun a b => sub (countOf b) (countOf a)) l.

Lemma ranked_In (x : A) : In x ranked <-> In x l.
Proof.
  split; apply Permutation_in;
    [apply sort_Permutation|apply Permutation_sym, sort_Permutation].
Qed.

Lemma ranked_whole (x : A) : In x ranked -> exists a, countOf x = ofZ a.
Proof.
  intros H. apply ranked_In in H. apply l_counts in H as [-> _]. eauto.
Qed.

Lemma byCount_rank (x y : A) :
  (exists a, countOf x = ofZ a) -> (exists b, countOf y = ofZ b) ->
  gt (sub (countOf y) (countOf x)) (ofZ 0)
  = (countRank (countOf y) <? countRank (countOf x)).
Proof.
  intros [a ->] [b ->]. rewrite sub_ofZ, gt_ofZ, !countRank_ofZ.
  destruct (Z.ltb_spec 0 (b - a)), (Z.ltb_spec (- b) (- a)); lia || reflexivity.
Qed.

Lemma ranked_sorted :
  StronglySorted
    (fun a b => countRank (countOf a) <= countRank (countOf b)) ranked.
Proof.
  apply (sort_sorted _ _ (fun x => countRank (countOf x))
                     (fun x => exists a, countOf x = ofZ a)).
  - intros x y Hx Hy. now apply byCount_rank.
  - apply Forall_forall. intros x H. apply ranked_whole.
    now apply ranked_In.
Qed.

Lemma firstn_incl (B : Type) (n : nat) (k : list B) (x : B) :
  In x (firstn n k) -> In x k.
Proof.
  intros H. rewrite <- (firstn_skipn n k). apply in_or_app. now left.
Qed.

Lemma top_five :
  (List.length (firstn 5 ranked) <= 5)%nat
  /\ NoDup (List.map word (firstn 5 ranked))
  /\ descending _ countOf (firstn 5 ranked)
  /\ (forall x, In x (firstn 5 ranked) ->
                In x l /\ countOf x = ofZ (count (word x))
                /\ 1 <= count (word x))
  /\ (forall e, 1 <= count e -> ~ In e (List.map word (firstn 5 ranked)) ->
        List.length (firstn 5 ranked) = 5%nat
        /\ forall e', In e' (List.map word (firstn 5 ranked)) ->
                      count e <= count e').
Proof.
  split; [apply firstn_le_length|].
  assert (Hnd : NoDup (List.map word ranked)).
  { apply (Permutation_NoDup (l := List.map word l)); [|exact l_NoDup].
    apply Permutation_map, Permutation_sym, sort_Permutation. }
  split.
  { rewrite <- (firstn_skipn 5 ranked), map_app in Hnd.
    now apply NoDup_app_remove_r in Hnd. }
  split.
  { unfold descending. apply StronglySorted_firstn.
    apply (StronglySorted_weaken _
             (fun a b => countRank (countOf a) <= countRank (countOf b)) _
             (fun x => exists a, countOf x = ofZ a) ranked);
      [|apply Forall_forall; exact ranked_whole|exact ranked_sorted].
    intros x y [a Ea] [b Eb] Hr. rewrite Ea, Eb in *.
    rewrite !countRank_ofZ in Hr. rewrite lt_ofZ. apply Z.ltb_ge. lia. }
  split.
  { intros x H. apply firstn_incl, ranked_In in H.
    split; [exact H|now apply l_counts]. }
  intros e He Hout.
  destruct (proj1 (in_map_iff _ _ _) (l_all e He)) as (x & Ex & Hx).
  apply ranked_In in Hx. rewrite <- (firstn_skipn 5 ranked) in Hx.
  apply in_app_or in Hx as [Hx|Hx].
  { exfalso. apply Hout. rewrite <- Ex. now apply in_map. }
  split.
  - destruct (Nat.le_gt_cases (List.length ranked) 5) as [Hle|Hgt].
    + rewrite skipn_all2 in Hx by exact Hle. contradiction.
    + apply firstn_length_le. lia.
  - intros e' He'. apply in_map_iff in He' as (y & Ey & Hy).
    pose proof ranked_sorted as Hs. rewrite <- (firstn_skipn 5 ranked) in Hs.
    pose proof (StronglySorted_app_cross _ _ _ _ Hs _ _ Hy Hx) as Hr.
    cbv beta in Hr.
    apply firstn_incl, ranked_In, l_counts in Hy as [Hy _].
    assert (Hxl : In x l).
    { apply ranked_In. rewrite <- (firstn_skipn 5 ranked).
      apply in_or_app. now right. }
    apply l_counts in Hxl as [Hxc _].
    rewrite Hy, Hxc, !countRank_ofZ, Ex, Ey in Hr. lia.
Qed.

End TopFive.

Section ChronologicalFacts.

Lemma byTime_rank (x y : Message) :
  timestamp x <> InvalidDate -> timestamp y <> InvalidDate ->
  gt (byTime x y) (ofZ 0) = (timeOf y <? timeOf x).
Proof.
  unfold byTime, timeOf. intros Hx Hy.
  destruct (timestamp x) as [tx|]; [|contradiction].
  destruct (timestamp y) as [ty|]; [|contradiction].
  cbn [getTime]. rewrite sub_ofZ, gt_ofZ.
  destruct (Z.ltb_spec 0 (tx - ty)), (Z.ltb_spec ty tx); lia || reflexivity.
Qed.

(** With valid dates only, the sorted array is in chronological order. *)
Lemma sorted_chronological (messages : list Message) :
  (forall m, In m messages -> timestamp m <> InvalidDate) ->
  StronglySorted (fun a b => timeOf a <= timeOf b) (sorted messages).
Proof.
  intros H. unfold sorted.
  apply (sort_sorted _ _ timeOf (fun m => timestamp m <> InvalidDate)).
  - intros x y. apply byTime_rank.
  - now apply Forall_forall.
Qed.

Lemma adjacent_sorted (A : Type) (R : A -> A -> Prop) (l : list A) :
  StronglySorted R l ->
  forall a b, In (a, b) (JsArray.adjacent l) -> R a b.
Proof.
  unfold JsArray.adjacent. induction 1 as [|x l Hs IH Hx]; intros a b Hin;
    [contradiction|].
  cbn [tl] in Hin. destruct l as [|y l']; [contradiction|].
  cbn [combine] in Hin. destruct Hin as [[= <- <-]|Hin].
  - apply (proj1 (Forall_forall _ _) Hx). now left.
  - apply IH. exact Hin.
Qed.

Lemma lt_div_ofZ (a b c : Z) :
  0 < b -> lt (div (ofZ a) (ofZ b)) (ofZ c) = (a <? c * b).
Proof.
  intros Hb. unfold div, ofZ at 1 2.
  assert (Hz : Qzero (inject_Z b) = false).
  { unfold Qzero, Qeq_bool, inject_Z. simpl. apply Z.eqb_neq. lia. }
  rewrite Hz. unfold lt, ofZ, Qltb.
  destruct (Qle_bool (inject_Z c) (Qred (inject_Z a / inject_Z b))) eqn:E.
  - apply Qle_bool_iff in E. rewrite Qred_correct in E.
    symmetry. apply Z.ltb_ge.
    destruct b as [|p|p]; try lia.
    unfold Qle, Qdiv, Qmult, Qinv, inject_Z in E. cbn [Qnum Qden] in E.
    rewrite ?Pos2Z.inj_mul in E. lia.
  - symmetry. apply Z.ltb_lt.
    destruct (Z_lt_le_dec a (c * b)) as [L|L]; [exact L|exfalso].
    assert (T : Qle_bool (inject_Z c) (Qred (inject_Z a / inject_Z b)) = true).
    { apply Qle_bool_iff. rewrite Qred_correct.
      destruct b as [|p|p]; try lia.
      unfold Qle, Qdiv, Qmult, Qinv, inject_Z. cbn [Qnum Qden].
      rewrite ?Pos2Z.inj_mul. lia. }
    congruence.
Qed.

End ChronologicalFacts.

Section MinutesFacts.

Lemma minutes_Fin (d : Z) :
  minutes d = Fin (Qred (inject_Z d / inject_Z 60000)).
Proof. reflexivity. Qed.

Lemma add_minutes (a b : Z) : add (minutes a) (minutes b) = minutes (a + b).
Proof.
  rewrite !minutes_Fin. cbn [add]. f_equal. apply Qred_complete.
  rewrite !Qred_correct.
  unfold Qeq, Qdiv, Qmult, Qplus, Qinv, inject_Z. cbn [Qnum Qden].
  rewrite ?Pos2Z.inj_mul. lia.
Qed.

Lemma minutes_zero : minutes 0 = ofZ 0.
Proof. reflexivity. Qed.

Lemma sum_minutes (ds : list Z) :
  sum (List.map minutes ds) = minutes (fold_left Z.add ds 0).
Proof.
  unfold sum. rewrite <- minutes_zero. generalize 0 as a.
  induction ds as [|d ds IH]; intros a; cbn [List.map fold_left];
    [reflexivity|].
  now rewrite add_minutes, IH.
Qed.

Lemma round_minutes_mean (s n : Z) :
  0 < n ->
  Math_round (div (minutes s) (ofZ n))
  = ofZ ((2 * s + 60000 * n) / (2 * (60000 * n))).
Proof.
  intros Hn. rewrite minutes_Fin. unfold div, ofZ at 1.
  assert (Hz : Qzero (inject_Z n) = false).
  { unfold Qzero, Qeq_bool, inject_Z. simpl. apply Z.eqb_neq. lia. }
  rewrite Hz. unfold Math_round. f_equal.
  assert (E : Qred (Qred (inject_Z s / inject_Z 60000) / inject_Z n)
              + (1 # 2)
              == (2 * s + 60000 * n) # Z.to_pos (2 * (60000 * n))).
  { rewrite !Qred_correct. destruct n as [|p|p]; try lia.
    change (Z.to_pos (2 * (60000 * Z.pos p))) with (2 * (60000 * p))%positive.
    unfold Qeq, Qdiv, Qmult, Qplus, Qinv, inject_Z. cbn [Qnum Qden].
    rewrite ?Pos2Z.inj_mul. lia. }
  rewrite (Qfloor_comp _ _ E). unfold Qfloor.
  rewrite Z2Pos.id by lia. reflexivity.
Qed.

(** The mean of an array of response times. *)
Lemma meanOrZero_withinADay (arr : list number) :
  withinADay arr -> exists z, meanOrZero arr = ofZ z /\ 0 <= z <= 1440.
Proof.
  intros (ds & -> & Hd). unfold meanOrZero, Number.length, ofNat.
  rewrite length_map, gt_ofZ.
  destruct (Z.ltb_spec 0 (Z.of_nat (List.length ds))) as [Hn|Hn].
  - rewrite sum_minutes, round_minutes_mean by exact Hn.
    pose proof (fold_add_bounds ds 0 (86400000 - 1)) as Hs.
    assert (Hd' : Forall (fun z => 0 <= z <= 86400000 - 1) ds).
    { apply Forall_forall. intros d Hin.
      pose proof (proj1 (Forall_forall _ _) Hd d Hin) as H. cbv beta in H.
      lia. }
    specialize (Hs Hd' 0).
    set (n := Z.of_nat (List.length ds)) in *.
    set (s := fold_left Z.add ds 0) in *.
    eexists. split; [reflexivity|]. split.
    + apply Z.div_pos; lia.
    + assert ((2 * s + 60000 * n) / (2 * (60000 * n)) < 1441); [|lia].
      apply Z.div_lt_upper_bound; lia.
  - exists 0. split; [reflexivity|lia].
Qed.

End MinutesFacts.

Section ResponseRange.

Import Obj.

Lemma responseStep_withinADay (rt rt' : obj (list number))
    (pc : Message * Message) :
  timestamp (fst pc) <> InvalidDate -> timestamp (snd pc) <> InvalidDate ->
  timeOf (fst pc) <= timeOf (snd pc) ->
  allWithinADay rt -> responseStep rt pc = Return rt' -> allWithinADay rt'.
Proof.
  destruct pc as [p c]. cbn [fst snd]. unfold timeOf.
  intros Hp Hc Hle Hrt. unfold responseStep.
  destruct (timestamp p) as [t1|] eqn:E1; [|contradiction].
  destruct (timestamp c) as [t2|] eqn:E2; [|contradiction].
  destruct (negb _); [|now intros [= <-]].
  rewrite (elapsed_valid p c t1 t2 _ E1 E2), lt_div_ofZ by lia.
  destruct (Z.ltb_spec (t2 - t1) (1440 * (1000 * 60))) as [Hlt|Hge];
    [|now intros [= <-]].
  destruct (get (contact c) rt) as [arr|] eqn:Eg; [|discriminate].
  intros [= <-] k arr' Hin. apply set_In in Hin as [[= -> ->]|Hin];
    [|now apply (Hrt k)].
  apply get_In in Eg. destruct (Hrt _ _ Eg) as (ds & -> & Hd).
  exists (ds ++ [t2 - t1]). split; [now rewrite map_app|].
  apply Forall_app. split; [exact Hd|]. repeat constructor; lia.
Qed.

Lemma foldM_responseStep_withinADay (l : list (Message * Message)) :
  (forall pc, In pc l ->
     timestamp (fst pc) <> InvalidDate /\ timestamp (snd pc) <> InvalidDate
     /\ timeOf (fst pc) <= timeOf (snd pc)) ->
  forall rt rt',
    allWithinADay rt -> foldM responseStep l rt = Return rt' ->
    allWithinADay rt'.
Proof.
  induction l as [|pc l IH]; intros Hl rt rt' Hrt H; cbn [foldM] in H.
  - now injection H as <-.
  - destruct (responseStep rt pc) as [rt1|e] eqn:E; cbn [bind] in H;
      [|discriminate].
    destruct (Hl pc (or_introl eq_refl)) as (H1 & H2 & H3).
    apply (IH (fun pc' Hin => Hl pc' (or_intror Hin)) rt1 rt'); [|exact H].
    now apply (responseStep_withinADay rt rt1 pc).
Qed.

Lemma literal2_values (V : Type) (k1 k2 c : jsstring) (v1 v2 v : V) :
  get c (literal2 k1 v1 k2 v2) = Some v -> v = v1 \/ v = v2.
Proof.
  intros H. apply get_In in H. unfold literal2 in H.
  apply set_In in H as [[= _ ->]|H]; [now right|].
  apply set_In in H as [[= _ ->]|[]]. now left.
Qed.

End ResponseRange.

Section DoubleTextFacts.

Import Obj.

Variable c : jsstring.

Lemma doubleStep_fold (l : list (Message * Message)) :
  forall (o : obj number) (a : Z),
    get c o = Some (ofZ a) ->
    get c (fold_left doubleStep l o)
    = Some (ofZ (a + Z.of_nat
                       (List.length
                          (List.filter
                             (fun pc => isDoubleText pc
                                        && JsString.eqb (contact (snd pc)) c)
                             l)))).
Proof.
  induction l as [|[p cur] l IH]; intros o a H; cbn [fold_left List.filter].
  - cbn. now rewrite Z.add_0_r.
  - unfold doubleStep at 2, isDoubleText at 1. cbn [fst snd].
    destruct (JsString.eqb (contact cur) (contact p)
              && lt (elapsed p cur (1000 * 60)) (ofZ 5)); cbn [andb].
    + rewrite (IH _ _ (get_increment (contact cur) c o a H)).
      destruct (JsString.eqb (contact cur) c); cbn [List.length];
        do 2 f_equal; lia.
    + now apply IH.
Qed.

(** Along any list, the neighbours that are both sent by [c] are fewer than
    the messages of [c]. *)
Lemma adjacent_cons (A : Type) (x y : A) (l : list A) :
  JsArray.adjacent (x :: y :: l) = (x, y) :: JsArray.adjacent (y :: l).
Proof. reflexivity. Qed.

Lemma same_sender_pairs (l : list Message) :
  Z.of_nat
    (List.length
       (List.filter
          (fun pc => JsString.eqb (contact (snd pc)) (contact (fst pc))
                     && JsString.eqb (contact (snd pc)) c)
          (JsArray.adjacent l)))
  + (if existsb (fun m => JsString.eqb (contact m) c) l then 1 else 0)
  <= sentCount c l.
Proof.
  induction l as [|x l IH].
  - unfold sentCount. cbn. lia.
  - destruct l as [|y l'].
    + unfold sentCount. cbn [JsArray.adjacent tl combine List.filter existsb].
      destruct (JsString.eqb (contact x) c); cbn; lia.
    + rewrite adjacent_cons, (sentCount_cons c x).
      rewrite (sentCount_cons c y) in *.
      cbn [List.filter fst snd].
      change (existsb (fun m => JsString.eqb (contact m) c) (x :: y :: l'))
        with (JsString.eqb (contact x) c
              || existsb (fun m => JsString.eqb (contact m) c) (y :: l')).
      change (existsb (fun m => JsString.eqb (contact m) c) (y :: l'))
        with (JsString.eqb (contact y) c
              || existsb (fun m => JsString.eqb (contact m) c) l') in *.
      destruct (JsString.eqb (contact x) c) eqn:Ex;
        destruct (JsString.eqb (contact y) c) eqn:Ey;
        destruct (JsString.eqb (contact y) (contact x)) eqn:Exy;
        cbn [andb orb List.length] in *;
        try (apply eqb_eq in Ex, Exy; apply eqb_neq in Ey; congruence);
        try (apply eqb_eq in Ey, Exy; apply eqb_neq in Ex; congruence);
        try (apply eqb_eq in Ex, Ey; apply eqb_neq in Exy; congruence);
        repeat match goal with
               | H : context [if ?b then _ else _] |- _ => destruct b
               | |- context [if ?b then _ else _] => destruct b
               end; lia.
Qed.

Lemma filter_and_le (A : Type) (p q : A -> bool) (l : list A) :
  (List.length (List.filter (fun x => p x && q x) l)
   <= List.length (List.filter q l))%nat.
Proof.
  induction l as [|x l IH]; cbn [List.filter]; [lia|].
  destruct (p x), (q x); cbn [andb List.length]; lia.
Qed.

Lemma doubleTexts_bound (l : list Message) :
  existsb (fun m => JsString.eqb (contact m) c) l = true ->
  0 <= doubleTexts c l < sentCount c l.
Proof.
  intros H. pose proof (same_sender_pairs l) as Hs. rewrite H in Hs.
  unfold doubleTexts. split; [lia|].
  pose proof (filter_and_le _
                (fun pc => lt (elapsed (fst pc) (snd pc) (1000 * 60)) (ofZ 5))
                (fun pc => JsString.eqb (contact (snd pc)) (contact (fst pc))
                           && JsString.eqb (contact (snd pc)) c)
                (JsArray.adjacent l)) as Hle.
  assert (E : forall pc,
             isDoubleText pc && JsString.eqb (contact (snd pc)) c
             = lt (elapsed (fst pc) (snd pc) (1000 * 60)) (ofZ 5)
               && (JsString.eqb (contact (snd pc)) (contact (fst pc))
                   && JsString.eqb (contact (snd pc)) c)).
  { intros pc. unfold isDoubleText.
    destruct (JsString.eqb (contact (snd pc)) (contact (fst pc))),
             (lt _ _), (JsString.eqb (contact (snd pc)) c); reflexivity. }
  rewrite (filter_ext _ _ E). lia.
Qed.

Lemma sentCount_insert (cmp : Message -> Message -> number) (x : Message)
    (l : list Message) :
  sentCount c (JsArray.insert cmp x l) = sentCount c (x :: l).
Proof.
  induction l as [|y l IH]; cbn [JsArray.insert]; [reflexivity|].
  destruct (gt (cmp x y) (ofZ 0)); [|reflexivity].
  rewrite sentCount_cons, IH, !sentCount_cons. lia.
Qed.

Lemma sentCount_Permutation (l l' : list Message) :
  Permutation l l' -> sentCount c l = sentCount c l'.
Proof.
  induction 1 as [|x l l' _ IH|x y l|l1 l2 l3 _ IH1 _ IH2];
    rewrite ?sentCount_cons; lia.
Qed.

Lemma sentCount_sorted (l : list Message) :
  sentCount c (sorted l) = sentCount c l.
Proof.
  unfold sorted, JsArray.sort. induction l as [|x l IH]; cbn [fold_right];
    [reflexivity|].
  now rewrite sentCount_insert, !sentCount_cons, IH.
Qed.

End DoubleTextFacts.

Section KeywordOverlap.

Variable toLowerCase : jsstring -> jsstring.

Lemma isPrefixOf_trans (a b s : jsstring) :
  isPrefixOf a b = true -> isPrefixOf b s = true -> isPrefixOf a s = true.
Proof.
  revert b s. induction a as [|x a IH]; intros [|y b] [|z s]; cbn;
    try discriminate; try reflexivity.
  intros H1 H2. apply andb_true_iff in H1 as [E1 H1].
  apply andb_true_iff in H2 as [E2 H2].
  apply N.eqb_eq in E1, E2. subst. rewrite N.eqb_refl. cbn.
  now apply (IH b s).
Qed.

(** A text that contains [long] contains every prefix of [long]. *)
Lemma includes_prefix (short long s : jsstring) :
  isPrefixOf short long = true ->
  includes s long = true -> includes s short = true.
Proof.
  intros Hp. induction s as [|c s IH]; cbn [includes].
  - rewrite !orb_false_r. now apply isPrefixOf_trans.
  - intros H. apply orb_true_iff in H as [H|H]; apply orb_true_iff.
    + left. now apply (isPrefixOf_trans short long).
    + right. now apply IH.
Qed.

Lemma filter_length_mono (A : Type) (p q : A -> bool) (l : list A) :
  (forall x, p x = true -> q x = true) ->
  (List.length (List.filter p l) <= List.length (List.filter q l))%nat.
Proof.
  intros H. induction l as [|x l IH]; cbn [List.filter]; [lia|].
  destruct (p x) eqn:E.
  - rewrite (H x E). cbn [List.length]. lia.
  - destruct (q x); cbn [List.length]; lia.
Qed.

Lemma keywordCount_prefix (messages : list Message)
    (short long : jsstring) :
  isPrefixOf short long = true ->
  (keywordCount toLowerCase messages long
   <= keywordCount toLowerCase messages short)%nat.
Proof.
  intros H. unfold keywordCount. apply filter_length_mono.
  intros m. now apply includes_prefix.
Qed.

Lemma flat_map_length_le (A B : Type) (f : A -> list B) (l : list A) :
  (forall x, List.length (f x) <= 1)%nat ->
  (List.length (flat_map f l) <= List.length l)%nat.
Proof.
  intros H. induction l as [|x l IH]; cbn [flat_map List.length]; [lia|].
  rewrite length_app. specialize (H x). lia.
Qed.

Lemma redFlags_entries (messages : list Message) :
  redFlags toLowerCase messages
  = flat_map (fun e => flat_map (entryFor toLowerCase messages (fst e)) (snd e))
             redFlagKeywords.
Proof. unfold redFlags. now rewrite fold_pushCategory. Qed.

Lemma entryFor_In (messages : list Message) (category keyword : jsstring) :
  In (category, keyword)
     (flat_map (fun e => List.map (pair (fst e)) (snd e)) redFlagKeywords) ->
  (0 < keywordCount toLowerCase messages keyword)%nat ->
  In (Result.mkRedFlag category
        (flagText keyword (keywordCount toLowerCase messages keyword))
        (severityFor (keywordCount toLowerCase messages keyword)))
     (redFlags toLowerCase messages).
Proof.
  intros Hin Hpos. rewrite redFlags_entries.
  apply in_flat_map in Hin as ([cat kws] & He & Hk). cbn [fst snd] in Hk.
  apply in_map_iff in Hk as (kw & [= <- <-] & Hkw).
  apply in_flat_map. exists (cat, kws). split; [exact He|]. cbn [fst snd].
  apply in_flat_map. exists kw. split; [exact Hkw|].
  unfold entryFor. apply Nat.ltb_lt in Hpos. rewrite Hpos. now left.
Qed.

End KeywordOverlap.

Section TopWordsFacts.

Import Obj TopWords.

Lemma get_asNum (k : jsstring) (o : obj number) :
  get k (List.map asNum o) = option_map Num (get k o).
Proof.
  induction o as [|[k' v] o IH]; cbn [List.map get asNum fst snd];
    [reflexivity|].
  destruct (JsString.eqb k k'); [reflexivity|exact IH].
Qed.

Lemma update_asNum (k : jsstring) (v : number) (o : obj number) :
  update k (Num v) (List.map asNum o) = List.map asNum (update k v o).
Proof.
  induction o as [|[k' v'] o IH]; cbn [List.map update asNum fst snd];
    [reflexivity|].
  destruct (JsString.eqb k k'); cbn [List.map asNum fst snd];
    [reflexivity|now rewrite IH].
Qed.

Lemma set_asNum (k : jsstring) (v : number) (o : obj number) :
  set k (Num v) (List.map asNum o) = List.map asNum (set k v o).
Proof.
  unfold set. rewrite get_asNum. destruct (get k o); cbn [option_map].
  - apply update_asNum.
  - now rewrite map_app.
Qed.

Lemma not_inherited_proto (w : jsstring) :
  inheritedText w = None -> JsString.eqb w (str "__proto__") = false.
Proof.
  unfold inheritedText.
  destruct (JsString.eqb w (str "constructor")); [discriminate|].
  destruct (JsString.eqb w (str "__proto__")); [discriminate|reflexivity].
Qed.

(** Away from the names of [Object.prototype], the word count behaves as a
    plain tally. *)
Lemma countWord_asNum (o : obj number) (w : jsstring) :
  inheritedText w = None ->
  countWord (List.map asNum o) w = List.map asNum (countOne o w).
Proof.
  intros H. unfold countWord, plusOne, countOne.
  rewrite (not_inherited_proto w H), get_asNum, H.
  destruct (get w o) as [v|]; cbn [option_map]; apply set_asNum.
Qed.

Lemma fold_countWord_asNum (ws : list jsstring) :
  (forall w, In w ws -> inheritedText w = None) ->
  forall o,
    fold_left countWord ws (List.map asNum o)
    = List.map asNum (fold_left countOne ws o).
Proof.
  induction ws as [|w ws IH]; intros H o; cbn [fold_left]; [reflexivity|].
  rewrite countWord_asNum by (apply H; now left).
  apply IH. intros w' Hw'. apply H. now right.
Qed.

Lemma insertIndex_Permutation (V : Type) (e : jsstring * V)
    (l : list (jsstring * V)) :
  Permutation (insertIndex e l) (e :: l).
Proof.
  induction l as [|e' l IH]; cbn [insertIndex]; [reflexivity|].
  destruct (indexOfKey (fst e)), (indexOfKey (fst e')); try reflexivity.
  destruct (_ <? _); [|reflexivity].
  rewrite IH. apply perm_swap.
Qed.

Lemma filter_split_Permutation (B : Type) (p : B -> bool) (l : list B) :
  Permutation (List.filter p l ++ List.filter (fun x => negb (p x)) l) l.
Proof.
  induction l as [|x l IH]; cbn [List.filter]; [reflexivity|].
  destruct (p x); cbn [negb app].
  - now constructor.
  - rewrite <- Permutation_middle. now constructor.
Qed.

Lemma entries_Permutation (V : Type) (o : obj V) :
  Permutation (entries o) o.
Proof.
  unfold entries.
  rewrite <- (filter_split_Permutation _ (fun e => isIndexKey (fst e)) o)
    at 3.
  apply Permutation_app_tail.
  induction (List.filter (fun e => isIndexKey (fst e)) o) as [|e l IH];
    cbn [fold_right]; [reflexivity|].
  rewrite insertIndex_Permutation. now constructor.
Qed.

End TopWordsFacts.

Section DailyFacts.

Import Obj.

Lemma existsb_keys (k : jsstring) (o : obj number) :
  existsb (JsString.eqb k) (List.map fst o)
  = match get k o with Some _ => true | None => false end.
Proof.
  induction o as [|[k' v] o IH]; cbn [List.map fst existsb get];
    [reflexivity|].
  destruct (JsString.eqb k k'); [reflexivity|exact IH].
Qed.

Lemma countOne_keys (o : obj number) (k : jsstring) :
  List.map fst (countOne o k) = addOnce (List.map fst o) k.
Proof.
  unfold countOne, addOnce, set. rewrite existsb_keys.
  destruct (get k o).
  - apply update_keys.
  - now rewrite map_app.
Qed.

Lemma fold_countOne_keys (es : list jsstring) :
  forall o,
    List.map fst (fold_left countOne es o)
    = fold_left addOnce es (List.map fst o).
Proof.
  induction es as [|k es IH]; intros o; cbn [fold_left]; [reflexivity|].
  now rewrite IH, countOne_keys.
Qed.

Lemma wholeOf_ofZ (a : Z) : wholeOf (ofZ a) = a.
Proof. unfold wholeOf, ofZ. apply Qfloor_Z. Qed.

Lemma tallySum_app (o o' : obj number) :
  tallySum (o ++ o') = tallySum o + tallySum o'.
Proof.
  induction o as [|kv o IH]; cbn [app tallySum fold_right]; [reflexivity|].
  fold (tallySum (o ++ o')). fold (tallySum o). lia.
Qed.

Lemma tallySum_update (k : jsstring) (v v0 : number) (o : obj number) :
  get k o = Some v0 ->
  tallySum (update k v o) = tallySum o - wholeOf v0 + wholeOf v.
Proof.
  induction o as [|[k' v'] o IH]; cbn [get update]; [discriminate|].
  destruct (JsString.eqb k k').
  - intros [= ->]. cbn [tallySum fold_right snd]. lia.
  - intros H. cbn [tallySum fold_right snd]. fold (tallySum (update k v o)).
    fold (tallySum o). rewrite (IH H). lia.
Qed.

Lemma tallySum_countOne (o : obj number) (k : jsstring) :
  isTally o -> tallySum (countOne o k) = tallySum o + 1.
Proof.
  intros Ht. unfold countOne, set.
  destruct (get k o) as [v|] eqn:E.
  - destruct (tally_value o k v Ht E) as (a & -> & Ha).
    rewrite (truthy_positive a Ha), add_ofZ.
    rewrite (tallySum_update k _ (ofZ a) o E), !wholeOf_ofZ. lia.
  - rewrite tallySum_app, add_ofZ. cbn [tallySum fold_right snd].
    rewrite wholeOf_ofZ. lia.
Qed.

Lemma tallySum_fold (es : list jsstring) :
  forall o,
    isTally o ->
    tallySum (fold_left countOne es o)
    = tallySum o + Z.of_nat (List.length es).
Proof.
  induction es as [|k es IH]; intros o Ht; cbn [fold_left List.length].
  - lia.
  - rewrite (IH _ (proj1 (countOne_tally o k Ht))), tallySum_countOne
      by exact Ht. lia.
Qed.

Lemma tally_values (o : obj number) :
  isTally o ->
  exists zs,
    List.map snd o = List.map ofZ zs /\ Forall (fun z => 1 <= z) zs
    /\ fold_left Z.add zs 0 = tallySum o.
Proof.
  intros [_ H]. induction o as [|[k v] o IH].
  - exists []. repeat split; constructor.
  - inversion H as [|? ? (a & Ea & Ha) Ho]; subst. cbn [snd] in Ea. subst v.
    destruct (IH Ho) as (zs & E & Hz & Hs).
    exists (a :: zs). cbn [List.map snd]. rewrite E.
    split; [reflexivity|]. split; [now constructor|].
    cbn [tallySum fold_right snd]. fold (tallySum o).
    rewrite wholeOf_ofZ, <- Hs. cbn [fold_left].
    rewrite <- !fold_left_rev_right.
    generalize (rev zs) as l. clear. intros l.
    induction l as [|x l IH]; cbn [fold_right]; lia.
Qed.

Lemma dailyMessageCounts_tally (messages : list Message) :
  dailyMessageCounts messages
  = fold_left countOne
              (List.map (fun m => toDateString (timestamp m)) messages) [].
Proof.
  unfold dailyMessageCounts. generalize (@nil (jsstring * number)) as o.
  induction messages as [|m l IH]; intros o; cbn [fold_left List.map];
    [reflexivity|apply IH].
Qed.

(** The daily counts: as many as there are distinct dates, whole numbers of
    at least 1, adding up to the number of messages. *)
Lemma dailyCounts_spec (messages : list Message) :
  exists zs,
    dailyCounts messages = List.map ofZ zs
    /\ Forall (fun z => 1 <= z) zs
    /\ fold_left Z.add zs 0 = total messages
    /\ List.length zs
       = List.length
           (distinct (List.map (fun m => toDateString (timestamp m))
                               messages)).
Proof.
  unfold dailyCounts. rewrite dailyMessageCounts_tally.
  set (dates := List.map (fun m => toDateString (timestamp m)) messages).
  assert (H0 : isTally []) by (split; constructor).
  pose proof (proj1 (countOne_fold dates [] H0)) as Ht.
  destruct (tally_values _ Ht) as (zs & E & Hz & Hs).
  exists zs. split; [exact E|]. split; [exact Hz|]. split.
  - rewrite Hs, (tallySum_fold dates [] H0). cbn [tallySum fold_right].
    unfold dates, total. now rewrite length_map.
  - rewrite <- (length_map ofZ zs), <- E, length_map.
    rewrite <- (length_map fst), fold_countOne_keys. reflexivity.
Qed.

End DailyFacts.

Section NonNegative.

Lemma nonNegative_ofZ (a : Z) : 0 <= a -> nonNegative (ofZ a).
Proof.
  intros H. exists (inject_Z a). split; [reflexivity|].
  unfold Qle, inject_Z. cbn. lia.
Qed.

Lemma nonNegative_add (x y : number) :
  nonNegative x -> nonNegative y -> nonNegative (add x y).
Proof.
  intros (p & -> & Hp) (q & -> & Hq). exists (Qred (p + q)).
  split; [reflexivity|]. rewrite Qred_correct.
  replace 0%Q with (0 + 0)%Q by reflexivity. now apply Qplus_le_compat.
Qed.

Lemma nonNegative_square (p : Q) : nonNegative (Math_pow2 (Fin p)).
Proof.
  exists (Qred (p * p)). split; [reflexivity|]. rewrite Qred_correct.
  unfold Qle, Qmult. cbn. nia.
Qed.

Lemma nonNegative_div (x : number) (n : Z) :
  0 < n -> nonNegative x -> nonNegative (div x (ofZ n)).
Proof.
  intros Hn (p & -> & Hp). unfold div, ofZ.
  assert (Hz : Qzero (inject_Z n) = false).
  { unfold Qzero, Qeq_bool, inject_Z. simpl. apply Z.eqb_neq. lia. }
  rewrite Hz. exists (Qred (p / inject_Z n)). split; [reflexivity|].
  rewrite Qred_correct. destruct n as [|n|n]; try lia.
  unfold Qle, Qdiv, Qmult, Qinv, inject_Z in *. cbn in *. nia.
Qed.

Lemma positive_quotient (a b : Z) :
  0 < a -> 0 < b ->
  exists q, div (ofZ a) (ofZ b) = Fin q /\ (0 < q)%Q.
Proof.
  intros Ha Hb. unfold div, ofZ.
  assert (Hz : Qzero (inject_Z b) = false).
  { unfold Qzero, Qeq_bool, inject_Z. simpl. apply Z.eqb_neq. lia. }
  rewrite Hz. exists (Qred (inject_Z a / inject_Z b)).
  split; [reflexivity|]. rewrite Qred_correct.
  destruct b as [|b|b]; try lia.
  unfold Qlt, Qdiv, Qmult, Qinv, inject_Z. cbn. lia.
Qed.

(** [100 - (root / avg) * 50], rounded and cut at 0, for a root that is not
    negative and a positive average. *)
Lemma score_range (r a : Q) :
  (0 <= r)%Q -> (0 < a)%Q ->
  exists z,
    Math_max [ofZ 0;
              Math_round (sub (ofZ 100) (mul (div (Fin r) (Fin a)) (ofZ 50)))]
    = ofZ z
    /\ 0 <= z <= 100.
Proof.
  intros Hr Ha.
  assert (Hz : Qzero a = false).
  { unfold Qzero. destruct (Qeq_bool a 0) eqn:E; [|reflexivity].
    apply Qeq_bool_iff in E. rewrite E in Ha. now apply Qlt_irrefl in Ha. }
  cbn [div]. rewrite Hz. cbn [mul ofZ sub Math_round].
  set (t := Qred (Qred (r / a) * inject_Z 50)).
  assert (Ht : (0 <= t)%Q).
  { unfold t. rewrite !Qred_correct.
    apply Qmult_le_0_compat; [|discriminate].
    unfold Qdiv. apply Qmult_le_0_compat; [exact Hr|].
    apply Qinv_le_0_compat. now apply Qlt_le_weak. }
  set (z := Qfloor (Qred (inject_Z 100 - t) + (1 # 2))).
  assert (Hz100 : z <= 100).
  { unfold z. change 100 with (Qfloor (inject_Z 100 + (1 # 2))).
    apply Qfloor_resp_le. rewrite Qred_correct.
    apply Qplus_le_compat; [|apply Qle_refl].
    rewrite <- (Qplus_0_r (inject_Z 100)) at 2.
    unfold Qminus. apply Qplus_le_compat; [apply Qle_refl|].
    apply (Qopp_le_compat 0 t) in Ht. exact Ht. }
  exists (Z.max 0 z). split; [|lia].
  unfold Math_max. cbn [fold_left].
  change (Math_max2 NInf (ofZ 0)) with (ofZ 0).
  fold (ofZ z). apply max2_ofZ.
Qed.

End NonNegative.

Section ConsistencyFacts.

Lemma div_exact (n k : Z) : 0 < n -> div (ofZ (n * k)) (ofZ n) = ofZ k.
Proof.
  intros Hn. unfold div, ofZ.
  assert (Hz : Qzero (inject_Z n) = false).
  { unfold Qzero, Qeq_bool, inject_Z. simpl. apply Z.eqb_neq. lia. }
  rewrite Hz. f_equal. apply Qred_integer.
  destruct n as [|n|n]; try lia.
  unfold Qeq, Qdiv, Qmult, Qinv, inject_Z. cbn [Qnum Qden].
  rewrite ?Pos2Z.inj_mul. lia.
Qed.

Lemma div_zero (n : Z) : 0 < n -> div (ofZ 0) (ofZ n) = ofZ 0.
Proof.
  intros Hn. pose proof (div_exact n 0 Hn) as D.
  now rewrite Z.mul_0_r in D.
Qed.

Lemma squares_fold (avg : Q) (zs : list Z) :
  forall acc,
    nonNegative acc ->
    nonNegative
      (fold_left (fun acc count => add acc (Math_pow2 (sub count (Fin avg))))
                 (List.map ofZ zs) acc).
Proof.
  induction zs as [|z zs IH]; intros acc Hacc; cbn [List.map fold_left];
    [exact Hacc|].
  apply IH. apply nonNegative_add; [exact Hacc|].
  change (sub (ofZ z) (Fin avg)) with (Fin (Qred (inject_Z z - avg))).
  apply nonNegative_square.
Qed.

Lemma squares_fold_equal (k : Z) (zs : list Z) :
  Forall (fun z => z = k) zs ->
  fold_left (fun acc count => add acc (Math_pow2 (sub count (ofZ k))))
            (List.map ofZ zs) (ofZ 0)
  = ofZ 0.
Proof.
  induction 1 as [|z zs -> _ IH]; cbn [List.map fold_left]; [reflexivity|].
  unfold Math_pow2 at 2. rewrite sub_ofZ, mul_ofZ, add_ofZ, Z.sub_diag.
  exact IH.
Qed.

Lemma fold_add_equal (k : Z) (zs : list Z) :
  Forall (fun z => z = k) zs ->
  fold_left Z.add zs 0 = Z.of_nat (List.length zs) * k.
Proof.
  intros H.
  pose proof (fold_add_bounds zs k k) as Hb.
  assert (Hk : Forall (fun z => k <= z <= k) zs).
  { apply Forall_forall. intros z Hz.
    pose proof (proj1 (Forall_forall _ _) H z Hz) as E. cbv beta in E. lia. }
  specialize (Hb Hk 0). lia.
Qed.

End ConsistencyFacts.

Section EnergyFacts.

Variable toUpperCase : jsstring -> jsstring.

Lemma energyStep_points (e : Z) (m : Message) :
  energyStep toUpperCase (ofZ e) m = ofZ (e + energyPoints toUpperCase m).
Proof.
  unfold energyStep, energyPoints, Number.length, ofNat.
  destruct (allCaps toUpperCase m); rewrite !mul_ofZ, !add_ofZ; f_equal; lia.
Qed.

Lemma energy_fold (cm : list Message) :
  forall e,
    fold_left (energyStep toUpperCase) cm (ofZ e)
    = ofZ (e + energyTotal toUpperCase cm).
Proof.
  induction cm as [|m cm IH]; intros e; cbn [fold_left].
  - change (energyTotal toUpperCase []) with 0. now rewrite Z.add_0_r.
  - rewrite energyStep_points, IH. f_equal.
    change (energyTotal toUpperCase (m :: cm))
      with (energyPoints toUpperCase m + energyTotal toUpperCase cm).
    lia.
Qed.

Lemma energyPoints_nonneg (m : Message) : 0 <= energyPoints toUpperCase m.
Proof. unfold energyPoints. destruct (allCaps toUpperCase m); lia. Qed.

Lemma energyPoints_exclamation (m : Message) :
  In 33%N (message m) -> 2 <= energyPoints toUpperCase m.
Proof.
  intros H. unfold energyPoints.
  assert (Hf : In 33%N (List.filter (N.eqb 33) (message m))).
  { apply filter_In. split; [exact H|reflexivity]. }
  destruct (List.filter (N.eqb 33) (message m)); [contradiction|].
  cbn [List.length]. destruct (allCaps toUpperCase m); lia.
Qed.

Lemma energyTotal_bounds (cm : list Message) (lo : Z) :
  (forall m, In m cm -> lo <= energyPoints toUpperCase m) ->
  lo * Z.of_nat (List.length cm) <= energyTotal toUpperCase cm.
Proof.
  induction cm as [|m cm IH]; intros H.
  - cbn. lia.
  - change (energyTotal toUpperCase (m :: cm))
      with (energyPoints toUpperCase m + energyTotal toUpperCase cm).
    cbn [List.length].
    pose proof (H m (or_introl eq_refl)).
    pose proof (IH (fun m' Hm' => H m' (or_intror Hm'))). lia.
Qed.

End EnergyFacts.
(* ================================================================== *)
(** * The legacy date parser on what the line pattern captures *)

Section ScannerFacts.

Lemma numeral_step (ds : jsstring) (acc : Z) :
  fold_left (fun a c => a * 10 + Z.of_N (c - 48)) ds acc
  = acc * 10 ^ Z.of_nat (List.length ds) + numeral ds.
Proof.
  unfold numeral. revert acc.
  induction ds as [|c ds IH]; intros acc; cbn [fold_left List.length].
  - cbn. lia.
  - rewrite IH, (IH (0 * 10 + Z.of_N (c - 48))).
    rewrite Nat2Z.inj_succ, Z.pow_succ_r by lia. lia.
Qed.

Lemma numeral_nonneg (ds : jsstring) : 0 <= numeral ds.
Proof.
  unfold numeral.
  assert (H : forall acc, 0 <= acc ->
            0 <= fold_left (fun a c => a * 10 + Z.of_N (c - 48)) ds acc).
  { induction ds as [|c ds IH]; intros acc Hacc; cbn [fold_left].
    - exact Hacc.
    - apply IH. lia. }
  apply H. lia.
Qed.

(** A run of digits in front of something else is read whole. *)
Lemma readNumber_digits (ds rest : jsstring) :
  forallb isDigit ds = true -> halts isDigit rest ->
  forall acc,
    readNumber acc (ds ++ rest)
    = (fold_left (fun a c => a * 10 + Z.of_N (c - 48)) ds acc, rest).
Proof.
  intros Hd Hr. induction ds as [|c ds IH]; intros acc.
  - cbn [app fold_left].
    destruct Hr as [-> | (c & rest' & -> & Hc)]; cbn [readNumber].
    + reflexivity.
    + now rewrite Hc.
  - cbn [forallb] in Hd. apply andb_true_iff in Hd as [Hc Hd].
    cbn [app readNumber fold_left]. rewrite Hc. now apply IH.
Qed.

Lemma readNumber_length (s : jsstring) :
  forall acc, (List.length (snd (readNumber acc s)) <= List.length s)%nat.
Proof.
  induction s as [|c s IH]; intros acc; cbn [readNumber].
  - cbn. lia.
  - destruct (isDigit c).
    + specialize (IH (acc * 10 + Z.of_N (c - 48))). cbn [List.length]. lia.
    + cbn. lia.
Qed.

Lemma readWord_length (s : jsstring) :
  forall acc, (List.length (snd (readWord acc s)) <= List.length s)%nat.
Proof.
  induction s as [|c s IH]; intros acc; cbn [readWord].
  - cbn. lia.
  - destruct (isWordUnit c).
    + specialize (IH (lowerUnit c :: acc)). cbn [List.length]. lia.
    + cbn. lia.
Qed.

(** Fuel beyond the length of the string changes nothing. *)
Lemma scan_fuel (f1 : nat) :
  forall f2 s,
    (List.length s <= f1)%nat -> (List.length s <= f2)%nat ->
    scan f1 s = scan f2 s.
Proof.
  induction f1 as [|f1 IH]; intros f2 s H1 H2.
  - destruct s; [|cbn in H1; lia]. destruct f2; reflexivity.
  - destruct s as [|c s]; [destruct f2; reflexivity|].
    destruct f2 as [|f2]; [cbn in H2; lia|].
    cbn [List.length] in H1, H2. cbn [scan].
    destruct (isDigit c) eqn:Ed.
    + cbn [readNumber]. rewrite Ed.
      pose proof (readNumber_length s (0 * 10 + Z.of_N (c - 48))) as Hl.
      destruct (readNumber (0 * 10 + Z.of_N (c - 48)) s) as [n rest].
      cbn [snd] in Hl. f_equal. apply IH; lia.
    + destruct (isWordUnit c) eqn:Ew.
      * cbn [readWord]. rewrite Ew.
        pose proof (readWord_length s [lowerUnit c]) as Hl.
        destruct (readWord [lowerUnit c] s) as [w rest].
        cbn [snd] in Hl. f_equal. apply IH; lia.
      * destruct (isWhiteSpace c); f_equal; apply IH; lia.
Qed.

Lemma tokens_nil : tokens [] = [].
Proof. reflexivity. Qed.

Lemma tokens_number (ds rest : jsstring) :
  ds <> [] -> forallb isDigit ds = true -> halts isDigit rest ->
  tokens (ds ++ rest) = TNumber (numeral ds) :: tokens rest.
Proof.
  intros Hne Hd Hr. destruct ds as [|c ds]; [contradiction|].
  unfold tokens. cbn [app List.length scan].
  assert (Hc : isDigit c = true).
  { cbn [forallb] in Hd. now apply andb_true_iff in Hd as [Hc _]. }
  rewrite Hc.
  change (c :: ds ++ rest) with ((c :: ds) ++ rest).
  rewrite (readNumber_digits (c :: ds) rest Hd Hr 0).
  f_equal. apply scan_fuel; [|lia]. rewrite length_app. lia.
Qed.

Lemma tokens_symbol (c : char16) (rest : jsstring) :
  isDigit c = false -> isWordUnit c = false -> isWhiteSpace c = false ->
  tokens (c :: rest) = TSymbol c :: tokens rest.
Proof.
  intros Hd Hw Hs. unfold tokens. cbn [List.length scan].
  now rewrite Hd, Hw, Hs.
Qed.

Lemma tokens_space (c : char16) (rest : jsstring) :
  isDigit c = false -> isWordUnit c = false -> isWhiteSpace c = true ->
  tokens (c :: rest) = TWhiteSpace :: tokens rest.
Proof.
  intros Hd Hw Hs. unfold tokens. cbn [List.length scan].
  now rewrite Hd, Hw, Hs.
Qed.

Lemma tokens_word (c : char16) (rest : jsstring) :
  isDigit c = false -> isWordUnit c = true ->
  exists w more,
    tokens (c :: rest) = TWord (lowerUnit c :: w) :: more.
Proof.
  intros Hd Hw. unfold tokens. cbn [List.length scan].
  rewrite Hd, Hw. cbn [readWord]. rewrite Hw.
  assert (H : forall s acc, exists w,
            fst (readWord acc s) = rev acc ++ w).
  { induction s as [|x s IH]; intros acc; cbn [readWord].
    - exists []. cbn. now rewrite app_nil_r.
    - destruct (isWordUnit x).
      + destruct (IH (lowerUnit x :: acc)) as [w Ew]. rewrite Ew.
        cbn [rev]. rewrite <- app_assoc. now exists (lowerUnit x :: w).
      + exists []. cbn. now rewrite app_nil_r. }
  destruct (H rest [lowerUnit c]) as [w Ew].
  destruct (readWord [lowerUnit c] rest) as [w' rest'].
  cbn [fst rev app] in Ew. subst w'. eexists _, _. reflexivity.
Qed.

End ScannerFacts.

Section MarkFacts.

Lemma white_word_unit (c : char16) :
  isWhiteSpace c = true ->
  isWordUnit c = ((c =? 8232) || (c =? 8233))%N.
Proof.
  intros H. unfold isWordUnit. rewrite H. cbn [andb negb].
  unfold isLineTerminator.
  destruct (N.eqb_spec c 8232) as [->|N1]; [reflexivity|].
  destruct (N.eqb_spec c 8233) as [->|N2]; [reflexivity|].
  destruct (N.eqb_spec c 10) as [->|N3]; [reflexivity|].
  destruct (N.eqb_spec c 13) as [->|N4]; [reflexivity|].
  cbn. now rewrite andb_false_r.
Qed.

Lemma isAaPp_word (x : char16) :
  Parser.isAaPp x = true ->
  isDigit x = false /\ isWordUnit x = true
  /\ ((lowerUnit x = 97%N /\ ((x =? 65) || (x =? 97))%N = true)
      \/ (lowerUnit x = 112%N /\ ((x =? 65) || (x =? 97))%N = false)).
Proof.
  unfold Parser.isAaPp. intros H.
  repeat (apply orb_true_iff in H as [H|H]);
    apply N.eqb_eq in H; subst x; repeat split; auto.
Qed.

Lemma isMm_word (y : char16) :
  Parser.isMm y = true -> isWordUnit y = true /\ lowerUnit y = 109%N.
Proof.
  unfold Parser.isMm. intros H.
  apply orb_true_iff in H as [H|H]; apply N.eqb_eq in H; subst y;
    split; reflexivity.
Qed.

Lemma tokens_mark_word (x y : char16) :
  Parser.isAaPp x = true -> Parser.isMm y = true ->
  tokens [x; y] = [TWord [lowerUnit x; lowerUnit y]].
Proof.
  intros Hx Hy. apply isAaPp_word in Hx as (Hd & Hw & _).
  apply isMm_word in Hy as (Hw' & _).
  unfold tokens. cbn [List.length scan]. rewrite Hd, Hw.
  cbn [readWord]. now rewrite Hw, Hw'.
Qed.

Lemma space_not_digit (c : char16) :
  isWhiteSpace c = true -> isDigit c = false.
Proof.
  intros H. destruct (isDigit c) eqn:E; [|reflexivity].
  apply digit_not_space in E. congruence.
Qed.

(** The tokens of a mark [ws ++ [x; y]]: the white space unit by unit and
    then the word, unless a separator among [ws] starts a word of its own. *)
Lemma tokens_gap (ws : jsstring) (x y : char16) :
  blank ws -> Parser.isAaPp x = true -> Parser.isMm y = true ->
  (forallb (fun c => negb ((c =? 8232) || (c =? 8233))%N) ws = true
   /\ tokens (ws ++ [x; y])
      = repeat TWhiteSpace (List.length ws)
        ++ [TWord [lowerUnit x; lowerUnit y]])
  \/ (forallb (fun c => negb ((c =? 8232) || (c =? 8233))%N) ws = false
      /\ exists j w more,
           tokens (ws ++ [x; y]) = repeat TWhiteSpace j ++ TWord w :: more
           /\ isMarkWord w = false).
Proof.
  intros Hb Hx Hy. unfold blank in Hb.
  induction ws as [|c ws IH].
  - left. split; [reflexivity|]. now apply tokens_mark_word.
  - cbn [forallb] in Hb. apply andb_true_iff in Hb as [Hc Hb].
    specialize (IH Hb). cbn [forallb app List.length repeat].
    pose proof (white_word_unit c Hc) as Hw.
    pose proof (space_not_digit c Hc) as Hd.
    destruct ((c =? 8232) || (c =? 8233))%N eqn:Es; cbn [negb andb].
    + right. split; [reflexivity|].
      destruct (tokens_word c (ws ++ [x; y]) Hd Hw) as (w & more & E).
      exists O, (lowerUnit c :: w), more. split; [exact E|].
      assert (El : lowerUnit c = c).
      { apply orb_true_iff in Es as [Es|Es]; apply N.eqb_eq in Es;
          subst c; reflexivity. }
      rewrite El. unfold isMarkWord.
      apply orb_true_iff in Es as [Es|Es]; apply N.eqb_eq in Es; subst c;
        reflexivity.
    + rewrite (tokens_space c (ws ++ [x; y]) Hd Hw Hc).
      destruct IH as [[Hp E]|[Hp (j & w & more & E & Hm)]].
      * left. split; [exact Hp|]. now rewrite E.
      * right. split; [exact Hp|]. exists (S j), w, more.
        split; [|exact Hm]. now rewrite E.
Qed.

Lemma forallb_rev (A : Type) (p : A -> bool) (l : list A) :
  forallb p (rev l) = forallb p l.
Proof.
  induction l as [|x l IH]; [reflexivity|].
  cbn [rev forallb]. rewrite forallb_app, IH. cbn [forallb].
  rewrite andb_true_r. apply andb_comm.
Qed.

Lemma markOf_gap (ws : jsstring) (x y : char16) :
  markOf (ws ++ [x; y])
  = if negb (Nat.eqb (List.length ws) 0)
       && forallb (fun c => negb ((c =? 8232) || (c =? 8233))%N) ws
    then if ((x =? 65) || (x =? 97))%N then AM else PM
    else UnreadMark.
Proof.
  unfold markOf. rewrite rev_app_distr. cbn [rev app].
  now rewrite length_rev, forallb_rev.
Qed.

(** The tokens of the mark are those of its reading. *)
Lemma tokens_mark (mer : jsstring) :
  meridiemShaped mer -> markTokens (tokens mer) (markOf mer).
Proof.
  intros [->|(ws & x & y & -> & Hb & Hx & Hy)]; [constructor|].
  rewrite markOf_gap.
  destruct (tokens_gap ws x y Hb Hx Hy)
    as [[Hp E]|[Hp (j & w & more & E & Hm)]]; rewrite E, Hp.
  - destruct ws as [|c ws]; cbn [List.length Nat.eqb negb andb repeat app].
    + constructor.
    + change (TWhiteSpace :: repeat TWhiteSpace (List.length ws)
                ++ [TWord [lowerUnit x; lowerUnit y]])
        with (repeat TWhiteSpace (S (List.length ws))
                ++ [TWord [lowerUnit x; lowerUnit y]]).
      destruct (isAaPp_word x Hx) as (_ & _ & [[-> ->]|[-> ->]]);
        destruct (isMm_word y Hy) as [_ ->]; constructor.
  - rewrite andb_false_r. destruct j as [|j].
    + cbn [repeat app]. constructor.
    + now constructor.
Qed.

Lemma mark_halts (mer : jsstring) :
  meridiemShaped mer -> halts isDigit mer.
Proof.
  intros [->|(ws & x & y & -> & Hb & Hx & Hy)]; [now left|right].
  destruct ws as [|c ws]; cbn [app].
  - exists x, [y]. split; [reflexivity|].
    now apply isAaPp_word in Hx as (Hd & _).
  - exists c, (ws ++ [x; y]). split; [reflexivity|].
    unfold blank in Hb. cbn [forallb] in Hb.
    apply andb_true_iff in Hb as [Hc _]. now apply space_not_digit.
Qed.

End MarkFacts.

Section LegacyFacts.

Lemma legacy_spaces (j : nat) (rest : list token) (st : composers) :
  legacy (repeat TWhiteSpace j ++ rest) st = legacy rest st.
Proof.
  induction j as [|j IH]; [reflexivity|]. cbn [repeat app legacy]. exact IH.
Qed.

(** What follows the numbers of the time, once the time is closed. *)
Lemma legacy_mark (M : list token) (mark : meridiem)
    (D T : list Z) (t0 : Z) :
  markTokens M mark ->
  (if endsTime M then legacy M (mkComposers D (t0 :: T) true None) else None)
  = match mark with
    | UnreadMark => None
    | _ => Some (mkComposers D (t0 :: T) true (offsetOf mark))
    end.
Proof.
  intros H. destruct H as [|w more|j|j|j w more Hw].
  - reflexivity.
  - reflexivity.
  - cbn [repeat app endsTime legacy]. now rewrite legacy_spaces.
  - cbn [repeat app endsTime legacy]. now rewrite legacy_spaces.
  - cbn [repeat app endsTime legacy]. rewrite legacy_spaces.
    unfold isMarkWord in Hw. apply orb_false_iff in Hw as [H1 H2].
    cbn [legacy]. now rewrite H1, H2.
Qed.

(** The last number of the time, followed by the mark. *)
Lemma legacy_final (M : list token) (mark : meridiem)
    (a b y t0 : Z) (T : list Z) (n : Z) :
  markTokens M mark -> (List.length T <= 1)%nat ->
  legacy (TNumber n :: M) (mkComposers [a; b; y] (t0 :: T) false None)
  = if between 0 59 n
    then match mark with
         | UnreadMark => None
         | _ => Some (mkComposers [a; b; y] ((t0 :: T) ++ [n]) true
                                  (offsetOf mark))
         end
    else None.
Proof.
  intros HM HT.
  assert (E : legacy (TNumber n :: M)
                     (mkComposers [a; b; y] (t0 :: T) false None)
              = if between 0 59 n
                then if endsTime M
                     then legacy M (mkComposers [a; b; y] ((t0 :: T) ++ [n])
                                                true None)
                     else None
                else None).
  { destruct T as [|t1 [|t2 T]]; [| |cbn in HT; lia];
      destruct HM; cbn [repeat app legacy timeExpects timeComp timeDone
                        dayComp hourOffset dayAdd negb andb List.length
                        endsTime Nat.ltb Nat.leb];
      destruct (between 0 59 n); reflexivity. }
  rewrite E. destruct (between 0 59 n); [|reflexivity].
  now apply legacy_mark.
Qed.

End LegacyFacts.

Section ReadingFacts.

Lemma writeDay_read (a b y : Z) :
  0 <= a -> 0 <= b -> 0 <= y ->
  writeDay [a; b; y]
  = match dateRead a b y with
    | Some (year, month, day) => Some (MakeDay year (month - 1) day)
    | None => None
    end.
Proof.
  intros Ha Hb Hy. unfold writeDay, dateRead, century, between.
  cbn [List.length Nat.eqb nth andb].
  destruct (1 <=? a) eqn:E1; destruct (a <=? 31) eqn:E2; cbn [andb negb];
    repeat match goal with
    | |- context [?u <=? ?v] => destruct (Z.leb_spec u v)
    | |- context [?u <? ?v] => destruct (Z.ltb_spec u v)
    end; cbn [andb orb negb]; try reflexivity; try lia;
    repeat (f_equal; try lia).
Qed.

Lemma writeTime_read (h mi s : Z) (mark : meridiem) (T : list Z) :
  0 <= h -> 0 <= mi -> 0 <= s ->
  (T = [h; mi] /\ s = 0) \/ T = [h; mi; s] ->
  mark <> UnreadMark ->
  writeTime T (offsetOf mark)
  = match timeRead h mi s mark with
    | Some (hour, minute, second) => Some (MakeTime hour minute second 0)
    | None => None
    end.
Proof.
  intros Hh Hm Hs HT Hmark.
  assert (E : nth 0 T 0 = h /\ nth 1 T 0 = mi /\ nth 2 T 0 = s
              /\ nth 3 T 0 = 0).
  { destruct HT as [[-> ->]| ->]; repeat split. }
  destruct E as (E0 & E1 & E2 & E3).
  unfold writeTime. rewrite E0, E1, E2, E3. clear E0 E1 E2 E3 HT T.
  assert (Hmod : 0 <= h mod 12 < 12) by (apply Z.mod_pos_bound; lia).
  unfold timeRead, between, offsetOf.
  destruct mark; [|contradiction| |]; rewrite ?Z.add_0_r;
    set (k := h mod 12) in *; clearbody k;
    repeat first
      [ match goal with
        | |- context [?u <=? ?v] => destruct (Z.leb_spec u v)
        | |- context [?u =? ?v] => destruct (Z.eqb_spec u v)
        end
      | progress cbn [andb orb negb] ];
    try reflexivity; try lia.
Qed.

End ReadingFacts.

Section ShapedDates.

Lemma digitsIn_run (lo hi : nat) (ds : jsstring) :
  digitsIn (S lo) hi ds -> ds <> [] /\ forallb isDigit ds = true.
Proof.
  intros [Hd Hl]. split; [|exact Hd]. intros ->. cbn in Hl. lia.
Qed.

Lemma halts_unit (p : char16 -> bool) (c : char16) (rest : jsstring) :
  p c = false -> halts p (c :: rest).
Proof. intros H. right. now exists c, rest. Qed.

(** The tokens of the date, the space and the first two numbers of the
    time. *)
Lemma tokens_front (a b y h mi rest : jsstring) :
  digitsIn 1 2 a -> digitsIn 1 2 b -> digitsIn 2 4 y ->
  digitsIn 1 2 h -> digitsIn 2 2 mi -> halts isDigit rest ->
  tokens ((a ++ 47%N :: b ++ 47%N :: y) ++ 32%N :: h ++ 58%N :: mi ++ rest)
  = TNumber (numeral a) :: TSymbol 47%N :: TNumber (numeral b)
    :: TSymbol 47%N :: TNumber (numeral y) :: TWhiteSpace
    :: TNumber (numeral h) :: TSymbol 58%N :: TNumber (numeral mi)
    :: tokens rest.
Proof.
  intros Ha Hb Hy Hh Hm Hr.
  apply digitsIn_run in Ha as [Na Da], Hb as [Nb Db], Hy as [Ny Dy],
    Hh as [Nh Dh], Hm as [Nm Dm].
  rewrite <- app_assoc. cbn [app]. rewrite <- app_assoc. cbn [app].
  rewrite (tokens_number a _ Na Da) by now apply halts_unit.
  rewrite tokens_symbol by reflexivity.
  rewrite (tokens_number b _ Nb Db) by now apply halts_unit.
  rewrite tokens_symbol by reflexivity.
  rewrite (tokens_number y _ Ny Dy) by now apply halts_unit.
  rewrite tokens_space by reflexivity.
  rewrite (tokens_number h _ Nh Dh) by now apply halts_unit.
  rewrite tokens_symbol by reflexivity.
  now rewrite (tokens_number mi _ Nm Dm Hr).
Qed.

Lemma stampOf_unread (a b y h mi s : Z) :
  stampOf a b y h mi s UnreadMark = InvalidDate.
Proof.
  unfold stampOf. cbn [timeRead].
  now destruct (dateRead a b y) as [[[year month] day]|].
Qed.

Lemma stampOf_late (a b y h mi s : Z) (mark : meridiem) :
  0 <= h -> 0 <= mi -> 0 <= s ->
  between 0 59 mi && between 0 59 s = false ->
  stampOf a b y h mi s mark = InvalidDate.
Proof.
  intros Hh Hm Hs H. unfold stampOf.
  assert (E : timeRead h mi s mark = None).
  { unfold between in H. unfold timeRead.
    destruct mark; try reflexivity;
      repeat first
        [ match goal with
          | |- context [?u <=? ?v] => destruct (Z.leb_spec u v)
          | |- context [?u =? ?v] => destruct (Z.eqb_spec u v)
          | _ : context [?u <=? ?v] |- _ => destruct (Z.leb_spec u v)
          end
        | progress cbn [andb orb negb] in * ];
      try reflexivity; try discriminate; try lia. }
  rewrite E. now destruct (dateRead a b y) as [[[year month] day]|].
Qed.

(** What the parser's state holds after the last token decides the date. *)
Lemma parsed_stamp (a b y h mi s : Z) (mark : meridiem) (T : list Z) :
  0 <= a -> 0 <= b -> 0 <= y -> 0 <= h -> 0 <= mi -> 0 <= s ->
  (T = [h; mi] /\ s = 0) \/ T = [h; mi; s] ->
  mark <> UnreadMark ->
  match writeDay [a; b; y], writeTime T (offsetOf mark) with
  | Some d, Some t => ValidDate (MakeDate d t)
  | _, _ => InvalidDate
  end
  = stampOf a b y h mi s mark.
Proof.
  intros Ha Hb Hy Hh Hm Hs HT Hmark.
  rewrite writeDay_read by assumption.
  rewrite (writeTime_read h mi s mark T) by assumption.
  unfold stampOf, Spec.civilTime.
  destruct (dateRead a b y) as [[[year month] day]|]; [|reflexivity].
  now destruct (timeRead h mi s mark) as [[[hour minute] second]|].
Qed.

(** The date object of a written date and time. *)
Lemma newDate_shaped (a b y h mi sec mer : jsstring) :
  digitsIn 1 2 a -> digitsIn 1 2 b -> digitsIn 2 4 y ->
  digitsIn 1 2 h -> digitsIn 2 2 mi ->
  secondsShaped sec -> meridiemShaped mer ->
  newDate ((a ++ 47%N :: b ++ 47%N :: y)
           ++ 32%N :: h ++ 58%N :: mi ++ sec ++ mer)
  = stampOf (numeral a) (numeral b) (numeral y) (numeral h) (numeral mi)
            (secondsOf sec) (markOf mer).
Proof.
  intros Ha Hb Hy Hh Hm Hsec Hmer.
  pose proof (numeral_nonneg a) as Pa. pose proof (numeral_nonneg b) as Pb.
  pose proof (numeral_nonneg y) as Py. pose proof (numeral_nonneg h) as Ph.
  pose proof (numeral_nonneg mi) as Pm.
  pose proof (tokens_mark mer Hmer) as HM.
  pose proof (mark_halts mer Hmer) as Hhalt.
  unfold newDate, parseLegacy.
  destruct Hsec as [->|(ss & -> & Hss)].
  - cbn [app]. rewrite (tokens_front a b y h mi mer) by assumption.
    change (legacy _ _)
      with (legacy (TNumber (numeral mi) :: tokens mer)
                   (mkComposers [numeral a; numeral b; numeral y]
                                [numeral h] false None)).
    rewrite (legacy_final (tokens mer) (markOf mer)
               (numeral a) (numeral b) (numeral y) (numeral h) []
               (numeral mi) HM) by (cbn; lia).
    change (secondsOf []) with 0.
    destruct (between 0 59 (numeral mi)) eqn:Em.
    + destruct (markOf mer) eqn:Emark;
        try (cbn [dayComp timeComp hourOffset app];
             rewrite <- Emark;
             apply parsed_stamp; try assumption; try lia;
             [now left|rewrite Emark; discriminate]).
      symmetry. apply stampOf_unread.
    + symmetry. apply stampOf_late; try assumption; try lia.
      now rewrite Em.
  - pose proof (numeral_nonneg ss) as Ps.
    apply digitsIn_run in Hss as [Ns Ds].
    rewrite (tokens_front a b y h mi (_ ++ mer))
      by (try assumption; now apply halts_unit).
    cbn [app]. rewrite tokens_symbol by reflexivity.
    rewrite (tokens_number ss mer Ns Ds Hhalt).
    change (legacy _ _)
      with (legacy (TNumber (numeral ss) :: tokens mer)
                   (mkComposers [numeral a; numeral b; numeral y]
                                [numeral h; numeral mi] false None)).
    rewrite (legacy_final (tokens mer) (markOf mer)
               (numeral a) (numeral b) (numeral y) (numeral h)
               [numeral mi] (numeral ss) HM) by (cbn; lia).
    change (secondsOf (58%N :: ss)) with (numeral ss).
    destruct (between 0 59 (numeral ss)) eqn:Es.
    + destruct (markOf mer) eqn:Emark;
        try (cbn [dayComp timeComp hourOffset app];
             rewrite <- Emark;
             apply parsed_stamp; try assumption; try lia;
             [now right|rewrite Emark; discriminate]).
      symmetry. apply stampOf_unread.
    + symmetry. apply stampOf_late; try assumption; try lia.
      rewrite Es. apply andb_false_r.
Qed.

End ShapedDates.
(* ================================================================== *)
(** * The claims of the specification *)

Import Parser.
Import Analysis.

(* ================================================================== *)
(** * Example 1 *)

(** C1, as stated, fails: on the input of Example 1 the compatibility score
    is not 100. *)
Lemma example1_score_is_not_100 : ~ Spec.example1Outcome 100.
Proof.
  intros (parsed & r & Hp & _ & Ha & _ & _ & _ & _ & Hs).
  vm_compute in Hp. injection Hp as <-.
  vm_compute in Ha. injection Ha as <-.
  vm_compute in Hs. discriminate.
Qed.

(** C1, amended.  The input of Example 1 parses to exactly two messages;
    [analysis] reports one message for Alice and one for Bob, an interest
    level of 50 for each, and a compatibility score of 75. *)
Theorem example1_outcome : Spec.example1Outcome 75.
Proof.
  unfold Spec.example1Outcome.
  eexists. eexists.
  split; [vm_compute; reflexivity|].
  split; [reflexivity|].
  split; [vm_compute; reflexivity|].
  repeat split; vm_compute; reflexivity.
Qed.

(* ================================================================== *)
(** * Interest levels and the compatibility score *)

(** C2.  Whenever [analysis] returns a result, its compatibility score is
    the integer [round((min(i1,i2) + (100 - |i1-i2|)) / 2)] of the two
    interest levels [i1] and [i2]; it lies in [0,100], and it equals 100
    only when both interest levels are exactly 50.  (The score is in fact at
    most 75, so that it never equals 100.) *)
Theorem compatibility_score_range (messages : list Message) (r : Result.t) :
  analysis messages = Return (Some r) ->
  exists z i1 i2 : Z,
    Result.compatibilityScore r = ofZ z
    /\ contact1Interest messages = ofZ i1
    /\ contact2Interest messages = ofZ i2
    /\ z = (Z.min i1 i2 + (100 - Z.abs (i1 - i2)) + 1) / 2
    /\ 0 <= z <= 100
    /\ (z = 100 -> i1 = 50 /\ i2 = 50)
    /\ z <= 75.
Proof.
  intros H. returned H. cbn [Result.compatibilityScore].
  assert (Hne : messages <> []) by congruence.
  pose proof (total_pos messages Hne) as Ht.
  pose proof (counts_le_total messages) as (H1 & H2 & H12).
  set (i1 := percent (n1 messages) (total messages)).
  set (i2 := percent (n2 messages) (total messages)).
  assert (E1 : contact1Interest messages = ofZ i1)
    by apply (interestOf_percent messages Hne).
  assert (E2 : contact2Interest messages = ofZ i2)
    by apply (interestOf_percent messages Hne).
  exists ((Z.min i1 i2 + (100 - Z.abs (i1 - i2)) + 1) / 2), i1, i2.
  split; [now apply compatibility_formula|].
  split; [exact E1|]. split; [exact E2|]. split; [reflexivity|].
  assert (R1 : 0 <= i1 <= 100) by (apply percent_range; lia).
  assert (R2 : 0 <= i2 <= 100) by (apply percent_range; lia).
  assert (S12 : i1 + i2 <= 101) by (apply percent_sum_le; lia).
  clearbody i1 i2.
  assert (B : 0 <= (Z.min i1 i2 + (100 - Z.abs (i1 - i2)) + 1) / 2 <= 75)
    by (Z.div_mod_to_equations; lia).
  split; [lia|]. split; [intros Hz; lia|lia].
Qed.

Lemma compatibility_score_range_witness :
  exists r,
    analysis Examples.example1Messages = Return (Some r)
    /\ exists z i1 i2 : Z,
         Result.compatibilityScore r = ofZ z
         /\ contact1Interest Examples.example1Messages = ofZ i1
         /\ contact2Interest Examples.example1Messages = ofZ i2
         /\ z = (Z.min i1 i2 + (100 - Z.abs (i1 - i2)) + 1) / 2
         /\ 0 <= z <= 100
         /\ (z = 100 -> i1 = 50 /\ i2 = 50)
         /\ z <= 75.
Proof.
  eexists. split.
  - vm_compute. reflexivity.
  - apply (compatibility_score_range Examples.example1Messages).
    vm_compute. reflexivity.
Defined.

(* ================================================================== *)
(** * Ratios over an empty subsequence *)

(** C3 (the code departs from the claim).  On a transcript with a single
    participant the second contact is [undefined] and its subsequence is
    empty: the average message length and the three communication style
    percentages reported for it are NaN, not 0, while the interest level,
    the average response time and the energy level are 0 and the sentiment
    is its default 50.  The two unguarded ratios are NaN on every empty
    subsequence. *)
Theorem unguarded_ratios_on_empty_subsequence :
  (exists parsed r,
     processWhatsAppFile Examples.loneTranscript = Return parsed
     /\ analysis (List.map ofParsed parsed) = Return (Some r)
     /\ Result.contacts r = (Some Examples.alice, None)
     /\ Obj.get (str "undefined") (Result.avgMessageLength r) = Some NaN
     /\ Obj.get (str "undefined") (Result.communicationStyles r)
        = Some (Result.mkStyle NaN NaN NaN)
     /\ Obj.get (str "undefined") (Result.interestLevels r) = Some (ofZ 0)
     /\ Obj.get (str "undefined") (Result.avgResponseTime r) = Some (ofZ 0)
     /\ Obj.get (str "undefined") (Result.energyLevels r) = Some (ofZ 0)
     /\ Obj.get (str "undefined") (Result.sentimentScores r) = Some (ofZ 50))
  /\ Math_round (avgLength []) = NaN
  /\ getCommunicationStyle toUpperCase [] = Result.mkStyle NaN NaN NaN
  /\ getEnergyLevel toUpperCase [] = ofZ 0
  /\ meanOrZero [] = ofZ 0
  /\ getSentimentScore toLowerCase [] = ofZ 50.
Proof.
  split.
  - eexists. eexists.
    split; [vm_compute; reflexivity|].
    split; [vm_compute; reflexivity|].
    repeat split; vm_compute; reflexivity.
  - repeat split; vm_compute; reflexivity.
Qed.

(* ================================================================== *)
(** * How a written date is read *)

(** C4, as stated, fails: the line "1/2/24, 10:00 - Alice: hello" is stamped
    2 January 2024, 10:00, not 1 February 2024, 10:00. *)
Lemma first_number_is_not_the_day :
  Spec.timestampsOf (Spec.lineOf (Spec.dateToken 1 2 24) (Spec.timeToken 10 0))
  = [Spec.civilTime 2024 1 2 10 0 0]
  /\ ~ Spec.dayFirstClaim 1 2 24 10 0.
Proof.
  split; [vm_compute; reflexivity|].
  unfold Spec.dayFirstClaim. vm_compute. discriminate.
Qed.

(** C4, amended.  For every line the parser matches, the message is stamped
    with what [new Date] reads in the date token, a space and the time
    token, and that is [stampOf] of the numbers written in the line.  The
    three numbers of the date are read month, day, year when the first is in
    1..31 (so in "1/2/24" the 1 is the month and the 2 is the day, and a
    first number in 13..31 gives the invalid date), and year, month, day
    otherwise; a year below 50 is in the 2000s and a year in 50..99 in the
    1900s.  The time is read as hour:minute[:second], on the 12 hour clock
    when "am" or "pm" follows after white space that holds no U+2028 or
    U+2029; a mark written otherwise, a minute or second above 59, an hour
    above 23 (above 12 with a mark; 24:00:00 apart), a month outside 1..12 or
    a day outside 1..31 give the invalid date. *)
Theorem timestamps_read_month_first (line d t n m : jsstring) :
  matchLine line = Some (d, t, n, m) ->
  exists a b y h mi sec mer,
    d = a ++ 47%N :: b ++ 47%N :: y
    /\ t = h ++ 58%N :: mi ++ sec ++ mer
    /\ digitsIn 1 2 a /\ digitsIn 1 2 b /\ digitsIn 2 4 y
    /\ digitsIn 1 2 h /\ digitsIn 2 2 mi
    /\ secondsShaped sec /\ meridiemShaped mer
    /\ forall messages,
         pushLine messages line
         = messages
           ++ [mkParsed d t (trim n) (trim m)
                 (stampOf (numeral a) (numeral b) (numeral y)
                          (numeral h) (numeral mi)
                          (secondsOf sec) (markOf mer))].
Proof.
  intros H.
  pose proof (matchLine_shaped _ _ _ _ _ H) as (Hd & Ht & _).
  destruct Hd as (a & b & y & Ed & Ha & Hb & Hy).
  destruct Ht as (h & mi & sec & mer & Et & Hh & Hm & Hsec & Hmer).
  exists a, b, y, h, mi, sec, mer.
  repeat (split; [assumption|]).
  intros messages. unfold pushLine. rewrite H. subst d t.
  now rewrite newDate_shaped by assumption.
Qed.

Lemma timestamps_read_month_first_witness :
  exists a b y h mi sec mer,
    str "1/2/24" = a ++ 47%N :: b ++ 47%N :: y
    /\ str "10:00" = h ++ 58%N :: mi ++ sec ++ mer
    /\ digitsIn 1 2 a /\ digitsIn 1 2 b /\ digitsIn 2 4 y
    /\ digitsIn 1 2 h /\ digitsIn 2 2 mi
    /\ secondsShaped sec /\ meridiemShaped mer
    /\ forall messages,
         pushLine messages (str "1/2/24, 10:00 - Alice: hello")
         = messages
           ++ [mkParsed (str "1/2/24") (str "10:00")
                 (trim (str "Alice")) (trim (str "hello"))
                 (stampOf (numeral a) (numeral b) (numeral y)
                          (numeral h) (numeral mi)
                          (secondsOf sec) (markOf mer))].
Proof.
  apply (timestamps_read_month_first
           (str "1/2/24, 10:00 - Alice: hello") (str "1/2/24") (str "10:00")
           (str "Alice") (str "hello")).
  vm_compute. reflexivity.
Defined.

(* ================================================================== *)
(** * Red flags *)

(** C5, as stated, fails: a keyword written twice in one message is counted
    once, so the flags are not those of the occurrence count. *)
Lemma red_flags_do_not_count_occurrences :
  Spec.occurrenceCount toLowerCase Examples.hateMessages (str "hate") = 2%nat
  /\ redFlags toLowerCase Examples.hateMessages
     = [Result.mkRedFlag (str "toxic") (flagText (str "hate") 1) Result.low]
  /\ redFlags toLowerCase Examples.hateMessages
     <> Spec.flagsFor
          (Spec.occurrenceCount toLowerCase Examples.hateMessages).
Proof.
  split; [reflexivity|]. split; [vm_compute; reflexivity|].
  vm_compute. discriminate.
Qed.

(** C5, amended.  Whatever the host's [toLowerCase] is, the red flags of a
    message sequence are, in the order of the keyword table, one entry per
    keyword mentioned by at least one message, where the count of a keyword
    is the number of messages, from whichever contact, whose lower-cased
    text contains it (several occurrences within one message count once);
    the severity is high above 10, medium above 5 and low otherwise.  These
    flags are what a returned result reports. *)
Theorem red_flags_count_messages
    (toLowerCase : jsstring -> jsstring) (messages : list Message) :
  redFlags toLowerCase messages
  = Spec.flagsFor (Spec.mentioningCount toLowerCase messages)
  /\ (forall keyword,
        Spec.mentioningCount toLowerCase messages keyword
        = List.length
            (List.filter
               (fun m => includes (toLowerCase (message m)) keyword) messages))
  /\ (forall count, Spec.severityScale count (severityFor count))
  /\ (forall toUpperCase sortedMessages r,
        body toLowerCase toUpperCase messages sortedMessages
        = Return (Some r) ->
        Result.redFlags r = redFlags toLowerCase messages).
Proof.
  split; [|split; [|split]].
  - unfold redFlags. rewrite fold_pushCategory, app_nil_l.
    unfold Spec.flagsFor.
    apply flat_map_ext. intros [category keywords]. simpl.
    apply flat_map_ext. intros keyword. unfold entryFor.
    now rewrite keywordCount_mentioning.
  - intros keyword. symmetry. apply keywordCount_mentioning.
  - apply severityFor_scale.
  - intros toUpperCase sortedMessages r H. returnedBody H. reflexivity.
Qed.

Lemma red_flags_count_messages_witness :
  exists r,
    analysis Examples.hateMessages = Return (Some r)
    /\ Result.redFlags r = redFlags toLowerCase Examples.hateMessages.
Proof.
  eexists. split; [vm_compute; reflexivity|].
  apply (proj2 (proj2 (proj2
           (red_flags_count_messages toLowerCase Examples.hateMessages)))
           toUpperCase (sorted Examples.hateMessages)).
  vm_compute. reflexivity.
Defined.

(* ================================================================== *)
(** * Errors of the analytics engine *)

(** C6 (the code departs from the claim).  The parser signals nothing but
    the "no valid messages" error, but the analytics engine signals one of
    its own: as soon as the sorted sequence holds a reply, within 24 hours,
    by someone who is neither of the two identified contacts, [analysis]
    throws a TypeError, because the dictionary of response times has no
    array under that name. *)
Theorem third_party_reply_throws
    (messages : list Message) (previous current : Message) :
  strangerReply messages previous current ->
  analysis messages = Throw TypeError.
Proof.
  intros (Hin & Hne & Hlt & Hk1 & Hk2).
  unfold analysis.
  destruct messages as [|m0 rest] eqn:E; [contradiction|]. rewrite <- E in *.
  unfold body, avgResponseTime, responseTimes.
  rewrite (foldM_responseStep_throws
             (key (contact1 messages)) (key (contact2 messages))).
  - reflexivity.
  - apply literal2_onlyTwoKeys.
  - exists (previous, current). split; [exact Hin|].
    unfold throwing. cbn [fst snd]. auto.
Qed.

Lemma third_party_reply_throws_witness :
  strangerReply Examples.groupMessages
    (mkMessage Examples.bob (str "b") (ValidDate 1704189660000))
    (mkMessage Examples.carol (str "c") (ValidDate 1704189720000))
  /\ analysis Examples.groupMessages = Throw TypeError.
Proof.
  assert (H : strangerReply Examples.groupMessages
                (mkMessage Examples.bob (str "b") (ValidDate 1704189660000))
                (mkMessage Examples.carol (str "c") (ValidDate 1704189720000))).
  { unfold strangerReply. split; [vm_compute; auto|].
    split; [vm_compute; discriminate|].
    split; [vm_compute; reflexivity|].
    split; vm_compute; discriminate. }
  split; [exact H|].
  exact (third_party_reply_throws Examples.groupMessages _ _ H).
Defined.

(** The same, from the raw text: the transcript of a group of three parses
    to three messages, and the core answers with a TypeError, which is not
    the parser's error. *)
Lemma core_throws_on_a_group_chat :
  parsesTo Examples.groupTranscript Examples.groupMessages
  /\ core Examples.groupTranscript = Throw TypeError
  /\ TypeError <> noMessages.
Proof.
  split; [exact groupTranscript_parsed|].
  split; [vm_compute; reflexivity|discriminate].
Qed.

(* ================================================================== *)
(** * Message counts and interest levels *)

(** C7, as stated, fails: with a third participant the two per-contact
    counts (1 and 1) do not add up to the total (3), and the two interest
    levels (33 and 33) do not add up to 100 give or take 1. *)
Lemma third_party_breaks_the_sums : ~ Spec.countsClaim Examples.threeParty.
Proof.
  intros H.
  assert (Hr : exists r, analysis Examples.threeParty = Return (Some r))
    by (vm_compute; eexists; reflexivity).
  destruct Hr as [r Hr].
  destruct (H r Hr) as (c1 & c2 & i1 & i2 & H1 & H2 & Ht & _).
  vm_compute in Hr. injection Hr as <-.
  vm_compute in H1. injection H1 as <-.
  vm_compute in H2. injection H2 as <-.
  vm_compute in Ht. discriminate Ht.
Qed.

(** C7, amended.  For every non empty message sequence with at most two
    distinct contacts (a lone contact not being called "undefined"),
    [analysis] returns a result in which the two per-contact message counts
    add up to the total message count and the two interest levels add up to
    100 give or take 1. *)
Theorem counts_and_interest_sums (messages : list Message) :
  messages <> [] ->
  (List.length (contacts messages) <= 2)%nat ->
  contacts messages <> [str "undefined"] ->
  exists r,
    analysis messages = Return (Some r)
    /\ Result.totalMessages r = ofZ (Z.of_nat (List.length messages))
    /\ Spec.countsReport r.
Proof.
  intros Hne Hlen Hu.
  destruct messages as [|m0 rest] eqn:E; [contradiction|]. rewrite <- E in *.
  destruct (analysis_returns messages m0 rest E Hlen) as [r Hr].
  exists r. split; [exact Hr|].
  returned Hr.
  cbn [Result.totalMessages]. split; [reflexivity|].
  unfold Spec.countsReport.
  cbn [Result.contacts Result.messageCounts Result.interestLevels
       Result.totalMessages fst snd].
  pose proof (keys_differ messages Hne Hu) as Hk.
  pose proof (total_pos messages Hne) as Ht.
  pose proof (counts_le_total messages) as (H1 & H2 & _).
  pose proof (every_message_counted messages Hlen) as Hsum.
  exists (n1 messages), (n2 messages),
         (percent (n1 messages) (total messages)),
         (percent (n2 messages) (total messages)).
  split; [now apply get_literal2_fst|].
  split; [apply get_literal2_snd|].
  split; [unfold totalMessages, Number.length, ofNat; fold (total messages);
          now rewrite Hsum|].
  split; [rewrite get_literal2_fst by exact Hk;
          f_equal; now apply interestOf_percent|].
  split; [rewrite get_literal2_snd;
          f_equal; now apply interestOf_percent|].
  split.
  - pose proof (percent_sum_ge _ _ _ Ht Hsum). lia.
  - apply percent_sum_le; lia.
Qed.

Lemma counts_and_interest_sums_witness :
  Examples.example1Messages <> []
  /\ (List.length (contacts Examples.example1Messages) <= 2)%nat
  /\ contacts Examples.example1Messages <> [str "undefined"]
  /\ exists r,
       analysis Examples.example1Messages = Return (Some r)
       /\ Result.totalMessages r
          = ofZ (Z.of_nat (List.length Examples.example1Messages))
       /\ Spec.countsReport r.
Proof.
  assert (H1 : Examples.example1Messages <> []) by discriminate.
  assert (H2 : (List.length (contacts Examples.example1Messages) <= 2)%nat)
    by (vm_compute; lia).
  assert (H3 : contacts Examples.example1Messages <> [str "undefined"])
    by (vm_compute; discriminate).
  split; [exact H1|]. split; [exact H2|]. split; [exact H3|].
  exact (counts_and_interest_sums Examples.example1Messages H1 H2 H3).
Defined.

(* ================================================================== *)
(** * Conversation starters *)

(** C8, as stated, fails: the first message of a transcript is not counted
    as a starter when it is dated before the epoch (here 1 January 1960) or
    has no valid date (here a date written day first, "13/2/24"), since its
    gap to time zero does not exceed four hours. *)
Lemma first_message_is_not_always_a_starter :
  ~ Spec.startersClaim Examples.oldMessages
  /\ ~ Spec.startersClaim Examples.undatedMessages.
Proof.
  split; intros [_ H].
  - assert (E : Spec.startsConversation Spec.epochZero
                  (sorted Examples.oldMessages) 0 = true)
      by (apply H; discriminate).
    vm_compute in E. discriminate E.
  - assert (E : Spec.startsConversation Spec.epochZero
                  (sorted Examples.undatedMessages) 0 = true)
      by (apply H; discriminate).
    vm_compute in E. discriminate E.
Qed.

(** C8, amended.  Walking the array the sort returns, whichever it is, the
    counter of each of the two contacts ends as the number of its messages
    whose gap to the immediately preceding message (from any contact)
    exceeds 4 hours, the first message being measured against time zero; so
    the first message counts as a starter exactly when its timestamp is
    valid and lies more than 4 hours after the epoch.  These counters are
    what a returned result reports. *)
Theorem conversation_starters_count (messages sortedMessages : list Message) :
  (forall c,
     c = key (contact1 messages) \/ c = key (contact2 messages) ->
     Obj.get c (conversationStarters messages sortedMessages)
     = Some (ofNat (Spec.startsBy Spec.epochZero c sortedMessages)))
  /\ (forall m rest,
        sortedMessages = m :: rest ->
        (Spec.startsConversation Spec.epochZero sortedMessages 0 = true
         <-> exists t, timestamp m = ValidDate t /\ 4 * 3600000 < t))
  /\ (forall toLowerCase toUpperCase r,
        body toLowerCase toUpperCase messages sortedMessages
        = Return (Some r) ->
        Result.conversationStarters r
        = conversationStarters messages sortedMessages).
Proof.
  split; [|split].
  - intros c Hc. unfold conversationStarters.
    rewrite (starterStep_fold c sortedMessages _ _ 0
               (get_zeroCounters messages c Hc)).
    rewrite startsBy_rec. reflexivity.
  - intros m rest ->. apply first_message_starts.
  - intros toLowerCase toUpperCase r H. returnedBody H. reflexivity.
Qed.

Lemma conversation_starters_count_witness :
  (Examples.alice = key (contact1 Examples.example1Messages)
   \/ Examples.alice = key (contact2 Examples.example1Messages))
  /\ Obj.get Examples.alice
       (conversationStarters Examples.example1Messages
          (sorted Examples.example1Messages))
     = Some (ofNat (Spec.startsBy Spec.epochZero Examples.alice
                      (sorted Examples.example1Messages))).
Proof.
  assert (H : Examples.alice = key (contact1 Examples.example1Messages)
              \/ Examples.alice = key (contact2 Examples.example1Messages))
    by (left; reflexivity).
  split; [exact H|].
  exact (proj1 (conversation_starters_count Examples.example1Messages
                  (sorted Examples.example1Messages))
               Examples.alice H).
Defined.

(* ================================================================== *)
(** * Determinism *)

(** C9.  Run on the array at some address of a heap of message arrays, the
    closure returns what [analysis] returns on the messages stored there,
    whatever else the heap holds, and leaves that array as it found it; a
    second run on the heap the first one leaves returns the same result. *)
Theorem analysis_is_deterministic (h : heap) (a : nat) :
  let (r1, h1) := analysisOn a h in
  let (r2, h2) := analysisOn a h1 in
  r1 = r2
  /\ load h1 a = load h a
  /\ (forall messages, load h a = Some messages -> r1 = analysis messages).
Proof.
  destruct (load h a) as [[|m rest]|] eqn:E.
  - unfold analysisOn. rewrite E. rewrite E.
    repeat split; try assumption.
    intros messages [= <-]. reflexivity.
  - rewrite (analysisOn_nonempty h a m rest E).
    assert (E' : load (h ++ [sorted (m :: rest)]) a = Some (m :: rest)).
    { rewrite load_old; [exact E|congruence]. }
    rewrite (analysisOn_nonempty _ a m rest E').
    repeat split; try assumption.
    intros messages [= <-]. reflexivity.
  - unfold analysisOn. rewrite E. rewrite E.
    repeat split; try assumption. intros messages H. discriminate H.
Qed.

Lemma analysis_is_deterministic_witness :
  load [Examples.example1Messages] 0 = Some Examples.example1Messages
  /\ fst (analysisOn 0 [Examples.example1Messages])
     = analysis Examples.example1Messages.
Proof.
  generalize (analysis_is_deterministic [Examples.example1Messages] 0).
  destruct (analysisOn 0 [Examples.example1Messages]) as [r1 h1].
  destruct (analysisOn 0 h1) as [r2 h2].
  intros (_ & _ & H). split; [reflexivity|].
  apply H. reflexivity.
Defined.

(* ================================================================== *)
(** * Weekend and weekday counts *)



(* ================================================================== *)
(** * Further properties of the parser *)

(** X1.  The line pattern, read as a shape.  A line is matched exactly when
    it is, in this order: an optional "[", a date D/M/Y (one or two digits,
    twice, then two to four), an optional ",", white space, a time H:MM with
    optional ":SS" and optional am/pm, an optional "]", white space, an
    optional "-", white space, a non empty name without ":", a ":", white
    space, and a non empty text without line terminator running to the end
    of the line; and the four pieces [matchLine] returns lay the line out
    that way. *)
Theorem line_matches_iff_shaped (line : jsstring) :
  (forall d t n m,
     matchLine line = Some (d, t, n, m) -> lineShaped line d t n m)
  /\ (matchLine line <> None <-> exists d t n m, lineShaped line d t n m).
Proof.
  split; [intros d t n m; apply matchLine_shaped|].
  split.
  - intros H. destruct (matchLine line) as [[[[d t] n] m]|] eqn:E;
      [|contradiction].
    exists d, t, n, m. now apply matchLine_shaped.
  - intros (d & t & n & m & H). now apply shaped_matchLine in H.
Qed.

(** X2.  Round trip of an exported line.  Written out as
    "D/M/YY, H:MM - Name: text", a date, a time, a name (not empty, no ":",
    no white space at either end) and a text (not empty, no line terminator,
    no white space at either end) are read back unchanged: the parser pushes
    exactly one message carrying these four strings, stamped with
    [new Date("D/M/YY H:MM")].  The same holds for the bracketed layout
    "[D/M/YY, H:MM:SS] Name: text" when the name does not start with "-". *)
Theorem exported_line_round_trip
    (messages : list ParsedMessage) (d t n m : jsstring) :
  dateShaped d -> timeShaped t -> storable notColon n -> storable dot m ->
  pushLine messages (dashLine d t n m)
  = messages ++ [mkParsed d t n m (newDate (d ++ 32%N :: t))]
  /\ (halts (N.eqb 45) n ->
      pushLine messages (bracketLine d t n m)
      = messages ++ [mkParsed d t n m (newDate (d ++ 32%N :: t))]).
Proof.
  intros Hd Ht Hn Hm.
  assert (En : trim n = n) by apply Hn.
  assert (Em : trim m = m) by apply Hm.
  split; [|intros Hdash]; unfold pushLine.
  - rewrite (takes_matchLine _ d t n m) by now apply takes_dashLine.
    now rewrite En, Em.
  - rewrite (takes_matchLine _ d t n m) by now apply takes_bracketLine.
    now rewrite En, Em.
Qed.

Lemma exported_line_round_trip_witness :
  pushLine [] (dashLine (str "1/2/24") (str "10:00") (str "Alice")
                        (str "hello"))
  = [mkParsed (str "1/2/24") (str "10:00") (str "Alice") (str "hello")
              (newDate (str "1/2/24 10:00"))].
Proof.
  refine (proj1 (exported_line_round_trip [] (str "1/2/24") (str "10:00")
                   (str "Alice") (str "hello") _ _ _ _)).
  - exists (str "1"), (str "2"), (str "24").
    repeat split; vm_compute; try reflexivity; lia.
  - exists (str "10"), (str "00"), [], [].
    repeat split; try (vm_compute; reflexivity); try (vm_compute; lia);
      now left.
  - repeat split; try discriminate; reflexivity.
  - repeat split; try discriminate; reflexivity.
Defined.

(** X3.  Carriage returns.  The text of a message is matched by [.+] up to
    the end of the line, and [.] refuses line terminators: a line that ends
    with a carriage return (or U+2028, U+2029) is never matched.  So a text
    whose lines all end that way (a file with CR LF line endings and a final
    line break) is rejected as holding no message, whatever its lines
    say. *)
Theorem carriage_return_lines_are_dropped (content : jsstring) :
  (forall line,
     In line (split 10%N content) ->
     line = [] \/ exists s c, line = s ++ [c] /\ isLineTerminator c = true) ->
  processWhatsAppFile content = Throw noMessages.
Proof.
  intros H. rewrite processWhatsAppFile_flat_map.
  unfold lines. rewrite parsedOf_filtered.
  replace (flat_map parsedOf (split 10%N content))
    with (@nil ParsedMessage); [reflexivity|].
  symmetry. apply flat_map_nil. intros line Hin. apply parsedOf_nil.
  destruct (H line Hin) as [-> | (s & c & -> & Hc)].
  - apply empty_line_unmatched.
  - now apply terminated_line_unmatched.
Qed.

Lemma carriage_return_lines_are_dropped_witness :
  processWhatsAppFile
    (str "1/2/24, 10:00 - Alice: hello" ++ [13%N; 10%N]
     ++ str "1/2/24, 10:05 - Bob: hi there!" ++ [13%N; 10%N])
  = Throw noMessages.
Proof.
  apply carriage_return_lines_are_dropped.
  intros line Hin. vm_compute in Hin.
  destruct Hin as [<- | [<- | [<- | []]]].
  - right. exists (str "1/2/24, 10:00 - Alice: hello"), 13%N.
    split; reflexivity.
  - right. exists (str "1/2/24, 10:05 - Bob: hi there!"), 13%N.
    split; reflexivity.
  - now left.
Defined.

(** X4.  Continuation lines.  A line that opens with neither "[" nor a
    digit is never matched, so the further lines of a message written over
    several lines are lost: putting such a line anywhere between two lines
    of a text changes nothing to what the parser returns. *)
Theorem continuation_lines_are_dropped
    (before extra after : jsstring) :
  forallb (fun c => negb (c =? 10)%N) extra = true ->
  halts (fun c => (c =? 91)%N || isDigit c) extra ->
  processWhatsAppFile (before ++ 10%N :: extra ++ 10%N :: after)
  = processWhatsAppFile (before ++ 10%N :: after).
Proof.
  intros Hlf Hopen. rewrite !processWhatsAppFile_flat_map.
  unfold lines. rewrite !parsedOf_filtered, !split_app.
  rewrite (split_single _ _ Hlf), !flat_map_app. cbn [flat_map].
  replace (parsedOf extra) with (@nil ParsedMessage); [reflexivity|].
  symmetry. apply parsedOf_nil. now apply unopened_line_unmatched.
Qed.

Lemma continuation_lines_are_dropped_witness :
  processWhatsAppFile
    (str "1/2/24, 10:00 - Alice: hello" ++ 10%N
     :: str "and a second line" ++ 10%N
     :: str "1/2/24, 10:05 - Bob: hi there!")
  = processWhatsAppFile
      (str "1/2/24, 10:00 - Alice: hello" ++ 10%N
       :: str "1/2/24, 10:05 - Bob: hi there!").
Proof.
  apply (continuation_lines_are_dropped
           (str "1/2/24, 10:00 - Alice: hello") (str "and a second line")
           (str "1/2/24, 10:05 - Bob: hi there!")).
  - vm_compute. reflexivity.
  - right. eexists _, _. split; reflexivity.
Defined.

(** X5.  What a parsed message holds.  In every message the parser returns,
    the date and the time have the shapes of the pattern, the timestamp is
    [new Date(date + " " + time)], the contact holds no ":" and the text no
    line terminator, and neither has white space at its ends (a second
    [trim] changes nothing). *)
Theorem parsed_fields_are_clean
    (content : jsstring) (messages : list ParsedMessage) (p : ParsedMessage) :
  processWhatsAppFile content = Return messages -> In p messages ->
  dateShaped (Parser.date p) /\ timeShaped (Parser.time p)
  /\ Parser.timestamp p = newDate (Parser.date p ++ 32%N :: Parser.time p)
  /\ forallb notColon (Parser.contact p) = true
  /\ forallb dot (Parser.message p) = true
  /\ trim (Parser.contact p) = Parser.contact p
  /\ trim (Parser.message p) = Parser.message p.
Proof.
  rewrite processWhatsAppFile_flat_map. intros H Hin.
  assert (Hp : In p (flat_map parsedOf (lines content))).
  { destruct (flat_map parsedOf (lines content)); [discriminate|].
    now injection H as <-. }
  apply in_flat_map in Hp as (line & _ & Hp). unfold parsedOf in Hp.
  destruct (matchLine line) as [[[[d t] n] m]|] eqn:E; [|contradiction].
  destruct Hp as [<- | []].
  cbn [Parser.date Parser.time Parser.timestamp Parser.contact
       Parser.message].
  apply matchLine_shaped in E as (Hd & Ht & _ & Hnc & _ & Hmd & _).
  split; [exact Hd|]. split; [exact Ht|]. split; [reflexivity|].
  split; [now apply forallb_trim|]. split; [now apply forallb_trim|].
  split; apply trim_idempotent.
Qed.

Lemma parsed_fields_are_clean_witness :
  exists messages p,
    processWhatsAppFile Examples.example1 = Return messages
    /\ In p messages
    /\ trim (Parser.contact p) = Parser.contact p.
Proof.
  eexists _, _. split; [vm_compute; reflexivity|].
  split; [left; reflexivity|].
  eapply (parsed_fields_are_clean Examples.example1).
  - vm_compute. reflexivity.
  - left. reflexivity.
Defined.

(** X6.  The outcomes of the pipeline.  Handed a text, the parser followed
    by the analysis ends in one of three ways: the parser's "no valid
    messages" error (exactly when no line matches), the TypeError of the
    response time loop, or a full result.  The [null] that the analysis
    keeps for an empty array is never reached, since the parser never hands
    over an empty array. *)
Theorem core_outcomes (content : jsstring) :
  (core content = Throw noMessages
   /\ forall line, In line (split 10%N content) -> matchLine line = None)
  \/ ((exists line, In line (split 10%N content) /\ matchLine line <> None)
      /\ (core content = Throw TypeError
          \/ exists r, core content = Return (Some r))).
Proof.
  unfold core. rewrite processWhatsAppFile_flat_map.
  unfold lines. rewrite parsedOf_filtered.
  destruct (flat_map parsedOf (split 10%N content)) as [|p ps] eqn:E.
  - left. split; [reflexivity|]. intros line Hin. apply parsedOf_nil.
    revert line Hin. now apply flat_map_nil.
  - right. split.
    + assert (Hin : In p (flat_map parsedOf (split 10%N content)))
        by (rewrite E; now left).
      apply in_flat_map in Hin as (line & Hl & Hp). exists line.
      split; [exact Hl|]. intros Hn. apply parsedOf_nil in Hn.
      now rewrite Hn in Hp.
    + cbn [List.map analysis].
      destruct (body toLowerCase toUpperCase
                     (ofParsed p :: List.map ofParsed ps)
                     (sorted (ofParsed p :: List.map ofParsed ps)))
        as [[r|]|e] eqn:Eb.
      * right. now exists r.
      * exfalso. unfold body in Eb.
        destruct (avgResponseTime _ _); discriminate Eb.
      * left. f_equal. now apply body_throw_inv in Eb.
Qed.

(* ================================================================== *)
(** * Further properties of the analysis *)

(** X7.  The only failure of the closure.  Whatever the host's case
    mappings are and whatever array its sort hands back, when the closure
    throws, what it throws is a TypeError, and that array then holds a
    reply, within 24 hours, by someone who is neither of the two identified
    contacts: the push onto [responseTimes[current.contact]].  No other
    step of [body] throws. *)
Theorem analysis_throws_only_on_a_stranger_reply
    (toLowerCase toUpperCase : jsstring -> jsstring)
    (messages sortedMessages : list Message) (e : exception) :
  body toLowerCase toUpperCase messages sortedMessages = Throw e ->
  e = TypeError
  /\ exists previous current,
       strangerReplyIn messages sortedMessages previous current.
Proof.
  intros H.
  apply body_throw_inv in H as (He & [previous current] & Hin & Ht).
  split; [exact He|]. exists previous, current.
  destruct Ht as (H1 & H2 & H3 & H4). cbn [fst snd] in *.
  repeat split; assumption.
Qed.

Lemma analysis_throws_only_on_a_stranger_reply_witness :
  analysis Examples.groupMessages = Throw TypeError
  /\ exists previous current,
       strangerReplyIn Examples.groupMessages
         (sorted Examples.groupMessages) previous current.
Proof.
  split; [vm_compute; reflexivity|].
  apply (analysis_throws_only_on_a_stranger_reply toLowerCase toUpperCase
           Examples.groupMessages (sorted Examples.groupMessages)
           TypeError).
  vm_compute. reflexivity.
Defined.

(** X8.  The two contacts.  The analysis is about the first two distinct
    senders in the order of the array (the order of the file, not of the
    timestamps): [contact1] is the sender of the first message, [contact2]
    the sender of the first message that someone else sent, and [undefined]
    when one person sent everything. *)
Theorem contacts_are_the_first_two_senders
    (m : Message) (rest : list Message) :
  contact1 (m :: rest) = Some (contact m)
  /\ contact2 (m :: rest) = option_map contact (firstOther (contact m) rest)
  /\ (contact2 (m :: rest) = None <->
      forall m', In m' rest -> contact m' = contact m).
Proof.
  split; [now apply (contact1_first (m :: rest) m rest)|].
  split; [apply contact2_second|].
  rewrite contact2_second. unfold firstOther.
  destruct (find _ rest) as [x|] eqn:E; cbn [option_map].
  - split; [discriminate|]. intros H. exfalso.
    apply find_some in E as [Hin Hx]. apply negb_true_iff, eqb_neq in Hx.
    apply Hx. now apply H.
  - split; [|reflexivity]. intros _ m' Hin.
    pose proof (find_none _ _ E m' Hin) as Hx.
    apply negb_false_iff in Hx. now apply eqb_eq.
Qed.

(** X9.  The peak hour.  After the loop, [hourlyActivity] holds for every
    hour 0..23 the number of messages whose [getHours()] is that hour (a
    message with an invalid date is in no bucket), and [peakHour] is the
    first hour whose bucket is the largest: an hour in 0..23, never -1. *)
Theorem peak_hour_is_the_first_busiest (messages : list Message) :
  hourlyActivity messages
  = List.map (fun i => ofZ (hourCount messages i)) (range 0 23)
  /\ exists h : Z,
       peakHour messages = ofZ h /\ 0 <= h <= 23
       /\ (forall i, 0 <= i <= 23 ->
                     hourCount messages i <= hourCount messages h)
       /\ (forall i, 0 <= i < h ->
                     hourCount messages i < hourCount messages h).
Proof.
  destruct (hourlyActivity_counts messages) as (zs & E & Hl & Hn).
  split; [rewrite E; now apply (counts_as_range zs 24)|].
  unfold peakHour. rewrite E.
  destruct (peak_spec zs) as (k & Ek & Hk & Hmax & Hfirst).
  { intros ->. discriminate Hl. }
  rewrite Hl in *. exists (Z.of_nat k). rewrite Ek.
  split; [reflexivity|]. split; [lia|]. rewrite <- (Hn k Hk). split.
  - intros i Hi. rewrite <- (Z2Nat.id i), <- Hn by lia. apply Hmax. lia.
  - intros i Hi. rewrite <- (Z2Nat.id i), <- Hn by lia. apply Hfirst. lia.
Qed.

(** X10.  The peak day.  [weeklyActivity] holds for every day 0..6 (Sunday
    first) the number of messages whose [getDay()] is that day, and
    [peakDay] is the name of the first day whose bucket is the largest; it
    is always one of the seven names, "Sunday" when no message has a valid
    date. *)
Theorem peak_day_is_the_first_busiest (messages : list Message) :
  weeklyActivity messages
  = List.map (fun i => ofZ (dayCount messages i)) (range 0 6)
  /\ exists (d : Z) (name : jsstring),
       peakDay messages = Some name
       /\ nth_error weekDays (Z.to_nat d) = Some name /\ 0 <= d <= 6
       /\ (forall i, 0 <= i <= 6 ->
                     dayCount messages i <= dayCount messages d)
       /\ (forall i, 0 <= i < d ->
                     dayCount messages i < dayCount messages d).
Proof.
  destruct (weeklyActivity_counts messages) as (zs & E & Hl & Hn).
  split; [rewrite E; now apply (counts_as_range zs 7)|].
  unfold peakDay. rewrite E.
  destruct (peak_spec zs) as (k & Ek & Hk & Hmax & Hfirst).
  { intros ->. discriminate Hl. }
  rewrite Hl in *. rewrite Ek.
  assert (Hneg : (Z.of_nat k <? 0) = false) by (apply Z.ltb_ge; lia).
  rewrite Hneg, Nat2Z.id.
  destruct (nth_error weekDays k) as [name|] eqn:Ename.
  2:{ apply nth_error_None in Ename. cbn in Ename. lia. }
  exists (Z.of_nat k), name. rewrite Nat2Z.id.
  split; [reflexivity|]. split; [exact Ename|]. split; [lia|].
  rewrite <- (Hn k Hk). split.
  - intros i Hi. rewrite <- (Z2Nat.id i), <- Hn by lia. apply Hmax. lia.
  - intros i Hi. rewrite <- (Z2Nat.id i), <- Hn by lia. apply Hfirst. lia.
Qed.

(** X11.  The sentiment score.  Whatever the host's [toLowerCase] is, with
    p the number of words that contain a positive entry and n the number of
    words that contain a negative one, [getSentimentScore] is a whole number
    within 0..100 that lies within one half of the percentage of p in p + n
    (which way an exact half goes is left open: it hangs on the rounding of
    the quotient); it is 50 when no word hits either list, 100 when only
    positive entries are hit and 0 when only negative ones are. *)
Theorem sentiment_score_range
    (toLowerCase : jsstring -> jsstring) (cm : list Message) :
  let p := lexiconHits toLowerCase positiveWords cm in
  let n := lexiconHits toLowerCase negativeWords cm in
  exists z,
    getSentimentScore toLowerCase cm = ofZ z /\ 0 <= z <= 100
    /\ (0 < p + n -> 2 * Z.abs (z * (p + n) - 100 * p) <= p + n)
    /\ (p + n = 0 -> z = 50)
    /\ (0 < p -> n = 0 -> z = 100)
    /\ (p = 0 -> 0 < n -> z = 0).
Proof.
  intros p n. rewrite getSentimentScore_percent. fold p n.
  pose proof (lexiconHits_nonneg toLowerCase positiveWords cm) as Hp.
  pose proof (lexiconHits_nonneg toLowerCase negativeWords cm) as Hn.
  fold p in Hp. fold n in Hn.
  destruct (Z.ltb_spec 0 (p + n)) as [H|H].
  - exists (percent p (p + n)). split; [reflexivity|].
    split; [apply percent_range; lia|]. split.
    + intros _. unfold percent. clearbody p n.
      pose proof (Z.div_mod (200 * p + (p + n)) (2 * (p + n))) as Hdm.
      pose proof (Z.mod_pos_bound (200 * p + (p + n)) (2 * (p + n))) as Hb.
      nia.
    + split; [lia|]. split.
      * intros _ ->. rewrite Z.add_0_r. unfold percent.
        replace (200 * p + p) with (100 * (2 * p) + p) by lia.
        rewrite Z.div_add_l by lia. rewrite Z.div_small by lia. lia.
      * intros -> _. cbn [Z.add]. apply percent_zero. lia.
  - exists 50. split; [reflexivity|]. repeat split; lia.
Qed.

(** X12.  Conversation gaps.  Every recorded gap is a whole number of days,
    at least 1 (a silence of more than one day, rounded to the nearest
    day).  When no gap is recorded the longest and the average gap are both
    0; otherwise the longest gap is the largest recorded one and the average
    gap is an integer between 1 and the longest.  This holds for any array,
    sorted or not, with or without invalid dates. *)
Theorem conversation_gaps_summary (sortedMessages : list Message) :
  (forall g, In g (conversationGaps sortedMessages) ->
             exists z, g = ofZ z /\ 1 <= z)
  /\ ((conversationGaps sortedMessages = []
       /\ longestGap sortedMessages = ofZ 0
       /\ averageGap sortedMessages = ofZ 0)
      \/ exists L A,
           longestGap sortedMessages = ofZ L
           /\ averageGap sortedMessages = ofZ A
           /\ In (ofZ L) (conversationGaps sortedMessages)
           /\ (forall z, In (ofZ z) (conversationGaps sortedMessages) ->
                         z <= L)
           /\ 1 <= A <= L).
Proof.
  destruct (conversationGaps_entries sortedMessages) as (gaps & E & Hg).
  unfold longestGap, averageGap. rewrite E. split.
  - intros g Hin. apply in_map_iff in Hin as (z & <- & Hz).
    exists z. split; [reflexivity|].
    now apply (proj1 (Forall_forall _ _) Hg).
  - destruct gaps as [|z zs]; [left; now repeat split|right].
    set (L := fold_left Z.max zs z).
    set (S := fold_left Z.add (z :: zs) 0).
    set (n := Z.of_nat (List.length (z :: zs))).
    assert (Hn : 0 < n) by (unfold n; cbn [List.length]; lia).
    assert (Hlen : gt (Number.length (List.map ofZ (z :: zs))) (ofZ 0) = true).
    { unfold Number.length, ofNat. rewrite length_map, gt_ofZ.
      now apply Z.ltb_lt. }
    rewrite Hlen, Math_max_ofZ, sum_ofZ. fold L S.
    unfold Number.length, ofNat. rewrite length_map. fold n.
    rewrite round_quotient by exact Hn.
    assert (Hmax : forall x, In x (z :: zs) -> x <= L).
    { intros x [<-|Hx];
        [exact (proj1 (fold_max_ge zs z))
        |exact (proj2 (fold_max_ge zs z) x Hx)]. }
    assert (Hin : In L (z :: zs)).
    { destruct (fold_max_In zs z) as [H|H];
        [left; symmetry; exact H|right; exact H]. }
    assert (Hb : Forall (fun x => 1 <= x <= L) (z :: zs)).
    { apply Forall_forall. intros x Hx. split; [|now apply Hmax].
      now apply (proj1 (Forall_forall _ _) Hg). }
    pose proof (fold_add_bounds (z :: zs) 1 L Hb 0) as HS. fold S n in HS.
    exists L, ((2 * S + n) / (2 * n)).
    split; [reflexivity|]. split; [reflexivity|].
    split; [now apply in_map|]. split.
    + intros x Hx. apply in_map_iff in Hx as (y & Ey & Hy).
      apply ofZ_inj in Ey. subst y. now apply Hmax.
    + split.
      * apply Z.div_le_lower_bound; lia.
      * assert ((2 * S + n) / (2 * n) < L + 1); [|lia].
        apply Z.div_lt_upper_bound; nia.
Qed.

(** X13.  Days chatting and messages per day.  In every result,
    [conversationDays] is a whole number between 1 and the number of
    messages (all messages without a valid date share the one day
    "Invalid Date"), so the "Messages per day" figure the page computes,
    [Math.round(totalMessages / conversationDays)], never divides by zero:
    it is a whole number between 1 and the number of messages. *)
Theorem messages_per_day_is_defined (messages : list Message) (r : Result.t) :
  analysis messages = Return (Some r) ->
  exists d k,
    Result.conversationDays r = ofZ d /\ 1 <= d <= total messages
    /\ Result.totalMessages r = ofZ (total messages)
    /\ messagesPerDay r = ofZ k /\ 1 <= k <= total messages.
Proof.
  intros H. returned H. unfold messagesPerDay.
  cbn [Result.conversationDays Result.totalMessages].
  unfold conversationDays, totalMessages, Number.length, ofNat.
  fold (total messages).
  set (dates := List.map (fun m => toDateString (timestamp m)) messages).
  destruct (distinct_length dates) as [Hle Hge].
  assert (Hd : dates <> []) by (unfold dates; rewrite E; discriminate).
  specialize (Hge Hd).
  assert (Hl : List.length dates = List.length messages)
    by apply length_map.
  set (d := Z.of_nat (List.length (distinct dates))).
  assert (Hdn : 1 <= d <= total messages) by (unfold d, total; lia).
  exists d, ((2 * total messages + d) / (2 * d)).
  split; [reflexivity|]. split; [exact Hdn|]. split; [reflexivity|].
  split; [apply round_quotient; lia|]. split.
  - apply Z.div_le_lower_bound; lia.
  - assert ((2 * total messages + d) / (2 * d) < total messages + 1); [|lia].
    apply Z.div_lt_upper_bound; nia.
Qed.

Lemma messages_per_day_is_defined_witness :
  exists r d k,
    analysis Examples.example1Messages = Return (Some r)
    /\ Result.conversationDays r = ofZ d
    /\ 1 <= d <= total Examples.example1Messages
    /\ Result.totalMessages r = ofZ (total Examples.example1Messages)
    /\ messagesPerDay r = ofZ k
    /\ 1 <= k <= total Examples.example1Messages.
Proof.
  assert (H : exists r, analysis Examples.example1Messages = Return (Some r))
    by (vm_compute; eexists; reflexivity).
  destruct H as [r H]. exists r.
  destruct (messages_per_day_is_defined Examples.example1Messages r H)
    as (d & k & Hd).
  exists d, k. split; [exact H|exact Hd].
Defined.

(** X14.  Metrics of an identified contact.  Whatever the host's
    [toUpperCase] is, for each of the (one or two) contacts the analysis
    identifies, the subsequence of their messages is
    not empty, so their ratios are defined: the rounded average message
    length is a non negative integer and the three percentages of
    [getCommunicationStyle] are integers within 0..100.  (NaN arises only
    for the missing second contact of a one-person transcript.) *)
Theorem identified_contacts_have_defined_metrics
    (toUpperCase : jsstring -> jsstring)
    (messages : list Message) (c : jsstring) (cm : list Message) :
  (contact1 messages = Some c /\ cm = contact1Messages messages)
  \/ (contact2 messages = Some c /\ cm = contact2Messages messages) ->
  cm <> []
  /\ (exists a, Math_round (avgLength cm) = ofZ a /\ 0 <= a)
  /\ exists q e k,
       getCommunicationStyle toUpperCase cm
       = Result.mkStyle (ofZ q) (ofZ e) (ofZ k)
       /\ 0 <= q <= 100 /\ 0 <= e <= 100 /\ 0 <= k <= 100.
Proof.
  intros H.
  assert (Hcm : cm = List.filter (fun m => strictEq (contact m) (Some c))
                                 messages /\ In c (contacts messages)).
  { destruct H as [[E ->]|[E ->]].
    - unfold contact1Messages. rewrite E. split; [reflexivity|].
      unfold contact1 in E. now apply nth_error_In in E.
    - unfold contact2Messages. rewrite E. split; [reflexivity|].
      unfold contact2 in E. now apply nth_error_In in E. }
  destruct Hcm as [Ecm Hin].
  assert (Hne : cm <> []) by (rewrite Ecm; now apply identified_nonempty).
  assert (Hn : 0 < Z.of_nat (List.length cm))
    by (destruct cm; [contradiction|cbn [List.length]; lia]).
  split; [exact Hne|]. split.
  - unfold avgLength. rewrite length_fold. unfold Number.length, ofNat.
    rewrite round_quotient by exact Hn. eexists. split; [reflexivity|].
    pose proof (length_fold_nonneg cm 0 (Z.le_refl 0)).
    apply Z.div_pos; lia.
  - unfold getCommunicationStyle. rewrite !percentOf_percent by exact Hne.
    do 3 eexists. split; [reflexivity|].
    repeat split; apply percent_range; try exact Hn;
      (split; [lia|apply inj_le, filter_length_le]).
Qed.

Lemma identified_contacts_have_defined_metrics_witness :
  contact1Messages Examples.example1Messages <> []
  /\ (exists a,
        Math_round (avgLength (contact1Messages Examples.example1Messages))
        = ofZ a /\ 0 <= a)
  /\ exists q e k,
       getCommunicationStyle toUpperCase
         (contact1Messages Examples.example1Messages)
       = Result.mkStyle (ofZ q) (ofZ e) (ofZ k)
       /\ 0 <= q <= 100 /\ 0 <= e <= 100 /\ 0 <= k <= 100.
Proof.
  apply (identified_contacts_have_defined_metrics toUpperCase
           Examples.example1Messages Examples.alice).
  left. split; reflexivity.
Defined.

(** X15.  Night owls and early birds.  For each of two identified contacts,
    the late night counter is the number of their messages sent at or after
    22:00 or before 6:00, the early morning counter the number of their
    messages sent from 6:00 to before 10:00; no message is counted in both,
    so the two counters add up to at most the contact's message count. *)
Theorem night_and_morning_counters
    (messages : list Message) (r : Result.t) (c1 c2 : jsstring) :
  analysis messages = Return (Some r) ->
  Result.contacts r = (Some c1, Some c2) ->
  forall c, c = c1 \/ c = c2 ->
    Obj.get c (Result.lateNight (Result.activityPattern r))
    = Some (ofZ (sentCount c (List.filter isLateNight messages)))
    /\ Obj.get c (Result.earlyMorning (Result.activityPattern r))
       = Some (ofZ (sentCount c (List.filter isEarlyMorning messages)))
    /\ Obj.get c (Result.messageCounts r) = Some (ofZ (sentCount c messages))
    /\ sentCount c (List.filter isLateNight messages)
       + sentCount c (List.filter isEarlyMorning messages)
       <= sentCount c messages.
Proof.
  intros H Hc c Hcc. returned H.
  cbn [Result.contacts Result.activityPattern Result.lateNight
       Result.earlyMorning Result.messageCounts] in *.
  injection Hc as E1 E2.
  pose proof (contact12_differ messages c1 c2 E1 E2) as Hne.
  assert (Hkey : c = key (contact1 messages) \/ c = key (contact2 messages)).
  { rewrite E1, E2. exact Hcc. }
  pose proof (get_zeroCounters messages c Hkey) as Hz.
  unfold lateNightMessages, earlyMorningMessages.
  rewrite nightStep_fst, nightStep_snd.
  rewrite (counter_fold c isLateNight messages _ 0 Hz).
  rewrite (counter_fold c isEarlyMorning messages _ 0 Hz).
  split; [reflexivity|]. split; [reflexivity|]. split.
  - rewrite E1, E2. cbn [key]. unfold contact1Messages, contact2Messages.
    rewrite E1, E2, !filter_strictEq.
    destruct Hcc as [-> | ->].
    + now rewrite get_literal2_fst.
    + now rewrite get_literal2_snd.
  - apply sentCount_filters. apply late_not_early.
Qed.

Lemma night_and_morning_counters_witness :
  exists r,
    analysis Examples.example1Messages = Return (Some r)
    /\ forall c, c = Examples.alice \/ c = Examples.bob ->
         Obj.get c (Result.lateNight (Result.activityPattern r))
         = Some (ofZ (sentCount c (List.filter isLateNight
                                     Examples.example1Messages)))
         /\ Obj.get c (Result.earlyMorning (Result.activityPattern r))
            = Some (ofZ (sentCount c (List.filter isEarlyMorning
                                        Examples.example1Messages)))
         /\ Obj.get c (Result.messageCounts r)
            = Some (ofZ (sentCount c Examples.example1Messages))
         /\ sentCount c (List.filter isLateNight Examples.example1Messages)
            + sentCount c (List.filter isEarlyMorning
                             Examples.example1Messages)
            <= sentCount c Examples.example1Messages.
Proof.
  eexists. split; [vm_compute; reflexivity|].
  apply (night_and_morning_counters Examples.example1Messages).
  - vm_compute. reflexivity.
  - reflexivity.
Defined.

(** X16.  The top emoji.  [getTopEmojis] returns at most five entries, with
    distinct emoji, in non increasing order of count; the count of an entry
    is the number of times the emoji occurs in the contact's messages (at
    least 1); and an emoji that occurs but is left out is no more frequent
    than any emoji of the list, which then has five entries. *)
Theorem top_emojis_are_the_most_used (cm : list Message) :
  let emojis := emojisOf cm in
  let top := getTopEmojis cm in
  (List.length top <= 5)%nat
  /\ NoDup (List.map fst top)
  /\ descending _ snd top
  /\ (forall e c, In (e, c) top ->
                  c = ofZ (timesIn e emojis) /\ 1 <= timesIn e emojis)
  /\ (forall e, In e emojis -> ~ In e (List.map fst top) ->
        List.length top = 5%nat
        /\ forall e', In e' (List.map fst top) ->
                      timesIn e emojis <= timesIn e' emojis).
Proof.
  intros emojis top.
  destruct (emojiCount_tally emojis) as [Ht Hc].
  destruct (top_five (jsstring * number) fst snd
              (fold_left countOne emojis []) (fun e => timesIn e emojis))
    as (H1 & H2 & H3 & H4 & H5).
  - apply Ht.
  - intros [e c] Hin. now apply Hc.
  - intros e He. apply in_map_iff. exists (e, ofZ (timesIn e emojis)).
    split; [reflexivity|]. now apply Hc.
  - split; [exact H1|]. split; [exact H2|]. split; [exact H3|]. split.
    + intros e c Hin. apply (H4 (e, c)) in Hin as (_ & Hc1 & Hc2).
      now split.
    + intros e He. apply H5. now apply timesIn_pos.
Qed.

(** X17.  Response times.  When every message has a valid date, the sorted
    array is in chronological order, so every recorded response time is a
    gap of at least 0 and less than 24 hours, in minutes, and each average
    response time of the result is a whole number of minutes between 0 and
    1440. *)
Theorem response_times_are_within_a_day
    (messages : list Message) (r : Result.t) :
  (forall m, In m messages -> timestamp m <> InvalidDate) ->
  analysis messages = Return (Some r) ->
  (exists rt,
     responseTimes messages (sorted messages) = Return rt
     /\ allWithinADay rt)
  /\ forall c v,
       Obj.get c (Result.avgResponseTime r) = Some v ->
       exists z, v = ofZ z /\ 0 <= z <= 1440.
Proof.
  intros Hvalid H. unfold analysis in H.
  destruct messages as [|m0 rest] eqn:E; [discriminate|]. rewrite <- E in *.
  unfold body in H.
  destruct (avgResponseTime messages (sorted messages)) as [o|e] eqn:Ea;
    [|discriminate].
  cbn [bind] in H. injection H as <-. cbn [Result.avgResponseTime].
  unfold avgResponseTime in Ea.
  destruct (responseTimes messages (sorted messages)) as [rt|e] eqn:Ert;
    [|discriminate].
  cbn [bind] in Ea. unfold avgOf in Ea.
  destruct (Obj.get (key (contact1 messages)) rt) as [arr1|] eqn:E1;
    [|discriminate].
  destruct (Obj.get (key (contact2 messages)) rt) as [arr2|] eqn:E2;
    [|discriminate].
  cbn [bind] in Ea. injection Ea as <-.
  assert (Hrt : allWithinADay rt).
  { unfold responseTimes in Ert.
    apply (foldM_responseStep_withinADay _) with (3 := Ert).
    - intros [p cur] Hin. cbn [fst snd].
      pose proof (adjacent_sorted _ _ _ (sorted_chronological _ Hvalid)
                    p cur Hin) as Hle.
      apply adjacent_In in Hin as [Hp Hc].
      apply sort_In in Hp, Hc. auto.
    - intros k arr Hin. unfold Obj.literal2 in Hin.
      apply set_In in Hin as [[= _ ->]|Hin].
      + exists []. split; [reflexivity|constructor].
      + apply set_In in Hin as [[= _ ->]|[]].
        exists []. split; [reflexivity|constructor]. }
  split; [exists rt; now split|].
  intros c v Hget.
  apply literal2_values in Hget as [-> | ->];
    apply meanOrZero_withinADay; eapply Hrt; apply get_In; eassumption.
Qed.

Lemma response_times_are_within_a_day_witness :
  exists r,
    analysis Examples.example1Messages = Return (Some r)
    /\ forall c v,
         Obj.get c (Result.avgResponseTime r) = Some v ->
         exists z, v = ofZ z /\ 0 <= z <= 1440.
Proof.
  assert (H : exists r, analysis Examples.example1Messages = Return (Some r))
    by (vm_compute; eexists; reflexivity).
  destruct H as [r H]. exists r. split; [exact H|].
  apply (response_times_are_within_a_day Examples.example1Messages r);
    [|exact H].
  intros m [<-|[<-|[]]]; discriminate.
Defined.

(** X18.  Double texts.  Whatever array the host's sort hands back (a
    permutation of the messages), for each of two identified contacts the
    double text counter is the number of neighbours in that array that are
    both sent by the contact less than 5 minutes apart; it is always smaller
    than the contact's message count (a first message is never a double
    text). *)
Theorem double_texts_are_fewer_than_messages
    (toLowerCase toUpperCase : jsstring -> jsstring)
    (messages sortedMessages : list Message)
    (r : Result.t) (c1 c2 : jsstring) :
  Permutation messages sortedMessages ->
  body toLowerCase toUpperCase messages sortedMessages = Return (Some r) ->
  Result.contacts r = (Some c1, Some c2) ->
  forall c, c = c1 \/ c = c2 ->
    Obj.get c (Result.doubleTextAnalysis r)
    = Some (ofZ (doubleTexts c sortedMessages))
    /\ Obj.get c (Result.messageCounts r) = Some (ofZ (sentCount c messages))
    /\ 0 <= doubleTexts c sortedMessages < sentCount c messages.
Proof.
  intros Hperm H Hc c Hcc. returnedBody H.
  cbn [Result.contacts Result.doubleTextAnalysis Result.messageCounts] in *.
  injection Hc as E1 E2.
  pose proof (contact12_differ messages c1 c2 E1 E2) as Hne.
  assert (Hkey : c = key (contact1 messages) \/ c = key (contact2 messages)).
  { rewrite E1, E2. exact Hcc. }
  pose proof (get_zeroCounters messages c Hkey) as Hz.
  unfold doubleTextAnalysis.
  rewrite (doubleStep_fold c _ _ 0 Hz). split; [reflexivity|]. split.
  - rewrite E1, E2. cbn [key]. unfold contact1Messages, contact2Messages.
    rewrite E1, E2, !filter_strictEq.
    destruct Hcc as [-> | ->].
    + now rewrite get_literal2_fst.
    + now rewrite get_literal2_snd.
  - rewrite (sentCount_Permutation c _ _ Hperm). apply doubleTexts_bound.
    assert (Hin : In c (contacts messages)).
    { destruct Hcc as [-> | ->].
      - unfold contact1 in E1. now apply nth_error_In in E1.
      - unfold contact2 in E2. now apply nth_error_In in E2. }
    unfold contacts in Hin. apply (proj1 (distinct_In _ _)) in Hin.
    apply in_map_iff in Hin as (sender & Es & Hs).
    apply existsb_exists. exists sender.
    split; [now apply (Permutation_in _ Hperm)|].
    rewrite Es. apply eqb_refl.
Qed.

Lemma double_texts_are_fewer_than_messages_witness :
  exists r,
    analysis Examples.example1Messages = Return (Some r)
    /\ forall c, c = Examples.alice \/ c = Examples.bob ->
         Obj.get c (Result.doubleTextAnalysis r)
         = Some (ofZ (doubleTexts c (sorted Examples.example1Messages)))
         /\ Obj.get c (Result.messageCounts r)
            = Some (ofZ (sentCount c Examples.example1Messages))
         /\ 0 <= doubleTexts c (sorted Examples.example1Messages)
            < sentCount c Examples.example1Messages.
Proof.
  eexists. split; [vm_compute; reflexivity|].
  apply (double_texts_are_fewer_than_messages toLowerCase toUpperCase
           Examples.example1Messages (sorted Examples.example1Messages)).
  - vm_compute. apply Permutation_refl.
  - vm_compute. reflexivity.
  - reflexivity.
Defined.

(** X19.  Overlapping keywords.  Whatever the host's [toLowerCase] is: the
    keyword table holds "block" next to "blocked" and "ignore" next to
    "ignored", and the test is a substring test, so every message counted
    for the longer keyword is counted for the shorter one too.  A flag for
    "blocked" never comes without a flag for "block" with at least the same
    count (likewise for "ignored" and "ignore"), and the list never holds
    more than 16 flags. *)
Theorem overlapping_keywords_are_flagged_twice
    (toLowerCase : jsstring -> jsstring) (messages : list Message) :
  (List.length (redFlags toLowerCase messages) <= 16)%nat
  /\ forall short long,
       In (short, long)
          [(str "block", str "blocked"); (str "ignore", str "ignored")] ->
       (keywordCount toLowerCase messages long
        <= keywordCount toLowerCase messages short)%nat
       /\ ((0 < keywordCount toLowerCase messages long)%nat ->
           In (Result.mkRedFlag (str "blocking")
                 (flagText long (keywordCount toLowerCase messages long))
                 (severityFor (keywordCount toLowerCase messages long)))
              (redFlags toLowerCase messages)
           /\ In (Result.mkRedFlag (str "blocking")
                    (flagText short (keywordCount toLowerCase messages short))
                    (severityFor (keywordCount toLowerCase messages short)))
                 (redFlags toLowerCase messages)).
Proof.
  split.
  - rewrite redFlags_entries.
    assert (H : forall category keywords,
               (List.length
                  (flat_map (entryFor toLowerCase messages category) keywords)
                <= List.length keywords)%nat).
    { intros category keywords. apply flat_map_length_le. intros k.
      unfold entryFor. destruct (0 <? _)%nat; cbn; lia. }
    unfold redFlagKeywords. cbn [flat_map fst snd]. rewrite !length_app.
    cbn [List.length].
    pose proof (H (str "ex")
                  (List.map str ["ex"; "former"; "past relationship"]%string)).
    pose proof (H (str "money")
                  (List.map str ["broke"; "money"; "cash"; "poor";
                                 "rich"]%string)).
    pose proof (H (str "blocking")
                  (List.map str ["block"; "blocked"; "ignore";
                                 "ignored"]%string)).
    pose proof (H (str "toxic")
                  (List.map str ["hate"; "stupid"; "idiot";
                                 "annoying"]%string)).
    cbn [List.map List.length] in *. lia.
  - intros short long Hin.
    assert (Hp : isPrefixOf short long = true).
    { destruct Hin as [[= <- <-]|[[= <- <-]|[]]]; reflexivity. }
    pose proof (keywordCount_prefix toLowerCase messages short long Hp)
      as Hle.
    split; [exact Hle|]. intros Hpos. split.
    + apply entryFor_In; [|exact Hpos].
      destruct Hin as [[= <- <-]|[[= <- <-]|[]]]; vm_compute; tauto.
    + apply entryFor_In; [|lia].
      destruct Hin as [[= <- <-]|[[= <- <-]|[]]]; vm_compute; tauto.
Qed.

(** X20.  The top words.  Whatever the host's [toLowerCase] is, provided
    no counted word is the name of a member of [Object.prototype]
    ("constructor", "__proto__" and the like, for which the dictionary
    holds a string and not a count), [getTopWords] returns at most five
    entries, with distinct words, in non increasing
    order of count; every listed word is longer than two units and is not a
    stop word, its count is the number of times it occurs among the words of
    the contact's messages; and a counted word that is left out is no more
    frequent than any listed one, the list then holding five entries. *)
Theorem top_words_are_the_most_used
    (toLowerCase : jsstring -> jsstring) (cm : list Message) :
  (forall w, In w (TopWords.words toLowerCase cm) ->
             TopWords.inheritedText w = None) ->
  (List.length (TopWords.getTopWords toLowerCase cm) <= 5)%nat
  /\ NoDup (List.map fst (TopWords.getTopWords toLowerCase cm))
  /\ descending _ (fun kv => TopWords.toNumber (snd kv))
                (TopWords.getTopWords toLowerCase cm)
  /\ (forall w v,
        In (w, v) (TopWords.getTopWords toLowerCase cm) ->
        v = TopWords.Num (ofZ (timesIn w (TopWords.words toLowerCase cm)))
        /\ 1 <= timesIn w (TopWords.words toLowerCase cm)
        /\ TopWords.keeps w = true)
  /\ (forall w,
        In w (TopWords.words toLowerCase cm) ->
        ~ In w (List.map fst (TopWords.getTopWords toLowerCase cm)) ->
        List.length (TopWords.getTopWords toLowerCase cm) = 5%nat
        /\ forall w',
             In w' (List.map fst (TopWords.getTopWords toLowerCase cm)) ->
             timesIn w (TopWords.words toLowerCase cm)
             <= timesIn w' (TopWords.words toLowerCase cm)).
Proof.
  intros Hw. unfold TopWords.getTopWords.
  set (ws := TopWords.words toLowerCase cm) in *.
  destruct (emojiCount_tally ws) as [Ht Hc].
  pose proof (fold_countWord_asNum ws Hw []) as Efold.
  cbn [List.map] in Efold. rewrite Efold.
  set (tally := fold_left countOne ws []) in *.
  assert (Hperm : Permutation (TopWords.entries (List.map asNum tally))
                              (List.map asNum tally))
    by apply entries_Permutation.
  assert (Hin : forall x,
             In x (TopWords.entries (List.map asNum tally)) <->
             exists kv, x = asNum kv /\ In kv tally).
  { intros x. split.
    - intros H. apply (Permutation_in _ Hperm) in H.
      apply in_map_iff in H as (kv & <- & H). eauto.
    - intros (kv & -> & H).
      apply (Permutation_in _ (Permutation_sym Hperm)). now apply in_map. }
  destruct (top_five (jsstring * TopWords.propValue) fst
              (fun kv => TopWords.toNumber (snd kv))
              (TopWords.entries (List.map asNum tally))
              (fun w => timesIn w ws))
    as (H1 & H2 & H3 & H4 & H5).
  - apply (Permutation_NoDup (l := List.map fst tally)); [|apply Ht].
    rewrite <- (map_map asNum fst tally) at 1.
    change (fun x => fst (asNum x)) with (@fst jsstring number).
    apply Permutation_sym, Permutation_map, Hperm.
  - intros x Hx. apply Hin in Hx as ([k v] & -> & Hk).
    apply Hc in Hk as [-> Hk]. cbn. now split.
  - intros w Hpos. apply in_map_iff.
    exists (asNum (w, ofZ (timesIn w ws))). split; [reflexivity|].
    apply Hin. eexists. split; [reflexivity|]. now apply Hc.
  - split; [exact H1|]. split; [exact H2|]. split; [exact H3|]. split.
    + intros w v Hwv. apply (H4 (w, v)) in Hwv as (Hl & _ & Hpos).
      apply Hin in Hl as ([k n] & [= -> ->] & Hk).
      apply Hc in Hk as [-> _]. split; [reflexivity|]. split; [exact Hpos|].
      cbn [fst] in Hpos. apply timesIn_pos in Hpos.
      unfold ws, TopWords.words in Hpos. now apply filter_In in Hpos.
    + intros w Hin'. apply H5. now apply timesIn_pos.
Qed.

Lemma top_words_are_the_most_used_witness :
  (List.length
     (TopWords.getTopWords toLowerCase Examples.example1Messages) <= 5)%nat
  /\ NoDup (List.map fst
              (TopWords.getTopWords toLowerCase Examples.example1Messages)).
Proof.
  assert (H : forall w,
             In w (TopWords.words toLowerCase Examples.example1Messages) ->
             TopWords.inheritedText w = None).
  { intros w Hin. vm_compute in Hin.
    destruct Hin as [<-|[<-|[]]]; reflexivity. }
  destruct (top_words_are_the_most_used toLowerCase
              Examples.example1Messages H)
    as (H1 & H2 & _).
  split; [exact H1|exact H2].
Defined.

(** X21.  The consistency score.  The daily counts are as many as there are
    distinct dates ([conversationDays]) and add up to the number of messages.
    For any [Math.sqrt] that sends 0 to 0 and a finite non negative number to
    a finite non negative number, the consistency score of a non empty array
    is a whole number within 0..100, and it is 100 when every date has the
    same number of messages. *)
Theorem consistency_score_range
    (Math_sqrt : number -> number) (messages : list Message) :
  rootLike Math_sqrt -> messages <> [] ->
  Number.length (dailyCounts messages) = conversationDays messages
  /\ sum (dailyCounts messages) = totalMessages messages
  /\ (exists z,
        consistencyScore Math_sqrt messages = ofZ z /\ 0 <= z <= 100)
  /\ (forall k,
        (forall c, In c (dailyCounts messages) -> c = ofZ k) ->
        consistencyScore Math_sqrt messages = ofZ 100).
Proof.
  intros [Hroot0 Hroot] Hne.
  destruct (dailyCounts_spec messages) as (zs & E & Hz & Hs & Hl).
  set (dates := List.map (fun m => toDateString (timestamp m)) messages)
    in *.
  assert (Hdates : dates <> []).
  { unfold dates. destruct messages; [contradiction|discriminate]. }
  pose proof (proj2 (distinct_length dates) Hdates) as Hdays.
  set (n := Z.of_nat (List.length zs)).
  assert (Hn : 0 < n) by (unfold n; lia).
  assert (Ht : 0 < total messages).
  { unfold total. destruct messages; [contradiction|cbn [List.length]; lia]. }
  assert (Elen : Number.length (dailyCounts messages) = ofZ n).
  { unfold Number.length, ofNat. now rewrite E, length_map. }
  assert (Esum : sum (dailyCounts messages) = ofZ (total messages)).
  { now rewrite E, sum_ofZ, Hs. }
  split.
  { rewrite Elen. unfold conversationDays, Number.length, ofNat, n.
    fold dates. now rewrite Hl. }
  split; [rewrite Esum; reflexivity|].
  unfold consistencyScore, variance, avgDaily. rewrite Esum, Elen.
  split.
  - destruct (positive_quotient (total messages) n Ht Hn) as (a & Ea & Ha).
    rewrite Ea, E.
    assert (Hv : nonNegative
                   (div (fold_left
                           (fun acc count =>
                              add acc (Math_pow2 (sub count (Fin a))))
                           (List.map ofZ zs) (ofZ 0))
                        (ofZ n))).
    { apply nonNegative_div; [exact Hn|].
      apply squares_fold. now apply nonNegative_ofZ. }
    destruct (Hroot _ Hv) as (r & -> & Hr).
    now apply score_range.
  - intros k Hk.
    assert (Hall : Forall (fun z => z = k) zs).
    { apply Forall_forall. intros z Hin. apply ofZ_inj, Hk.
      rewrite E. now apply in_map. }
    assert (Hk1 : 1 <= k).
    { destruct zs as [|z zs']; [cbn in Hn; lia|].
      inversion Hall; subst. now inversion Hz. }
    rewrite <- Hs, (fold_add_equal k zs Hall). fold n.
    rewrite (div_exact n k Hn), E, (squares_fold_equal k zs Hall).
    rewrite (div_zero n Hn), Hroot0, (div_zero k) by lia. reflexivity.
Qed.

Lemma consistency_score_range_witness :
  exists z,
    consistencyScore wholeRoot Examples.example1Messages = ofZ z
    /\ 0 <= z <= 100.
Proof.
  assert (Hroot : rootLike wholeRoot).
  { split; [reflexivity|]. intros x (q & -> & Hq). unfold wholeRoot.
    apply Qle_bool_iff in Hq. rewrite Hq. apply nonNegative_ofZ.
    apply Z.sqrt_nonneg. }
  assert (Hne : Examples.example1Messages <> []) by discriminate.
  exact (proj1 (proj2 (proj2 (consistency_score_range
                                wholeRoot Examples.example1Messages
                                Hroot Hne)))).
Defined.

(** X22.  The energy level.  Whatever the host's [toUpperCase] is, with S
    the points of the contact's messages (2 for each "!", 3 for a message
    in capitals, 1 for each emoji) and n their number, [getEnergyLevel] is
    10 S / n rounded half up, and 0 for no message: a whole number that is
    never negative, is 0 when no message scores a point, and is at least 20
    when every message holds a "!".  It is not a percentage: nothing bounds
    it from above. *)
Theorem energy_level_bounds
    (toUpperCase : jsstring -> jsstring) (cm : list Message) :
  exists z,
    getEnergyLevel toUpperCase cm = ofZ z /\ 0 <= z
    /\ (cm <> [] ->
        z = (20 * energyTotal toUpperCase cm + Z.of_nat (List.length cm))
            / (2 * Z.of_nat (List.length cm)))
    /\ (energyTotal toUpperCase cm = 0 -> z = 0)
    /\ (cm <> [] -> (forall m, In m cm -> In 33%N (message m)) -> 20 <= z).
Proof.
  unfold getEnergyLevel. rewrite (energy_fold toUpperCase cm 0). cbn [Z.add].
  unfold Number.length, ofNat. rewrite gt_ofZ.
  set (n := Z.of_nat (List.length cm)).
  pose proof (energyTotal_bounds toUpperCase cm 0
                (fun m _ => energyPoints_nonneg toUpperCase m)) as Hnn.
  fold n in Hnn.
  destruct (Z.ltb_spec 0 n) as [Hn|Hn].
  - rewrite round_scaled by exact Hn.
    replace (2 * 10 * energyTotal toUpperCase cm + n)
      with (20 * energyTotal toUpperCase cm + n)
      by lia.
    eexists. split; [reflexivity|].
    split; [apply Z.div_pos; lia|]. split; [reflexivity|]. split.
    + intros ->. apply Z.div_small. lia.
    + intros _ Hall.
      pose proof (energyTotal_bounds toUpperCase cm 2
                    (fun m Hm =>
                       energyPoints_exclamation toUpperCase m (Hall m Hm)))
        as H2.
      fold n in H2. apply Z.div_le_lower_bound; lia.
  - exists 0. split; [reflexivity|]. split; [lia|].
    assert (Hcm : cm = []).
    { destruct cm; [reflexivity|]. unfold n in Hn. cbn [List.length] in Hn.
      lia. }
    repeat split; intros; try reflexivity; contradiction.
Qed.
